(** * moth: sandbox, tools, event bus, provider adapter and agent loop

    A shallow embedding of the orchestration core of the moth terminal
    assistant (TypeScript) and the properties its specification states
    about it.

    Conventions of the embedding.
    - A JavaScript string is a Rocq [string] holding its UTF-8 bytes (a
      string with an unpaired surrogate has none and is outside the
      embedding).  Positions and lengths are counted in bytes; on ASCII
      text bytes and UTF-16 code units coincide and [String.length] is the
      [.length] of the source.  Bytes read as text are decoded as the
      runtime decodes them ([Utf8.decode]).
    - A thrown exception is the [Err] branch of [result]; a [while (true)]
      loop takes a fuel argument and answers [None] when it runs dry.
    - [Date.now()] reads a clock [nat -> Z] at a tick counter kept in the
      state, so no assumption is made on the values it returns.
    - Node's [path] module (POSIX flavour) is not part of the repository;
      it is modelled on path segments, following its documented behaviour. *)

From Stdlib Require Import ZArith List String Ascii Bool Lia DecimalString.
From stdpp Require Import gmap strings list.
Import ListNotations.

Local Open Scope string_scope.
Local Open Scope list_scope.

(** ** Results and errors *)

Inductive result (E A : Type) : Type :=
| Ok (a : A)
| Err (e : E).
Arguments Ok {E A} a.
Arguments Err {E A} e.

(** A JavaScript [Error] object: its [name] and its [message]. *)
Record JsError : Type := mkError { err_name : string; err_message : string }.

Definition dquote : string := String "034"%char EmptyString.

(** ** JavaScript string primitives used by the sources *)
Module JsString.

Definition is_empty (s : string) : bool :=
  match s with EmptyString => true | _ => false end.

(** [s.startsWith(p)] *)
Fixpoint startsWith (s p : string) {struct p} : bool :=
  match p, s with
  | EmptyString, _ => true
  | String a p', String b s' => Ascii.eqb a b && startsWith s' p'
  | String _ _, EmptyString => false
  end.

(** [s.slice(n)] for [0 <= n] *)
Fixpoint drop (n : nat) (s : string) : string :=
  match n, s with
  | O, _ => s
  | S n', String _ s' => drop n' s'
  | S _, EmptyString => EmptyString
  end.

(** [s.slice(0, n)] for [0 <= n] *)
Fixpoint take (n : nat) (s : string) : string :=
  match n, s with
  | O, _ => EmptyString
  | S n', String a s' => String a (take n' s')
  | S _, EmptyString => EmptyString
  end.

(** the last code unit, if any *)
Fixpoint last (s : string) : option ascii :=
  match s with
  | EmptyString => None
  | String a EmptyString => Some a
  | String _ s' => last s'
  end.

(** [s.split(c)] for a one-character separator: never the empty list. *)
Fixpoint split (c : ascii) (s : string) : list string :=
  match s with
  | EmptyString => [EmptyString]
  | String a s' =>
      if Ascii.eqb a c then EmptyString :: split c s'
      else match split c s' with
           | h :: t => String a h :: t
           | [] => [String a EmptyString]
           end
  end.

(** [parts.join(sep)] *)
Fixpoint join (sep : string) (parts : list string) : string :=
  match parts with
  | [] => EmptyString
  | [p] => p
  | p :: rest => p +:+ sep +:+ join sep rest
  end.

(** [s.includes(c)] for a single character *)
Fixpoint has_char (c : ascii) (s : string) : bool :=
  match s with
  | EmptyString => false
  | String a s' => Ascii.eqb a c || has_char c s'
  end.

(** [s.indexOf(needle, from)]: the least position at or after [from] where
    [needle] starts; [from] is clamped to the length of [s], so an empty
    needle is found at [min from s.length]. *)
Fixpoint indexOfFrom (s needle : string) (pos : nat) : option nat :=
  if startsWith s needle then Some pos
  else match s with
       | EmptyString => None
       | String _ s' => indexOfFrom s' needle (S pos)
       end.

Definition indexOf (s needle : string) (from : nat) : option nat :=
  indexOfFrom (drop from s) needle (Nat.min from (String.length s)).

(** [s.includes(sub)] *)
Definition includes (s sub : string) : bool :=
  match indexOf s sub 0 with Some _ => true | None => false end.

Definition ascii_in (lo hi : nat) (c : ascii) : bool :=
  (lo <=? nat_of_ascii c)%nat && (nat_of_ascii c <=? hi)%nat.

(** white space, on ASCII *)
Definition isSpace (c : ascii) : bool :=
  ascii_in 9 13 c || (nat_of_ascii c =? 32)%nat.

(** [s.toLowerCase()], on ASCII letters *)
Definition lowerChar (c : ascii) : ascii :=
  if ascii_in 65 90 c then ascii_of_nat (nat_of_ascii c + 32) else c.

Fixpoint toLowerCase (s : string) : string :=
  match s with
  | EmptyString => EmptyString
  | String c s' => String (lowerChar c) (toLowerCase s')
  end.

(** [s.trim()], for ASCII white space *)
Fixpoint trimStart (s : string) : string :=
  match s with
  | String c s' => if isSpace c then trimStart s' else s
  | EmptyString => EmptyString
  end.

Fixpoint trimEnd (s : string) : string :=
  match s with
  | EmptyString => EmptyString
  | String c s' =>
      match trimEnd s' with
      | EmptyString => if isSpace c then EmptyString
                       else String c EmptyString
      | t => String c t
      end
  end.

Definition trim (s : string) : string := trimEnd (trimStart s).

(** the decimal rendering of a number inside a template literal *)
Definition ofNat (n : nat) : string := NilZero.string_of_uint (Nat.to_uint n).
Definition ofZ (z : Z) : string := NilZero.string_of_int (Z.to_int z).

End JsString.

(** ** Node's [path] module, POSIX flavour *)
Module Path.
Import JsString.

Definition sep : string := "/".

Definition isAbsolute (p : string) : bool :=
  match p with String "/"%char _ => true | _ => false end.

(** [normalizeString]: the segments of the path are scanned left to right;
    empty segments and [.] are dropped, [..] removes the segment before it
    and is kept only above the start of a relative path.  [res] is the
    stack of kept segments, innermost first. *)
Fixpoint normalizeSegs (allowAboveRoot : bool) (segs res : list string)
  : list string :=
  match segs with
  | [] => rev res
  | seg :: rest =>
      if String.eqb seg EmptyString || String.eqb seg "." then
        normalizeSegs allowAboveRoot rest res
      else if String.eqb seg ".." then
        match res with
        | top :: res' =>
            if String.eqb top ".." then
              normalizeSegs allowAboveRoot rest
                (if allowAboveRoot then ".." :: res else res)
            else normalizeSegs allowAboveRoot rest res'
        | [] =>
            normalizeSegs allowAboveRoot rest
              (if allowAboveRoot then [".."] else [])
        end
      else normalizeSegs allowAboveRoot rest (seg :: res)
  end.

Definition normalizeString (p : string) (allowAboveRoot : bool) : string :=
  join sep (normalizeSegs allowAboveRoot (split "/"%char p) []).

(** [path.normalize(p)] *)
Definition normalize (p : string) : string :=
  if is_empty p then "."
  else
    let isAbs := isAbsolute p in
    let trailingSeparator :=
      match last p with Some "/"%char => true | _ => false end in
    let q := normalizeString p (negb isAbs) in
    if is_empty q then
      if isAbs then "/" else if trailingSeparator then "./" else "."
    else
      let q' := if trailingSeparator then q +:+ "/" else q in
      if isAbs then "/" +:+ q' else q'.

(** The loop of [path.resolve]: the arguments are visited from the last
    one to the first one, then the working directory, until an absolute
    one has been prepended. *)
Fixpoint resolveLoop (paths : list string) (resolvedPath : string)
  : string * bool :=
  match paths with
  | [] => (resolvedPath, false)
  | p :: rest =>
      if is_empty p then resolveLoop rest resolvedPath
      else
        let resolvedPath' := p +:+ "/" +:+ resolvedPath in
        if isAbsolute p then (resolvedPath', true)
        else resolveLoop rest resolvedPath'
  end.

(** [path.resolve(...args)] in a process whose working directory is [cwd] *)
Definition resolve (cwd : string) (args : list string) : string :=
  let '(resolvedPath, resolvedAbsolute) :=
    resolveLoop (rev args ++ [cwd]) EmptyString in
  let q := normalizeString resolvedPath (negb resolvedAbsolute) in
  if resolvedAbsolute then "/" +:+ q
  else if is_empty q then "." else q.

End Path.

(** ** The security sandbox (sandbox.ts) *)
Module Sandbox.
Import JsString.

(** [setProjectRoot(root)]: the new value of the module variable
    [projectRoot]. *)
Definition setProjectRoot (cwd root : string) : string :=
  Path.resolve cwd [root].

Definition PathTraversalError (inputPath root : string) : JsError :=
  mkError "PathTraversalError"
    ("Path " +:+ dquote +:+ inputPath +:+ dquote
     +:+ " resolves outside project root " +:+ dquote +:+ root +:+ dquote
     +:+ ". Access denied.").

(** [resolveSafePath(inputPath)], with the module variable [projectRoot]
    and the working directory of the process as explicit arguments. *)
Definition resolveSafePath (cwd projectRoot inputPath : string)
  : result JsError string :=
  let resolved := Path.resolve cwd [projectRoot; inputPath] in
  let normalized := Path.normalize resolved in
  if negb (startsWith normalized (projectRoot +:+ Path.sep))
     && negb (String.eqb normalized projectRoot)
  then Err (PathTraversalError inputPath projectRoot)
  else Ok normalized.

End Sandbox.

(** ** Text read from bytes

    [buffer.toString('utf-8')], which is also what [fs.readFile(p, 'utf-8')]
    answers: the bytes are read as UTF-8 and every maximal ill-formed run of
    bytes becomes the character U+FFFD.  With strings held as their UTF-8
    bytes, the outcome is again a string of bytes; it is the input itself
    when the input is well formed, and nothing is removed at its start (a
    byte order mark stays). *)
Module Utf8.
Import JsString.

(** U+FFFD, in UTF-8 *)
Definition REPLACEMENT : string :=
  String "239"%char (String "191"%char (String "189"%char EmptyString)).

Definition byteIs (n : nat) (b : ascii) : bool := (nat_of_ascii b =? n)%nat.

(** The decoder, a byte at a time: [need] bytes of the current character
    are still to come, the next one within [lo..hi]; [seen] holds the bytes
    of the character read so far. *)
Fixpoint decodeFrom (need lo hi : nat) (seen s : string) : string :=
  match s with
  | EmptyString =>
      match need with O => EmptyString | S _ => REPLACEMENT end
  | String b rest =>
      let first :=
        if ascii_in 0 127 b then String b (decodeFrom 0 128 191 EmptyString rest)
        else if ascii_in 194 223 b
             then decodeFrom 1 128 191 (String b EmptyString) rest
        else if byteIs 224 b
             then decodeFrom 2 160 191 (String b EmptyString) rest
        else if byteIs 237 b
             then decodeFrom 2 128 159 (String b EmptyString) rest
        else if ascii_in 225 239 b
             then decodeFrom 2 128 191 (String b EmptyString) rest
        else if byteIs 240 b
             then decodeFrom 3 144 191 (String b EmptyString) rest
        else if byteIs 244 b
             then decodeFrom 3 128 143 (String b EmptyString) rest
        else if ascii_in 241 243 b
             then decodeFrom 3 128 191 (String b EmptyString) rest
        else REPLACEMENT +:+ decodeFrom 0 128 191 EmptyString rest in
      match need with
      | O => first
      | S O =>
          if ascii_in lo hi b
          then seen +:+ String b (decodeFrom 0 128 191 EmptyString rest)
          else REPLACEMENT +:+ first
      | S need' =>
          if ascii_in lo hi b
          then decodeFrom need' 128 191 (seen +:+ String b EmptyString) rest
          else REPLACEMENT +:+ first
      end
  end.

Definition decode (bytes : string) : string :=
  decodeFrom 0 128 191 EmptyString bytes.

(** [s.length], the number of UTF-16 code units of a well-formed string:
    one for each character, two for those of four bytes. *)
Fixpoint length16 (s : string) : nat :=
  match s with
  | EmptyString => 0
  | String b rest =>
      (if ascii_in 128 191 b then 0
       else if ascii_in 240 255 b then 2 else 1) + length16 rest
  end.

(** Text of ASCII characters only. *)
Fixpoint isAscii (s : string) : bool :=
  match s with
  | EmptyString => true
  | String b rest => ascii_in 0 127 b && isAscii rest
  end.

End Utf8.

(** ** The file system seen by the tools

    Regular files that can be read: a finite map from absolute paths to the
    bytes they hold.  The calls that write can fail, and the sources catch
    their failures: [writeError] is what [fs.writeFile] of a scratch file
    fails with, when it does; [crossDevice] tells whether [fs.rename] out
    of the scratch directory fails, as it does with [EXDEV] when that
    directory lies on another device than the project; [copyError] is what
    [fs.copyFile] into the project fails with, when it does; [unlinkFails]
    tells whether [fs.unlink] of a scratch file fails. *)
Module Fs.

Record World : Type := mkWorld {
  files : gmap string string;
  crossDevice : bool;
  writeError : option JsError;
  copyError : option JsError;
  unlinkFails : bool
}.

Definition withFiles (w : World) (fs : gmap string string) : World :=
  mkWorld fs (crossDevice w) (writeError w) (copyError w) (unlinkFails w).

Definition ENOENT (p : string) : JsError :=
  mkError "Error" ("ENOENT: no such file or directory, open '" +:+ p +:+ "'").

Definition EXDEV (src dst : string) : JsError :=
  mkError "Error"
    ("EXDEV: cross-device link not permitted, rename '" +:+ src +:+ "' -> '"
     +:+ dst +:+ "'").

(** [fs.readFile(p, 'utf-8')]: the text the bytes of the file decode to. *)
Definition readFile (w : World) (p : string) : result JsError string :=
  match files w !! p with
  | Some bytes => Ok (Utf8.decode bytes)
  | None => Err (ENOENT p)
  end.

(** [fs.writeFile(p, data, 'utf-8')] of a scratch file: the bytes of the
    string. *)
Definition writeFile (w : World) (p data : string) : result JsError World :=
  match writeError w with
  | Some e => Err e
  | None => Ok (withFiles w (<[p := data]> (files w)))
  end.

Definition rename (w : World) (src dst : string) : result JsError World :=
  match files w !! src with
  | None => Err (ENOENT src)
  | Some c =>
      if crossDevice w then Err (EXDEV src dst)
      else Ok (withFiles w (<[dst := c]> (delete src (files w))))
  end.

Definition copyFile (w : World) (src dst : string) : result JsError World :=
  match files w !! src with
  | None => Err (ENOENT src)
  | Some c =>
      match copyError w with
      | Some e => Err e
      | None => Ok (withFiles w (<[dst := c]> (files w)))
      end
  end.

(** [fs.unlink(p).catch(() => {})]: a failure is swallowed. *)
Definition unlink (w : World) (p : string) : World :=
  if unlinkFails w then w else withFiles w (delete p (files w)).

(** The new content of a file can be put in place: the scratch file is
    written, and the rename works or the copy that follows a failed rename
    does. *)
Definition placeable (w : World) : Prop :=
  writeError w = None /\ (crossDevice w = false \/ copyError w = None).

(** No scratch file is left behind: the rename works, or the unlink that
    follows the copy does. *)
Definition tidy (w : World) : Prop :=
  crossDevice w = false \/ unlinkFails w = false.

End Fs.

(** ** Tools (tools/types.ts) *)

Module ToolTypes.

(** [ToolResult]: [isError] is an optional field. *)
Record ToolResult : Type := mkResult {
  content : string;
  isError : option bool
}.

(** [result.isError ?? false] *)
Definition isErrorOrFalse (r : ToolResult) : bool :=
  match isError r with Some b => b | None => false end.

End ToolTypes.
Export ToolTypes.

(** ** The edit tool (edit-file.ts) *)
Module EditFile.
Import JsString.

Record Input : Type := mkInput {
  path : string;
  old_string : string;
  new_string : string
}.

(** The counting loop of [execute]:
[[
      while (true) {
        const idx = content.indexOf(oldStr, searchFrom);
        if (idx === -1) break;
        count++;
        searchFrom = idx + oldStr.length;
      }
]]
    [None] when the fuel runs out before the loop breaks. *)
Fixpoint countLoop (fuel : nat) (content oldStr : string)
  (count searchFrom : nat) : option nat :=
  match fuel with
  | O => None
  | S fuel' =>
      match indexOf content oldStr searchFrom with
      | None => Some count
      | Some idx =>
          countLoop fuel' content oldStr (S count) (idx + String.length oldStr)
      end
  end.

(** [GetSubstitution] for a pattern that is a string (no capture groups):
    [$$], [$&], [$`] and [$'] are expanded, every other character of the
    replacement stands for itself. *)
Fixpoint getSubstitution (matched before after template : string) : string :=
  match template with
  | EmptyString => EmptyString
  | String "$"%char (String "$"%char rest) =>
      "$" +:+ getSubstitution matched before after rest
  | String "$"%char (String "&"%char rest) =>
      matched +:+ getSubstitution matched before after rest
  | String "$"%char (String "`"%char rest) =>
      before +:+ getSubstitution matched before after rest
  | String "$"%char (String "'"%char rest) =>
      after +:+ getSubstitution matched before after rest
  | String c rest => String c (getSubstitution matched before after rest)
  end.

(** [content.replace(oldStr, newStr)] with a string pattern: the first
    occurrence only. *)
Definition replace (content oldStr newStr : string) : string :=
  match indexOf content oldStr 0 with
  | None => content
  | Some pos =>
      let before := take pos content in
      let after := drop (pos + String.length oldStr) content in
      before +:+ getSubstitution oldStr before after newStr +:+ after
  end.

Definition lineCount (s : string) : Z :=
  Z.of_nat (List.length (split "010"%char s)).

Definition deltaStr (oldStr newStr : string) : string :=
  let delta := (lineCount newStr - lineCount oldStr)%Z in
  if (0 <? delta)%Z then "+" +:+ ofZ delta
  else if (delta <? 0)%Z then ofZ delta
  else "±0".

(** The catch clause of the outer [try]. *)
Definition onError (inputPath : string) (e : JsError) : ToolResult :=
  let msg := err_message e in
  match indexOf msg "ENOENT" 0 with
  | Some _ => mkResult ("File not found: " +:+ inputPath) (Some true)
  | None => mkResult ("Error editing file: " +:+ msg) (Some true)
  end.

(** [editFileTool.execute(input)].  [cwd] and [projectRoot] are the state of
    the sandbox, [tmpPath] the scratch file name drawn from the clock and
    the random generator, [w] the file system before the call.  The answer
    is the file system after the call and the tool result; [None] when the
    counting loop does not break within [fuel] iterations.  Positions in
    the text are counted in bytes, which finds the matches the source
    finds in code units, both strings being well formed. *)
Definition execute (fuel : nat) (cwd projectRoot tmpPath : string)
  (w : Fs.World) (input : Input) : option (Fs.World * ToolResult) :=
  let inputPath := path input in
  let oldStr := old_string input in
  let newStr := new_string input in
  if String.eqb oldStr newStr then
    Some (w, mkResult "old_string and new_string are identical. No change needed."
               (Some true))
  else
    match Sandbox.resolveSafePath cwd projectRoot inputPath with
    | Err err => Some (w, mkResult (err_message err) (Some true))
    | Ok safePath =>
        match Fs.readFile w safePath with
        | Err e => Some (w, onError inputPath e)
        | Ok content =>
            match countLoop fuel content oldStr 0 0 with
            | None => None
            | Some O =>
                Some (w, mkResult
                  ("String not found in " +:+ inputPath
                   +:+ ". Verify the exact content including whitespace and newlines.")
                  (Some true))
            | Some (S O) =>
                let newContent := replace content oldStr newStr in
                let finish (w' : Fs.World) :=
                  Some (w', mkResult
                    ("Edited: " +:+ safePath +:+ " (replaced "
                     +:+ ofNat (Utf8.length16 oldStr) +:+ " → "
                     +:+ ofNat (Utf8.length16 newStr) +:+ " chars, "
                     +:+ deltaStr oldStr newStr +:+ " lines)")
                    None) in
                match Fs.writeFile w tmpPath newContent with
                | Err e => Some (w, onError inputPath e)
                | Ok w1 =>
                    match Fs.rename w1 tmpPath safePath with
                    | Ok w2 => finish w2
                    | Err _ =>
                        match Fs.copyFile w1 tmpPath safePath with
                        | Err e => Some (w1, onError inputPath e)
                        | Ok w2 => finish (Fs.unlink w2 tmpPath)
                        end
                    end
                end
            | Some count =>
                Some (w, mkResult
                  ("Found " +:+ ofNat count +:+ " occurrences of old_string in "
                   +:+ inputPath
                   +:+ ". Must be unique — provide more surrounding context to disambiguate.")
                  (Some true))
            end
        end
    end.

(** *** What the specification calls an occurrence *)

(** [old] is read in [content] from position [i] on. *)
Definition occursAt (content old : string) (i : nat) : Prop :=
  i <= String.length content /\ startsWith (drop i content) old = true.

Definition occursAtb (content old : string) (i : nat) : bool :=
  (i <=? String.length content)%nat && startsWith (drop i content) old.

(** The number of positions of [content] at which [old] is read. *)
Definition occurrences (content old : string) : nat :=
  List.length (List.filter (occursAtb content old)
                 (seq 0 (S (String.length content)))).

(** Exactly one match in the sense of the counting loop: a leftmost
    occurrence, and no occurrence that starts at or after its end. *)
Definition uniqueMatch (content old : string) : Prop :=
  exists i, occursAt content old i
            /\ (forall j, j < i -> ~ occursAt content old j)
            /\ (forall j, i + String.length old <= j -> ~ occursAt content old j).

(** The number of matches when they are taken from left to right, each
    match consuming its full length before the search resumes; [skip]
    characters of the last match are still to be passed. *)
Fixpoint matchesFrom (skip : nat) (content old : string) : nat :=
  match content with
  | EmptyString => 0
  | String _ rest =>
      match skip with
      | S k => matchesFrom k rest old
      | O =>
          if startsWith content old
          then S (matchesFrom (String.length old - 1) rest old)
          else matchesFrom 0 rest old
      end
  end.

Definition disjointMatches (content old : string) : nat :=
  matchesFrom 0 content old.

End EditFile.

(** ** Regular expressions, as far as the command patterns need them

    A backtracking matcher over the code units of the subject.  A position
    is the unit before it (if any) and the rest of the subject; a pattern
    maps a position to the positions at which a match of it may end. *)
Module Regex.

Import JsString.

(** [\w] *)
Definition isWord (c : ascii) : bool :=
  ascii_in 97 122 c || ascii_in 65 90 c || ascii_in 48 57 c
  || (nat_of_ascii c =? 95)%nat.

(** [.] without the [s] flag: anything but a line terminator *)
Definition isDot (c : ascii) : bool :=
  negb ((nat_of_ascii c =? 10)%nat || (nat_of_ascii c =? 13)%nat).

Inductive t : Type :=
| Eps
| Chr (c : ascii)
| Cls (p : ascii -> bool)
| WordB
| EndOfInput
| Seq (r1 r2 : t)
| Alt (r1 r2 : t)
| Star (r : t).

Definition Opt (r : t) : t := Alt r Eps.
Definition Plus (r : t) : t := Seq r (Star r).

Fixpoint Lit (s : string) : t :=
  match s with
  | EmptyString => Eps
  | String c EmptyString => Chr c
  | String c s' => Seq (Chr c) (Lit s')
  end.

Fixpoint Seqs (rs : list t) : t :=
  match rs with
  | [] => Eps
  | [r] => r
  | r :: rs' => Seq r (Seqs rs')
  end.

Definition Pos : Type := (option ascii * string)%type.

Definition wordAt (o : option ascii) : bool :=
  match o with Some c => isWord c | None => false end.

Definition next (s : string) : option ascii :=
  match s with String c _ => Some c | EmptyString => None end.

Definition shorter (p q : Pos) : bool :=
  (String.length (snd q) <? String.length (snd p))%nat.

(** The end positions of the matches of [r] that start at [p].  An
    iteration of a star that consumes nothing is dropped, as the language
    prescribes, so the length of the rest bounds the number of rounds. *)
Fixpoint ends (r : t) (p : Pos) : list Pos :=
  match r with
  | Eps => [p]
  | Chr c =>
      match snd p with
      | String a rest => if Ascii.eqb a c then [(Some a, rest)] else []
      | EmptyString => []
      end
  | Cls f =>
      match snd p with
      | String a rest => if f a then [(Some a, rest)] else []
      | EmptyString => []
      end
  | WordB => if xorb (wordAt (fst p)) (wordAt (next (snd p))) then [p] else []
  | EndOfInput => match snd p with EmptyString => [p] | _ => [] end
  | Seq r1 r2 => flat_map (ends r2) (ends r1 p)
  | Alt r1 r2 => ends r1 p ++ ends r2 p
  | Star r' =>
      (fix rounds (n : nat) (q : Pos) : list Pos :=
         q :: match n with
              | O => []
              | S n' =>
                  flat_map (rounds n')
                    (List.filter (shorter q) (ends r' q))
              end) (String.length (snd p)) p
  end.

Definition matchesAt (r : t) (p : Pos) : bool :=
  match ends r p with [] => false | _ => true end.

(** [r.test(s)] for a pattern without flags: a match starting anywhere. *)
Fixpoint searchFrom (r : t) (prev : option ascii) (s : string) : bool :=
  matchesAt r (prev, s)
  || match s with
     | EmptyString => false
     | String c s' => searchFrom r (Some c) s'
     end.

Definition test (r : t) (s : string) : bool := searchFrom r None s.

End Regex.

(** ** The shell tool (bash.ts) *)
Module Bash.
Import JsString.

Definition DEFAULT_TIMEOUT : Z := 120000.
Definition MAX_OUTPUT : N := 200000.

Section Patterns.
Import Regex.

Let s_plus : Regex.t := Plus (Cls isSpace).
Let s_star : Regex.t := Star (Cls isSpace).
Let any_star : Regex.t := Star (Cls isDot).
Let lower : Regex.t := Cls (ascii_in 97 122).
(** [\/($|\s)] *)
Let root_end : Regex.t := Seq (Chr "/") (Alt EndOfInput (Cls isSpace)).
Let shells : Regex.t := Alt (Lit "bash") (Alt (Lit "sh") (Lit "zsh")).

(** The table [destructive]: each pattern with its reason, in order. *)
Definition destructive : list (Regex.t * string) :=
  [ (Seqs [WordB; Lit "rm"; s_plus;
           Opt (Seqs [Chr "-"; Star lower; Chr "f"; Star lower; s_plus]);
           root_end],
     "rm at filesystem root");
    (Seqs [WordB; Lit "mkfs"; WordB], "filesystem formatting");
    (Seqs [WordB; Lit "dd"; s_plus; any_star; WordB; Lit "of=/dev/"],
     "raw device write");
    (Seqs [Lit ":(){"; any_star; Chr "|"; any_star; Chr "&"; any_star;
           Lit "};:"],
     "fork bomb");
    (Seqs [WordB;
           Alt (Lit "shutdown")
             (Alt (Lit "reboot") (Alt (Lit "halt") (Lit "poweroff")));
           WordB],
     "system power control");
    (Seqs [Chr ">"; s_star; Lit "/dev/sd"; lower], "raw device write");
    (Seqs [Chr ">"; s_star; Lit "/dev/nvme"], "raw device write");
    (Seqs [WordB; Lit "chmod"; s_plus; Opt (Seq (Lit "-R") s_plus);
           Star (Cls (ascii_in 48 55)); s_plus; root_end],
     "recursive permission change at root");
    (Seqs [WordB; Lit "chown"; s_plus; Opt (Seq (Lit "-R") s_plus);
           any_star; s_plus; root_end],
     "recursive ownership change at root");
    (Seqs [WordB; Lit "curl"; Cls isSpace; any_star; Chr "|"; s_star; shells],
     "pipe remote script to shell");
    (Seqs [WordB; Lit "wget"; Cls isSpace; any_star; Chr "|"; s_star; shells],
     "pipe remote script to shell") ].

End Patterns.

Fixpoint firstMatch (table : list (Regex.t * string)) (normalized : string)
  : option string :=
  match table with
  | [] => None
  | (pattern, reason) :: rest =>
      if Regex.test pattern normalized then
        Some ("Command blocked: " +:+ reason
              +:+ ". If this is intentional, run it directly in your terminal.")
      else firstMatch rest normalized
  end.

(** [isBlockedCommand(command)]: the reason when blocked, [None] for [null].
    White space, letter case and word characters are those of ASCII: the
    verdict is that of the source for a command of ASCII characters. *)
Definition isBlockedCommand (command : string) : option string :=
  let normalized := trim (toLowerCase command) in
  firstMatch destructive normalized.

(** *** The subprocess *)

(** One call of [spawn(file, args, { cwd, ... })]. *)
Record SpawnCall : Type := mkSpawn {
  spawn_file : string;
  spawn_args : list string;
  spawn_cwd : string
}.

(** What a spawned process does, as seen through its events: either the
    [error] event, or data chunks followed by [close] with an exit code and
    a signal; [timedOut] tells whether the kill timer fired first. *)
Inductive ProcRun : Type :=
| ProcError (message : string)
| ProcClose (chunks : list string) (code : option Z) (signal : option string)
    (timedOut : bool).

Record Input : Type := mkInput {
  command : string;
  timeout : option Z
}.

(** [collectOutput(data)] on the pair of [chunks] and [totalSize] *)
Definition collectOutput (st : list string * N) (data : string)
  : list string * N :=
  let '(chunks, totalSize) := st in
  if (MAX_OUTPUT <=? totalSize)%N then st
  else
    let remaining := (MAX_OUTPUT - totalSize)%N in
    let chunk := if (remaining <? N.of_nat (String.length data))%N
                 then take (N.to_nat remaining) data else data in
    (chunks ++ [chunk], (totalSize + N.of_nat (String.length chunk))%N).

Definition codeText (code : option Z) : string :=
  match code with Some z => ofZ z | None => "null" end.

(** The [close] handler. *)
Definition onClose (timeoutMs : Z) (st : list string * N) (code : option Z)
  (signal : option string) (killed : bool) : ToolResult :=
  let '(chunks, totalSize) := st in
  let output := Utf8.decode (String.concat EmptyString chunks) in
  let output := if (MAX_OUTPUT <=? totalSize)%N
                then output +:+ String "010"%char "... (output truncated at 200KB)"
                else output in
  let sigterm := match signal with
                 | Some s => String.eqb s "SIGTERM"
                 | None => false
                 end in
  let output := if sigterm || killed
                then output +:+ String "010"%char "(killed: timeout after "
                     +:+ ofZ timeoutMs +:+ "ms)"
                else output in
  mkResult (if is_empty output
            then "(no output, exit code: " +:+ codeText code +:+ ")"
            else output)
           (Some (negb match code with Some 0%Z => true | _ => false end)).

(** [bashTool.execute(input)]: the calls of [spawn] it makes and its result.
    [os] gives the behaviour of a spawned process, [projectRoot] is the
    sandbox root. *)
Definition execute (os : SpawnCall -> ProcRun) (projectRoot : string)
  (input : Input) : list SpawnCall * ToolResult :=
  let timeoutMs := match timeout input with
                   | Some 0%Z | None => DEFAULT_TIMEOUT
                   | Some t => t
                   end in
  match isBlockedCommand (command input) with
  | Some blocked => ([], mkResult ("Blocked: " +:+ blocked) (Some true))
  | None =>
      let call := mkSpawn "bash" ["-c"; command input] projectRoot in
      ([call],
       match os call with
       | ProcError message =>
           mkResult ("Failed to execute: " +:+ message) (Some true)
       | ProcClose chunks code signal timedOut =>
           onClose timeoutMs (fold_left collectOutput chunks ([], 0%N))
             code signal timedOut
       end)
  end.

End Bash.
(** ** JSON values, [JSON.parse] and [JSON.stringify]

    The values a JSON text denotes.  A number is kept exactly, as the
    decimal [m / 10^e] with no trailing zero in its fraction; the runtime
    rounds to a double, which makes no difference for the integers and the
    decimals of at most fifteen digits the sources handle, and which is not
    modelled beyond them.  An object lists its properties as the runtime
    does: those whose key is an array index first, in ascending order,
    then the others in insertion order. *)
Module Json.
Import JsString.

#[warnings="-register-all"]
Inductive JSON : Type :=
| JNull
| JBool (b : bool)
| JNum (m : Z) (e : nat)
| JStr (s : string)
| JArr (items : list JSON)
| JObj (fields : list (string * JSON)).

(** [Record<string, unknown>] *)
Abbreviation JObject := (list (string * JSON)).

Definition JInt (z : Z) : JSON := JNum z 0.

(** [obj[k]] on the property list of an object *)
Fixpoint lookup (k : string) (fields : JObject) : option JSON :=
  match fields with
  | [] => None
  | (k', v) :: rest => if String.eqb k k' then Some v else lookup k rest
  end.

(** The properties every object inherits from [Object.prototype]: [k in
    obj] holds for them, and [obj[k]] is then a function or, for
    [__proto__], the prototype itself. *)
Definition objectPrototype : list string :=
  ["constructor"; "__defineGetter__"; "__defineSetter__"; "hasOwnProperty";
   "__lookupGetter__"; "__lookupSetter__"; "isPrototypeOf";
   "propertyIsEnumerable"; "toString"; "valueOf"; "__proto__";
   "toLocaleString"].

Definition inherited (k : string) : bool :=
  existsb (String.eqb k) objectPrototype.

(** [obj[k] = v]: an existing property keeps its place. *)
Fixpoint setField (k : string) (v : JSON) (fields : JObject) : JObject :=
  match fields with
  | [] => [(k, v)]
  | (k', v') :: rest =>
      if String.eqb k k' then (k, v) :: rest
      else (k', v') :: setField k v rest
  end.

(** The array index a key denotes, if any: the decimal numeral, without
    leading zero, of a number below [2^32 - 1]. *)
Definition arrayIndex (k : string) : option N :=
  let digit (c : ascii) : bool := ascii_in 48 57 c in
  let fix value (s : string) (acc : N) : option N :=
    match s with
    | EmptyString => Some acc
    | String c rest =>
        if digit c
        then value rest (10 * acc + N.of_nat (nat_of_ascii c - 48))%N
        else None
    end in
  match k with
  | EmptyString => None
  | String "0"%char EmptyString => Some 0%N
  | String "0"%char _ => None
  | _ =>
      if (10 <? String.length k)%nat then None
      else match value k 0%N with
           | Some n => if (n <? 4294967295)%N then Some n else None
           | None => None
           end
  end.

Fixpoint insertIndexed (i : N) (kv : string * JSON)
  (sorted : list (N * (string * JSON))) : list (N * (string * JSON)) :=
  match sorted with
  | [] => [(i, kv)]
  | (j, kv') :: rest =>
      if (i <? j)%N then (i, kv) :: sorted
      else (j, kv') :: insertIndexed i kv rest
  end.

(** The order in which the runtime lists the properties of an object
    whose properties were created in the order of [fields]. *)
Definition orderKeys (fields : JObject) : JObject :=
  let indexed :=
    fold_left (fun sorted kv =>
                 match arrayIndex (fst kv) with
                 | Some i => insertIndexed i kv sorted
                 | None => sorted
                 end) fields [] in
  map snd indexed
  ++ List.filter (fun kv => match arrayIndex (fst kv) with
                            | Some _ => false
                            | None => true
                            end) fields.

(** Truthiness of a value; [None] stands for [undefined]. *)
Definition truthy (o : option JSON) : bool :=
  match o with
  | None | Some JNull => false
  | Some (JBool b) => b
  | Some (JNum m _) => negb (m =? 0)%Z
  | Some (JStr s) => negb (is_empty s)
  | Some (JArr _) | Some (JObj _) => true
  end.

(** [typeof v] *)
Definition typeOf (v : JSON) : string :=
  match v with
  | JBool _ => "boolean"
  | JNum _ _ => "number"
  | JStr _ => "string"
  | JNull | JArr _ | JObj _ => "object"
  end.

(** *** Tokens *)

Inductive Token : Type :=
| TLBrace | TRBrace | TLBracket | TRBracket | TColon | TComma
| TString (s : string)
| TNumber (m : Z) (e : nat)
| TTrue | TFalse | TNull.

Definition digitVal (c : ascii) : option Z :=
  let n := nat_of_ascii c in
  if (48 <=? n)%nat && (n <=? 57)%nat then Some (Z.of_nat (n - 48)) else None.

Definition hexVal (c : ascii) : option nat :=
  let n := nat_of_ascii c in
  if (48 <=? n)%nat && (n <=? 57)%nat then Some (n - 48)
  else if (97 <=? n)%nat && (n <=? 102)%nat then Some (n - 87)
  else if (65 <=? n)%nat && (n <=? 70)%nat then Some (n - 55)
  else None.

(** The longest prefix of digits, most significant first, and what follows. *)
Fixpoint takeDigits (s : string) : list Z * string :=
  match s with
  | EmptyString => ([], EmptyString)
  | String c rest =>
      match digitVal c with
      | Some d => let '(ds, r) := takeDigits rest in (d :: ds, r)
      | None => ([], s)
      end
  end.

Definition digitsToZ (ds : list Z) : Z :=
  fold_left (fun acc d => (10 * acc + d)%Z) ds 0%Z.

(** Drop the trailing zeros of a fraction with [e] digits. *)
Fixpoint normalize (m : Z) (e : nat) : Z * nat :=
  match e with
  | O => (m, O)
  | S e' => if (m mod 10 =? 0)%Z then normalize (m / 10) e' else (m, e)
  end.

(** The grammar of a JSON number: an optional minus sign; an integer part
    that is 0 or starts with a non-zero digit; an optional fraction, a dot
    and at least one digit; an optional exponent, [e] or [E], an optional
    sign and at least one digit. *)
Definition parseNumber (s : string) : option (Z * nat) :=
  let '(neg, s1) := match s with
                    | String "-"%char r => (true, r)
                    | _ => (false, s)
                    end in
  let '(intDigits, s2) := takeDigits s1 in
  match intDigits with
  | [] => None
  | d :: ds =>
      if (d =? 0)%Z && negb (match ds with [] => true | _ => false end)
      then None
      else
        let frac := match s2 with
                    | String "."%char r =>
                        let '(fd, r') := takeDigits r in
                        match fd with [] => None | _ => Some (fd, r') end
                    | _ => Some ([], s2)
                    end in
        match frac with
        | None => None
        | Some (fracDigits, s3) =>
            let expo :=
              match s3 with
              | EmptyString => Some 0%Z
              | String c r =>
                  if Ascii.eqb c "e" || Ascii.eqb c "E" then
                    let '(sign, r1) :=
                      match r with
                      | String "-"%char r' => ((-1)%Z, r')
                      | String "+"%char r' => (1%Z, r')
                      | _ => (1%Z, r)
                      end in
                    match takeDigits r1 with
                    | ((_ :: _) as eds, EmptyString) => Some (sign * digitsToZ eds)%Z
                    | _ => None
                    end
                  else None
              end in
            match expo with
            | None => None
            | Some x =>
                let mant := digitsToZ (intDigits ++ fracDigits) in
                let mant := if neg then (- mant)%Z else mant in
                let exponent := (x - Z.of_nat (List.length fracDigits))%Z in
                if (0 <=? exponent)%Z then Some ((mant * 10 ^ exponent)%Z, O)
                else Some (normalize mant (Z.to_nat (- exponent)))
            end
        end
  end.

(** A name or a number, read to its end. *)
Definition atomToken (s : string) : option Token :=
  if String.eqb s "true" then Some TTrue
  else if String.eqb s "false" then Some TFalse
  else if String.eqb s "null" then Some TNull
  else match parseNumber s with
       | Some (m, e) => Some (TNumber m e)
       | None => None
       end.

Definition isAtomChar (c : ascii) : bool :=
  let n := nat_of_ascii c in
  ((48 <=? n)%nat && (n <=? 57)%nat) || ((97 <=? n)%nat && (n <=? 122)%nat)
  || ((65 <=? n)%nat && (n <=? 90)%nat)
  || Ascii.eqb c "-" || Ascii.eqb c "+" || Ascii.eqb c ".".

Definition isJsonSpace (c : ascii) : bool :=
  let n := nat_of_ascii c in
  (n =? 32)%nat || (n =? 9)%nat || (n =? 10)%nat || (n =? 13)%nat.

(** The UTF-8 bytes of a code unit given by a [\u] escape, in reverse. *)
Definition utf8Rev (cp : nat) : string :=
  if (cp <? 128)%nat then String (ascii_of_nat cp) EmptyString
  else if (cp <? 2048)%nat then
    String (ascii_of_nat (128 + cp mod 64))
      (String (ascii_of_nat (192 + cp / 64)) EmptyString)
  else
    String (ascii_of_nat (128 + cp mod 64))
      (String (ascii_of_nat (128 + (cp / 64) mod 64))
         (String (ascii_of_nat (224 + cp / 4096)) EmptyString)).

Inductive LexState : Type :=
| LStart
| LAtom (acc : string)
| LString (acc : string)
| LEscape (acc : string)
| LUnicode (acc : string) (digits : nat) (value : nat).

Inductive StartAction : Type :=
| Skip | Punct (t : Token) | BeginString | BeginAtom | Bad.

Definition startAction (c : ascii) : StartAction :=
  if isJsonSpace c then Skip
  else if Ascii.eqb c "{" then Punct TLBrace
  else if Ascii.eqb c "}" then Punct TRBrace
  else if Ascii.eqb c "[" then Punct TLBracket
  else if Ascii.eqb c "]" then Punct TRBracket
  else if Ascii.eqb c ":" then Punct TColon
  else if Ascii.eqb c "," then Punct TComma
  else if Ascii.eqb c "034" then BeginString
  else if isAtomChar c then BeginAtom
  else Bad.

Definition escapeChar (c : ascii) : option ascii :=
  if Ascii.eqb c "034" then Some "034"%char
  else if Ascii.eqb c "\" then Some "\"%char
  else if Ascii.eqb c "/" then Some "/"%char
  else if Ascii.eqb c "b" then Some "008"%char
  else if Ascii.eqb c "f" then Some "012"%char
  else if Ascii.eqb c "n" then Some "010"%char
  else if Ascii.eqb c "r" then Some "013"%char
  else if Ascii.eqb c "t" then Some "009"%char
  else None.

(** The tokens of a text, by one pass over its characters; [out] and the
    accumulators are in reverse. *)
Fixpoint lex (st : LexState) (s : string) (out : list Token)
  : option (list Token) :=
  match s with
  | EmptyString =>
      match st with
      | LStart => Some (rev out)
      | LAtom acc =>
          match atomToken (String.rev acc) with
          | Some t => Some (rev (t :: out))
          | None => None
          end
      | _ => None
      end
  | String c rest =>
      match st with
      | LStart =>
          match startAction c with
          | Skip => lex LStart rest out
          | Punct t => lex LStart rest (t :: out)
          | BeginString => lex (LString EmptyString) rest out
          | BeginAtom => lex (LAtom (String c EmptyString)) rest out
          | Bad => None
          end
      | LAtom acc =>
          if isAtomChar c then lex (LAtom (String c acc)) rest out
          else
            match atomToken (String.rev acc) with
            | None => None
            | Some t =>
                match startAction c with
                | Skip => lex LStart rest (t :: out)
                | Punct t' => lex LStart rest (t' :: t :: out)
                | BeginString => lex (LString EmptyString) rest (t :: out)
                | BeginAtom | Bad => None
                end
            end
      | LString acc =>
          if Ascii.eqb c "034" then lex LStart rest (TString (String.rev acc) :: out)
          else if Ascii.eqb c "\" then lex (LEscape acc) rest out
          else if (nat_of_ascii c <? 32)%nat then None
          else lex (LString (String c acc)) rest out
      | LEscape acc =>
          if Ascii.eqb c "u" then lex (LUnicode acc 0 0) rest out
          else match escapeChar c with
               | Some x => lex (LString (String x acc)) rest out
               | None => None
               end
      | LUnicode acc digits value =>
          match hexVal c with
          | None => None
          | Some h =>
              let value' := 16 * value + h in
              if (digits =? 3)%nat
              then lex (LString (utf8Rev value' +:+ acc)) rest out
              else lex (LUnicode acc (S digits) value') rest out
          end
      end
  end.

(** *** The parser *)

Inductive Parse (A : Type) : Type :=
| POk (a : A)
| PSyntax
| PFuel.
Arguments POk {A} a.
Arguments PSyntax {A}.
Arguments PFuel {A}.

Fixpoint parseValue (fuel : nat) (ts : list Token) : Parse (JSON * list Token) :=
  match fuel with
  | O => PFuel
  | S f =>
      match ts with
      | TNull :: r => POk (JNull, r)
      | TTrue :: r => POk (JBool true, r)
      | TFalse :: r => POk (JBool false, r)
      | TNumber m e :: r => POk (JNum m e, r)
      | TString s :: r => POk (JStr s, r)
      | TLBracket :: TRBracket :: r => POk (JArr [], r)
      | TLBracket :: r => parseElems f r []
      | TLBrace :: TRBrace :: r => POk (JObj [], r)
      | TLBrace :: r => parseMembers f r []
      | _ => PSyntax
      end
  end
with parseElems (fuel : nat) (ts : list Token) (acc : list JSON)
  : Parse (JSON * list Token) :=
  match fuel with
  | O => PFuel
  | S f =>
      match parseValue f ts with
      | POk (v, TComma :: r) => parseElems f r (v :: acc)
      | POk (v, TRBracket :: r) => POk (JArr (rev (v :: acc)), r)
      | POk _ => PSyntax
      | PSyntax => PSyntax
      | PFuel => PFuel
      end
  end
with parseMembers (fuel : nat) (ts : list Token) (acc : JObject)
  : Parse (JSON * list Token) :=
  match fuel with
  | O => PFuel
  | S f =>
      match ts with
      | TString k :: TColon :: r =>
          match parseValue f r with
          | POk (v, TComma :: r') => parseMembers f r' (setField k v acc)
          | POk (v, TRBrace :: r') =>
              POk (JObj (orderKeys (setField k v acc)), r')
          | POk _ => PSyntax
          | PSyntax => PSyntax
          | PFuel => PFuel
          end
      | _ => PSyntax
      end
  end.

(** [JSON.parse(text)]: [None] when it throws [SyntaxError]. *)
Definition parse (text : string) : option JSON :=
  match lex LStart text [] with
  | None => None
  | Some ts =>
      match parseValue (2 * List.length ts + 1) ts with
      | POk (v, []) => Some v
      | _ => None
      end
  end.

(** *** The printer *)

Definition hexDigit (n : nat) : ascii :=
  ascii_of_nat (if (n <? 10)%nat then 48 + n else 87 + n).

Definition quoteChar (c : ascii) : string :=
  let n := nat_of_ascii c in
  if Ascii.eqb c "034" then String "\" (String "034" EmptyString)
  else if Ascii.eqb c "\" then "\\"
  else if (n =? 8)%nat then "\b"
  else if (n =? 9)%nat then "\t"
  else if (n =? 10)%nat then "\n"
  else if (n =? 12)%nat then "\f"
  else if (n =? 13)%nat then "\r"
  else if (n <? 32)%nat then
    "\u00" +:+ String (hexDigit (n / 16)) (String (hexDigit (n mod 16)) EmptyString)
  else String c EmptyString.

Fixpoint quoteBody (s : string) : string :=
  match s with
  | EmptyString => EmptyString
  | String c rest => quoteChar c +:+ quoteBody rest
  end.

Definition quote (s : string) : string := dquote +:+ quoteBody s +:+ dquote.

Fixpoint zeros (n : nat) : string :=
  match n with
  | O => EmptyString
  | S n' => String "0" (zeros n')
  end.

(** The digits of a number without the zeros at their end. *)
Fixpoint stripZeros (s : string) : string :=
  match s with
  | EmptyString => EmptyString
  | String c rest =>
      match stripZeros rest with
      | EmptyString => if Ascii.eqb c "0" then EmptyString
                       else String c EmptyString
      | kept => String c kept
      end
  end.

(** [Number::toString] for the number [m / 10^e]: with [k] significant
    digits and the decimal point after the [n]-th of them, the digits are
    written out when [-6 < n <= 21], and the exponent form is used
    otherwise. *)
Definition numberText (m : Z) (e : nat) : string :=
  if (m =? 0)%Z then "0"
  else
    let all := ofZ (Z.abs m) in
    let digits := stripZeros all in
    let k := Z.of_nat (String.length digits) in
    let n := (Z.of_nat (String.length all) - Z.of_nat e)%Z in
    (if (m <? 0)%Z then "-" else EmptyString)
    +:+ (if (k <=? n)%Z && (n <=? 21)%Z
         then digits +:+ zeros (Z.to_nat (n - k))
         else if (0 <? n)%Z && (n <=? 21)%Z
         then take (Z.to_nat n) digits +:+ "." +:+ drop (Z.to_nat n) digits
         else if (-6 <? n)%Z && (n <=? 0)%Z
         then "0." +:+ zeros (Z.to_nat (- n)) +:+ digits
         else
           let exponent := (if (0 <=? n - 1)%Z then "+" else "-")
                           +:+ ofZ (Z.abs (n - 1)) in
           match digits with
           | EmptyString => EmptyString
           | String d EmptyString => String d ("e" +:+ exponent)
           | String d rest => String d ("." +:+ rest +:+ "e" +:+ exponent)
           end).

Fixpoint stringify (v : JSON) : string :=
  match v with
  | JNull => "null"
  | JBool true => "true"
  | JBool false => "false"
  | JNum m e => numberText m e
  | JStr s => quote s
  | JArr items => "[" +:+ join "," (map stringify items) +:+ "]"
  | JObj fields =>
      "{" +:+ join ","
                (map (fun kv => quote (fst kv) +:+ ":" +:+ stringify (snd kv))
                   fields)
      +:+ "}"
  end.

End Json.

(** ** Provider-agnostic types (core/providers/types.ts) *)

Record TokenUsage : Type := mkUsage { inputTokens : Z; outputTokens : Z }.

(** ** The event bus (core/event-bus.ts) *)
Module EventBus.
Import Json.

(** [MothEvent]: the tagged union, one constructor per [type]. *)
Inductive MothEvent : Type :=
| user_input (message : string) (timestamp : Z)
| agent_thinking (timestamp : Z)
| agent_text (delta : string) (timestamp : Z)
| agent_text_done (fullText : string) (timestamp : Z)
| agent_tool_request (toolId toolName : string) (input : JObject) (timestamp : Z)
| agent_tool_result (toolId content : string) (isError : bool) (timestamp : Z)
| agent_turn_complete (usage : TokenUsage) (timestamp : Z)
| agent_error (error : JsError) (recoverable : bool) (timestamp : Z)
| tool_approval_required (toolId toolName : string) (input : JObject)
    (timestamp : Z)
| tool_approved (toolId : string) (timestamp : Z)
| tool_denied (toolId : string) (timestamp : Z)
| tool_executing (toolId toolName : string) (timestamp : Z)
| tool_complete (toolId content : string) (isError : bool) (durationMs : Z)
    (timestamp : Z)
| session_started (sessionId : string) (timestamp : Z)
| session_cleared (timestamp : Z)
| session_context_trimmed (removedMessages : nat) (timestamp : Z)
| system_error (error : JsError) (fatal : bool) (timestamp : Z)
| system_shutdown (reason : string) (timestamp : Z).

(** [event.type] *)
Definition eventType (e : MothEvent) : string :=
  match e with
  | user_input _ _ => "user:input"
  | agent_thinking _ => "agent:thinking"
  | agent_text _ _ => "agent:text"
  | agent_text_done _ _ => "agent:text:done"
  | agent_tool_request _ _ _ _ => "agent:tool_request"
  | agent_tool_result _ _ _ _ => "agent:tool_result"
  | agent_turn_complete _ _ => "agent:turn_complete"
  | agent_error _ _ _ => "agent:error"
  | tool_approval_required _ _ _ _ => "tool:approval_required"
  | tool_approved _ _ => "tool:approved"
  | tool_denied _ _ => "tool:denied"
  | tool_executing _ _ _ => "tool:executing"
  | tool_complete _ _ _ _ _ => "tool:complete"
  | session_started _ _ => "session:started"
  | session_cleared _ => "session:cleared"
  | session_context_trimmed _ _ => "session:context_trimmed"
  | system_error _ _ _ => "system:error"
  | system_shutdown _ _ => "system:shutdown"
  end.

(** A thrown value: an [Error] object, or anything else, of which only
    [String(err)] is used. *)
Inductive Thrown : Type :=
| ThrownError (e : JsError)
| ThrownOther (text : string).

(** [err instanceof Error ? err : new Error(String(err))] *)
Definition toError (t : Thrown) : JsError :=
  match t with
  | ThrownError e => e
  | ThrownOther text => mkError "Error" text
  end.

(** How one call of a handler ends.  A handler is opaque to the bus; the
    embedding covers handlers that do not call back into the bus. *)
Inductive Outcome : Type :=
| Returns
| Throws (err : Thrown)
| Resolves
| Rejects (err : Thrown).

(** A subscribed function: its identity and its behaviour. *)
Record Handler : Type := mkHandler {
  hid : nat;
  run : MothEvent -> Outcome
}.

(** The bus: [handlers] is the [Map] from event types to sets of handlers,
    both in insertion order; [rejected] holds the rejections whose [catch]
    callback has not run yet; [ticks] counts the readings of the clock. *)
Record Bus : Type := mkBus {
  handlers : list (string * list Handler);
  history : list MothEvent;
  rejected : list Thrown;
  ticks : nat
}.

Definition maxHistory : nat := 1000.

Definition empty : Bus := mkBus [] [] [] 0.

Fixpoint handlersFor (type : string) (m : list (string * list Handler))
  : list Handler :=
  match m with
  | [] => []
  | (t, hs) :: rest => if String.eqb t type then hs else handlersFor type rest
  end.

Definition hasHandler (h : Handler) (hs : list Handler) : bool :=
  existsb (fun h' => (hid h' =? hid h)%nat) hs.

Fixpoint addHandler (type : string) (h : Handler)
  (m : list (string * list Handler)) : list (string * list Handler) :=
  match m with
  | [] => [(type, [h])]
  | (t, hs) :: rest =>
      if String.eqb t type
      then (t, if hasHandler h hs then hs else hs ++ [h]) :: rest
      else (t, hs) :: addHandler type h rest
  end.

Fixpoint removeHandler (type : string) (id : nat)
  (m : list (string * list Handler)) : list (string * list Handler) :=
  match m with
  | [] => []
  | (t, hs) :: rest =>
      if String.eqb t type
      then (t, List.filter (fun h' => negb (hid h' =? id)%nat) hs) :: rest
      else (t, hs) :: removeHandler type id rest
  end.

(** [on(type, handler)] *)
Definition on (bus : Bus) (type : string) (h : Handler) : Bus :=
  mkBus (addHandler type h (handlers bus)) (history bus) (rejected bus)
    (ticks bus).

(** the function [on] returns *)
Definition unsubscribe (bus : Bus) (type : string) (h : Handler) : Bus :=
  mkBus (removeHandler type (hid h) (handlers bus)) (history bus)
    (rejected bus) (ticks bus).

(** [l.slice(-n)] *)
Definition keepLast {A : Type} (n : nat) (l : list A) : list A :=
  drop (List.length l - n) l.

(** the first statements of [emit] *)
Definition record (bus : Bus) (event : MothEvent) : Bus :=
  let h := history bus ++ [event] in
  mkBus (handlers bus)
    (if (maxHistory <? List.length h)%nat then keepLast maxHistory h else h)
    (rejected bus) (ticks bus).

Section Emit.
(** [Date.now()] at each reading of the clock *)
Variable now : nat -> Z.

(** the object built in the two [catch] clauses *)
Definition errorEvent (bus : Bus) (err : Thrown) : MothEvent * Bus :=
  (system_error (toError err) false (now (ticks bus)),
   mkBus (handlers bus) (history bus) (rejected bus) (S (ticks bus))).

(** The loop of [emit] over the handlers of the event; [emit'] is the
    nested call made in the [catch] clause. *)
Fixpoint deliver (emit' : Bus -> MothEvent -> option Bus) (event : MothEvent)
  (hs : list Handler) (b : Bus) : option Bus :=
  match hs with
  | [] => Some b
  | h :: hs' =>
      match run h event with
      | Returns | Resolves => deliver emit' event hs' b
      | Rejects err =>
          deliver emit' event hs'
            (mkBus (handlers b) (history b) (rejected b ++ [err]) (ticks b))
      | Throws err =>
          let '(ev, b1) := errorEvent b err in
          match emit' b1 ev with
          | None => None
          | Some b2 => deliver emit' event hs' b2
          end
      end
  end.

(** [emit(event)].  [fuel] bounds the nesting of the calls made in the
    [catch] clause; [None] says that the bound was reached. *)
Fixpoint emit (fuel : nat) (bus : Bus) (event : MothEvent) : option Bus :=
  match fuel with
  | O => None
  | S fuel' =>
      let bus1 := record bus event in
      deliver (emit fuel') event
        (handlersFor (eventType event) (handlers bus1)) bus1
  end.

(** The [catch] callback of the oldest pending rejection runs. *)
Definition runRejection (fuel : nat) (bus : Bus) : option Bus :=
  match rejected bus with
  | [] => Some bus
  | err :: rest =>
      let '(ev, b1) :=
        errorEvent (mkBus (handlers bus) (history bus) rest (ticks bus)) err in
      emit fuel b1 ev
  end.

End Emit.

(** *** What the handlers of an event do, in subscription order *)

Fixpoint thrownBy (hs : list Handler) (event : MothEvent) : list Thrown :=
  match hs with
  | [] => []
  | h :: rest =>
      match run h event with
      | Throws e => e :: thrownBy rest event
      | _ => thrownBy rest event
      end
  end.

Fixpoint rejectedBy (hs : list Handler) (event : MothEvent) : list Thrown :=
  match hs with
  | [] => []
  | h :: rest =>
      match run h event with
      | Rejects e => e :: rejectedBy rest event
      | _ => rejectedBy rest event
      end
  end.

(** The [system:error] events built for a list of failures, the first one
    at clock reading [t]. *)
Fixpoint republished (now : nat -> Z) (t : nat) (errs : list Thrown)
  : list MothEvent :=
  match errs with
  | [] => []
  | err :: rest =>
      system_error (toError err) false (now t) :: republished now (S t) rest
  end.

(** No handler subscribed to [system:error] throws. *)
Definition quietOnErrors (bus : Bus) : Prop :=
  forall h e,
    In h (handlersFor "system:error" (handlers bus)) ->
    eventType e = "system:error" ->
    match run h e with Throws _ => False | _ => True end.

(** [getHistory(type)] *)
Definition getHistory (bus : Bus) (type : option string) : list MothEvent :=
  match type with
  | Some t => List.filter (fun e => String.eqb (eventType e) t) (history bus)
  | None => history bus
  end.

(** [clear()] *)
Definition clear (bus : Bus) : Bus := mkBus [] [] (rejected bus) (ticks bus).

End EventBus.

(** ** Provider-agnostic types, continued *)
Module Provider.
Import Json.

Inductive Role : Type := system | user | assistant | tool.

Inductive ContentBlock : Type :=
| text_block (text : string)
| tool_use (id name : string) (input : JObject)
| tool_result (toolCallId content : string) (isError : bool).

(** [string | ContentBlock[]] *)
Inductive Content : Type :=
| Text (s : string)
| Blocks (bs : list ContentBlock).

Record ChatMessage : Type := mkMessage {
  role : Role;
  content : Content;
  toolCallId : option string
}.

(** [ProviderEvent].  The interface declares [input] as an object; the
    type is a parameter here because an adapter hands over whatever
    [JSON.parse] gave it. *)
Inductive ProviderEvent (I : Type) : Type :=
| text_delta (text : string)
| tool_call_start (id name : string)
| tool_call_delta (id args : string)
| tool_call_end (id name : string) (input : I)
| done (usage : TokenUsage)
| error (e : JsError).
Arguments text_delta {I} text.
Arguments tool_call_start {I} id name.
Arguments tool_call_delta {I} id args.
Arguments tool_call_end {I} id name input.
Arguments done {I} usage.
Arguments error {I} e.

(** What iterating [streamChat(...)] gives: the events it yields and, when
    the generator throws after them, the value thrown. *)
Record Stream (I : Type) : Type := mkStream {
  events : list (ProviderEvent I);
  failure : option EventBus.Thrown
}.
Arguments mkStream {I} events failure.
Arguments events {I} s.
Arguments failure {I} s.

(** [ModelProvider]: the [n]-th call of [streamChat] with the history
    [messages]. *)
Record ModelProvider : Type := mkProvider {
  id : string;
  displayName : string;
  streamChat : nat -> list ChatMessage -> Stream JObject
}.

(** the object [JSON.stringify] sees for a content block *)
Definition blockToJSON (b : ContentBlock) : JSON :=
  match b with
  | text_block text => JObj [("type", JStr "text"); ("text", JStr text)]
  | tool_use id name input =>
      JObj [("type", JStr "tool_use"); ("id", JStr id); ("name", JStr name);
            ("input", JObj input)]
  | tool_result toolCallId content isError =>
      JObj [("type", JStr "tool_result"); ("toolCallId", JStr toolCallId);
            ("content", JStr content); ("isError", JBool isError)]
  end.

End Provider.

(** ** Tools, continued (tools/types.ts, tools/validator.ts) *)
Module Tools.
Import Json.

Record InputSchema : Type := mkSchema {
  properties : JObject;
  required : option (list string)
}.

(** How [tool.execute(input)] raced against the timer ends. *)
Inductive Execution : Type :=
| Resolved (r : ToolResult)
| Rejected (err : EventBus.Thrown)
| TimedOut.

(** [Tool]; [execute n input] is the [n]-th execution of a tool by the loop. *)
Record Tool : Type := mkTool {
  name : string;
  description : string;
  inputSchema : InputSchema;
  requiresConfirmation : option bool;
  execute : nat -> JObject -> Execution
}.

Record ValidationResult : Type := mkValidation {
  valid : bool;
  errors : list string
}.

Definition isNullish (o : option JSON) : bool :=
  match o with None | Some JNull => true | _ => false end.

(** [!(field in input) || input[field] === undefined || input[field] ===
    null]: a property of the input itself counts unless it is [null]; a
    name the input does not bear is still found when [Object.prototype]
    bears it, with a value that is not [null]. *)
Definition isMissing (field : string) (input : JObject) : bool :=
  match lookup field input with
  | Some value => isNullish (Some value)
  | None => negb (inherited field)
  end.

(** the first loop of [validateToolInput] *)
Definition missingFields (schema : InputSchema) (input : JObject)
  : list string :=
  match required schema with
  | None => []
  | Some fields =>
      flat_map (fun field =>
                  if isMissing field input
                  then ["Missing required field: " +:+ field] else [])
        fields
  end.

(** [propSchema.type] for a truthy [propSchema] *)
Definition declaredType (propSchema : JSON) : option JSON :=
  match propSchema with
  | JObj fields => lookup "type" fields
  | _ => None
  end.

Definition typeErrors (key : string) (value expectedType : JSON) : list string :=
  let actualType := typeOf value in
  let check (t : string) : list string :=
    match expectedType with
    | JStr e =>
        if String.eqb e t && negb (String.eqb actualType t)
        then ["Field '" +:+ key +:+ "' expected " +:+ t +:+ ", got " +:+ actualType]
        else []
    | _ => []
    end in
  check "string" ++ check "number" ++ check "boolean".

(** the second loop of [validateToolInput], over the properties of the
    input itself.  A [propSchema] found on [Object.prototype] has no [type]
    and checks nothing, as a key the schema does not list. *)
Definition typeMismatches (schema : InputSchema) (input : JObject)
  : list string :=
  flat_map (fun kv : string * JSON =>
              let '(key, value) := kv in
              match lookup key (properties schema) with
              | None => []
              | Some propSchema =>
                  if negb (truthy (Some propSchema)) then []
                  else
                    match declaredType propSchema with
                    | Some t =>
                        if truthy (Some t) && negb (isNullish (Some value))
                        then typeErrors key value t else []
                    | None => []
                    end
              end)
    input.

(** [validateToolInput(tool, input)] *)
Definition validateToolInput (tool : Tool) (input : JObject)
  : ValidationResult :=
  let errors := missingFields (inputSchema tool) input
                ++ typeMismatches (inputSchema tool) input in
  mkValidation (match errors with [] => true | _ => false end) errors.

End Tools.

(** ** The agent loop (core/agent-loop.ts)

    The loop is sequential: it suspends while the provider streams, while
    an approval is awaited and while a tool runs.  The embedding follows a
    call from one suspension to the next, the environment answering each
    of them; a call whose suspension is never answered has no outcome and
    is outside it. *)
Module AgentLoop.
Import Json EventBus Provider Tools JsString.

Inductive LoopState : Type :=
| idle
| calling_model
| processing_tools
| waiting_approval
| error.

Record AgentConfig : Type := mkConfig {
  maxTokens : Z;
  maxTurns : nat;
  toolTimeoutMs : Z;
  confirmDestructive : bool;
  contextWindowTokens : Z
}.

Definition DEFAULT_CONFIG : AgentConfig := mkConfig 8192 25 120000 true 180000.

Record PendingApproval : Type := mkPending {
  pa_toolId : string;
  pa_toolName : string;
  pa_input : JObject
}.

(** How an awaited approval is answered: a [tool:approved] or a
    [tool:denied] event for the pending tool call, or [cancel()]. *)
Inductive Decision : Type := Approved | Denied | Cancelled.

(** The environment of a loop: the clock and the answers to its approval
    requests, in order. *)
Record World : Type := mkWorld {
  now : nat -> Z;
  decision : nat -> Decision
}.

(** The mutable fields of an [AgentLoop], the events it has handed to
    [bus.emit], oldest first, and the counters that index the environment. *)
Record Loop : Type := mkLoop {
  history : list ChatMessage;
  state : LoopState;
  totalTokensIn : Z;
  totalTokensOut : Z;
  pendingApproval : option PendingApproval;
  emitted : list MothEvent;
  ticks : nat;
  modelCalls : nat;
  approvals : nat;
  toolRuns : nat
}.

(** [new AgentLoop(...)] *)
Definition initial : Loop := mkLoop [] idle 0 0 None [] 0 0 0 0.

(** *** A state monad over [Loop] *)

Definition M (A : Type) : Type := Loop -> A * Loop.

Definition ret {A : Type} (a : A) : M A := fun l => (a, l).

Definition bind {A B : Type} (m : M A) (k : A -> M B) : M B :=
  fun l => let '(a, l') := m l in k a l'.

Declare Scope loop_scope.
Delimit Scope loop_scope with loop.
Notation "x <- m ;; k" := (bind m (fun x => k))
  (at level 100, m at next level, right associativity) : loop_scope.
Notation "m ;;; k" := (bind m (fun _ => k))
  (at level 100, right associativity) : loop_scope.
Local Open Scope loop_scope.

Definition get {A : Type} (f : Loop -> A) : M A := fun l => (f l, l).

Definition setState (s : LoopState) : M unit :=
  fun l => (tt, mkLoop (history l) s (totalTokensIn l) (totalTokensOut l)
                  (pendingApproval l) (emitted l) (ticks l) (modelCalls l)
                  (approvals l) (toolRuns l)).

Definition setHistory (h : list ChatMessage) : M unit :=
  fun l => (tt, mkLoop h (state l) (totalTokensIn l) (totalTokensOut l)
                  (pendingApproval l) (emitted l) (ticks l) (modelCalls l)
                  (approvals l) (toolRuns l)).

(** [this.history.push(msg)] *)
Definition pushHistory (msg : ChatMessage) : M unit :=
  fun l => setHistory (history l ++ [msg]) l.

Definition setPending (p : option PendingApproval) : M unit :=
  fun l => (tt, mkLoop (history l) (state l) (totalTokensIn l)
                  (totalTokensOut l) p (emitted l) (ticks l) (modelCalls l)
                  (approvals l) (toolRuns l)).

Definition addUsage (u : TokenUsage) : M unit :=
  fun l => (tt, mkLoop (history l) (state l)
                  (totalTokensIn l + inputTokens u)
                  (totalTokensOut l + outputTokens u)
                  (pendingApproval l) (emitted l) (ticks l) (modelCalls l)
                  (approvals l) (toolRuns l)).

(** [bus.emit(event)] *)
Definition emit (event : MothEvent) : M unit :=
  fun l => (tt, mkLoop (history l) (state l) (totalTokensIn l)
                  (totalTokensOut l) (pendingApproval l)
                  (emitted l ++ [event]) (ticks l) (modelCalls l)
                  (approvals l) (toolRuns l)).

Definition nextModelCall : M nat :=
  fun l => (modelCalls l,
            mkLoop (history l) (state l) (totalTokensIn l) (totalTokensOut l)
              (pendingApproval l) (emitted l) (ticks l) (S (modelCalls l))
              (approvals l) (toolRuns l)).

Definition nextApproval : M nat :=
  fun l => (approvals l,
            mkLoop (history l) (state l) (totalTokensIn l) (totalTokensOut l)
              (pendingApproval l) (emitted l) (ticks l) (modelCalls l)
              (S (approvals l)) (toolRuns l)).

Definition nextToolRun : M nat :=
  fun l => (toolRuns l,
            mkLoop (history l) (state l) (totalTokensIn l) (totalTokensOut l)
              (pendingApproval l) (emitted l) (ticks l) (modelCalls l)
              (approvals l) (S (toolRuns l))).

Fixpoint mapM {A B : Type} (f : A -> M B) (xs : list A) : M (list B) :=
  match xs with
  | [] => ret []
  | x :: rest => y <- f x ;; ys <- mapM f rest ;; ret (y :: ys)
  end.

Section Loop.
Variable w : World.
Variable provider : ModelProvider.
Variable tools : list Tool.
Variable config : AgentConfig.

(** [Date.now()] *)
Definition dateNow : M Z :=
  fun l => (now w (ticks l),
            mkLoop (history l) (state l) (totalTokensIn l) (totalTokensOut l)
              (pendingApproval l) (emitted l) (S (ticks l)) (modelCalls l)
              (approvals l) (toolRuns l)).

(** [this.toolMap]: filled by the constructor, a later tool of the same
    name replacing an earlier one. *)
Definition toolMap : gmap string Tool :=
  fold_left (fun m t => <[Tools.name t := t]> m) tools ∅.

(** *** [trimContextIfNeeded] *)

(** [Math.ceil(n / 4)] *)
Definition ceilDiv4 (n : nat) : Z := (Z.of_nat n + 3) / 4.

Definition estimateTokens (msg : ChatMessage) : Z :=
  match content msg with
  | Text s => ceilDiv4 (String.length s)
  | Blocks bs =>
      ceilDiv4 (String.length (stringify (JArr (map blockToJSON bs))))
  end.

Definition totalEstimate (h : list ChatMessage) : Z :=
  fold_left (fun sum msg => sum + estimateTokens msg)%Z h 0%Z.

(** [totalTokens > budget * 0.8].  The source multiplies in floating point;
    for the integer budgets of a configuration the comparison with an
    integer total has the outcome of the exact one, which is what is
    written here. *)
Definition overTarget (totalTokens budget : Z) : bool :=
  (4 * budget <? 5 * totalTokens)%Z.

(** The loop
[[
      while (this.history.length > 2 && totalTokens > budget * 0.8) {
        const removedMsg = this.history.splice(1, 1)[0]!;
        totalTokens -= estimateTokens(removedMsg);
        removed++;
      }
]]
    on the messages that follow the first one.  The first message is never
    displaced, so the re-insertion that follows the loop in the source
    does nothing. *)
Fixpoint trimLoop (rest : list ChatMessage) (totalTokens : Z) (removed : nat)
  : list ChatMessage * Z * nat :=
  match rest with
  | msg :: ((_ :: _) as rest') =>
      if overTarget totalTokens (contextWindowTokens config)
      then trimLoop rest' (totalTokens - estimateTokens msg) (S removed)
      else (rest, totalTokens, removed)
  | _ => (rest, totalTokens, removed)
  end.

Definition trimContextIfNeeded : M unit :=
  h <- get history ;;
  let totalTokens := totalEstimate h in
  if (totalTokens <=? contextWindowTokens config)%Z then ret tt
  else
    match h with
    | [] => ret tt
    | first :: rest =>
        let '(rest', _, removed) := trimLoop rest totalTokens 0 in
        setHistory (first :: rest') ;;;
        match removed with
        | O => ret tt
        | _ => t <- dateNow ;; emit (session_context_trimmed removed t)
        end
    end.

(** *** [requestApproval] and [executeTool] *)

(** [requestApproval], up to the moment its promise is settled. *)
Definition requestApproval (toolId toolName : string) (input : JObject)
  : M bool :=
  setState waiting_approval ;;;
  t <- dateNow ;;
  emit (tool_approval_required toolId toolName input t) ;;;
  setPending (Some (mkPending toolId toolName input)) ;;;
  n <- nextApproval ;;
  match decision w n with
  | Approved => ret true
  | Denied => ret false
  | Cancelled => setPending None ;;; setState idle ;;; ret false
  end.

Definition complete (toolId : string) (result : ToolResult) (durationMs : Z)
  : M ToolResult :=
  t <- dateNow ;;
  emit (tool_complete toolId (ToolTypes.content result) (isErrorOrFalse result)
          durationMs t) ;;;
  ret result.

Definition thrownMessage (err : Thrown) : string :=
  match err with
  | ThrownError e => err_message e
  | ThrownOther text => text
  end.

(** [executeTool(toolId, toolName, input)], for an [input] of its declared
    type, an object. *)
Definition executeTool (toolId toolName : string) (input : JObject)
  : M ToolResult :=
  match toolMap !! toolName with
  | None => complete toolId (mkResult ("Unknown tool: " +:+ toolName) (Some true)) 0
  | Some tl =>
      let validation := validateToolInput tl input in
      if negb (valid validation) then
        complete toolId
          (mkResult ("Invalid input for " +:+ toolName +:+ ": "
                     +:+ join ", " (errors validation)) (Some true)) 0
      else
        approved <-
          (if match requiresConfirmation tl with Some b => b | None => false end
              && confirmDestructive config
           then requestApproval toolId toolName input
           else ret true) ;;
        if negb approved then
          complete toolId (mkResult "Tool execution denied by user." (Some true)) 0
        else
          t <- dateNow ;;
          emit (tool_executing toolId toolName t) ;;;
          startTime <- dateNow ;;
          n <- nextToolRun ;;
          let failed (msg : string) : M ToolResult :=
            finish <- dateNow ;;
            complete toolId (mkResult ("Tool error: " +:+ msg) (Some true))
              (finish - startTime) in
          match execute tl n input with
          | Resolved result =>
              finish <- dateNow ;;
              complete toolId result (finish - startTime)
          | Rejected err => failed (thrownMessage err)
          | TimedOut =>
              failed ("Tool " +:+ toolName +:+ " timed out after "
                      +:+ ofZ (toolTimeoutMs config) +:+ "ms")
          end
  end.

(** *** [callModel] *)

(** The accumulators of the [for await] loop. *)
Record Turn : Type := mkTurn {
  textAccumulator : string;
  toolCalls : list (string * string * JObject);
  usage : TokenUsage
}.

(** The loop over the events of the stream: the accumulators at its end, or
    the value thrown on the way. *)
Fixpoint consume (evs : list (ProviderEvent JObject)) (acc : Turn)
  : M (result Thrown Turn) :=
  match evs with
  | [] => ret (Ok acc)
  | ev :: rest =>
      match ev with
      | text_delta text =>
          t <- dateNow ;;
          emit (agent_text text t) ;;;
          consume rest (mkTurn (textAccumulator acc +:+ text) (toolCalls acc)
                          (usage acc))
      | tool_call_end id name input =>
          t <- dateNow ;;
          emit (agent_tool_request id name input t) ;;;
          consume rest (mkTurn (textAccumulator acc)
                          (toolCalls acc ++ [(id, name, input)]) (usage acc))
      | done u =>
          consume rest (mkTurn (textAccumulator acc) (toolCalls acc) u)
      | Provider.error e => ret (Err (ThrownError e))
      | tool_call_start _ _ | tool_call_delta _ _ => consume rest acc
      end
  end.

Definition classify (err : Thrown) : JsError * bool :=
  let original := toError err in
  let msg := toLowerCase (err_message original) in
  let isRateLimit := includes msg "rate" || includes msg "429"
                     || includes msg "too many" in
  let isAuthError := includes msg "authentication" || includes msg "401"
                     || (includes msg "invalid" && includes msg "key") in
  (if isRateLimit then mkError "Error" "Rate limited. Wait a moment and try again."
   else if isAuthError
        then mkError "Error"
               "API key is invalid or expired. Check your key and try again."
        else original,
   negb isAuthError).

Definition isAbort (err : Thrown) : bool :=
  match err with
  | ThrownError e => String.eqb (err_name e) "AbortError"
  | ThrownOther _ => false
  end.

(** [callModel]: the content blocks of the answer, [None] for [null]. *)
Definition callModel : M (option (list ContentBlock)) :=
  setState calling_model ;;;
  t <- dateNow ;;
  emit (agent_thinking t) ;;;
  n <- nextModelCall ;;
  h <- get history ;;
  let stream := streamChat provider n h in
  r <- consume (events stream) (mkTurn EmptyString [] (mkUsage 0 0)) ;;
  let outcome :=
    match r, failure stream with
    | Err thrown, _ => Err thrown
    | Ok _, Some thrown => Err thrown
    | Ok acc, None => Ok acc
    end in
  match outcome with
  | Ok acc =>
      (if is_empty (textAccumulator acc) then ret tt
       else t <- dateNow ;; emit (agent_text_done (textAccumulator acc) t)) ;;;
      addUsage (usage acc) ;;;
      t <- dateNow ;;
      emit (agent_turn_complete (usage acc) t) ;;;
      let contentBlocks :=
        (if is_empty (textAccumulator acc) then []
         else [text_block (textAccumulator acc)])
        ++ map (fun tc : string * string * JObject =>
                  let '(id, name, input) := tc in tool_use id name input)
             (toolCalls acc) in
      pushHistory (mkMessage assistant (Blocks contentBlocks) None) ;;;
      ret (Some contentBlocks)
  | Err thrown =>
      if isAbort thrown then
        t <- dateNow ;;
        emit (agent_error (mkError "Error" "Request cancelled.") true t) ;;;
        setState idle ;;;
        ret None
      else
        let '(shown, recoverable) := classify thrown in
        t <- dateNow ;;
        emit (agent_error shown recoverable t) ;;;
        setState error ;;;
        ret None
  end.

(** *** [processMessage] *)

Definition toolUsesOf (blocks : list ContentBlock)
  : list (string * string * JObject) :=
  flat_map (fun b => match b with
                     | tool_use id name input => [(id, name, input)]
                     | _ => []
                     end) blocks.

Definition runToolUse (toolUse : string * string * JObject) : M ContentBlock :=
  let '(id, name, input) := toolUse in
  result <- executeTool id name input ;;
  ret (tool_result id (ToolTypes.content result) (isErrorOrFalse result)).

(** The [while (turnsRemaining > 0)] loop; the answer is [turnsRemaining]
    when the loop is left. *)
Fixpoint turns (turnsRemaining : nat) : M nat :=
  match turnsRemaining with
  | O => ret O
  | S n =>
      responseBlocks <- callModel ;;
      match responseBlocks with
      | None => ret n
      | Some blocks =>
          match toolUsesOf blocks with
          | [] => setState idle ;;; ret n
          | toolUses =>
              setState processing_tools ;;;
              toolResultBlocks <- mapM runToolUse toolUses ;;
              pushHistory (mkMessage user (Blocks toolResultBlocks) None) ;;;
              turns n
          end
      end
  end.

Definition busyError : JsError :=
  mkError "Error" "Agent is busy. Wait for current turn to complete.".

Definition maxTurnsError : JsError :=
  mkError "Error"
    ("Hit maximum turns (" +:+ ofNat (maxTurns config)
     +:+ "). Stopping to prevent infinite loop.").

Definition processMessage (userMessage : string) : M unit :=
  s <- get state ;;
  match s with
  | idle =>
      pushHistory (mkMessage user (Text userMessage) None) ;;;
      trimContextIfNeeded ;;;
      turnsRemaining <- turns (maxTurns config) ;;
      match turnsRemaining with
      | O => t <- dateNow ;; emit (agent_error maxTurnsError true t)
      | _ => ret tt
      end ;;;
      setState idle
  | _ => t <- dateNow ;; emit (agent_error busyError true t)
  end.

(** [cancel()]; the abort of the network call is not part of the state. *)
Definition cancel : M unit := setPending None ;;; setState idle.

(** [clearHistory()] *)
Definition clearHistory : M unit :=
  (fun l => (tt, mkLoop [] idle 0 0 (pendingApproval l) (emitted l) (ticks l)
                   (modelCalls l) (approvals l) (toolRuns l))) ;;;
  t <- dateNow ;;
  emit (session_cleared t).

End Loop.

(** *** Reading a history *)

Definition isAssistant (m : ChatMessage) : bool :=
  match role m with assistant => true | _ => false end.

(** a [user] message whose content is a non-empty list of [tool_result]
    blocks *)
Definition isToolResults (m : ChatMessage) : bool :=
  match role m, content m with
  | user, Blocks ((_ :: _) as bs) =>
      forallb (fun b => match b with tool_result _ _ _ => true | _ => false end) bs
  | _, _ => false
  end.

Definition isAgentError (e : MothEvent) : bool :=
  match e with agent_error _ _ _ => true | _ => false end.

Definition isToolComplete (e : MothEvent) : bool :=
  match e with tool_complete _ _ _ _ _ => true | _ => false end.

(** A streamed turn with exactly one tool call and no text. *)
Definition oneToolCallNoText (s : Stream JObject) : Prop :=
  failure s = None
  /\ (exists before id name input after,
         events s = before ++ tool_call_end id name input :: after
         /\ Forall (fun ev => match ev with
                              | tool_call_start _ _ | tool_call_delta _ _
                              | done _ => True
                              | _ => False
                              end) (before ++ after)).

End AgentLoop.

(** ** The OpenAI-compatible adapter (core/providers/openai-compatible.ts)

    The part of [streamChat] that reads the response.  The wire format
    declares the text fields of a delta ([content], [id], [name],
    [arguments]) as strings and the token counts as integers; a payload
    that carries another truthy value there ends the embedded run as
    [OffProtocol], since the events built from it would not inhabit
    [ProviderEvent]. *)
Module OpenAICompatible.
Import Json JsString Provider.

(** An entry of [pendingToolCalls]. *)
Record Pending : Type := mkPending {
  p_id : string;
  p_name : string;
  p_args : string
}.

(** Equality of [Map] keys: by value on primitives, by identity on objects
    and arrays, which are fresh for every payload. *)
Definition sameKey (a b : JSON) : bool :=
  match a, b with
  | JNum m e, JNum m' e' => (m =? m')%Z && (e =? e')%nat
  | JStr s, JStr s' => String.eqb s s'
  | JBool x, JBool y => Bool.eqb x y
  | _, _ => false
  end.

(** [Map<number, ...>], in insertion order *)
Abbreviation Table := (list (JSON * Pending)).

Fixpoint tableGet (k : JSON) (m : Table) : option Pending :=
  match m with
  | [] => None
  | (k', v) :: rest => if sameKey k k' then Some v else tableGet k rest
  end.

(** [m.set(k, v)]: an existing key keeps its place. *)
Fixpoint tableSet (k : JSON) (v : Pending) (m : Table) : Table :=
  match m with
  | [] => [(k, v)]
  | (k', v') :: rest =>
      if sameKey k k' then (k', v) :: rest else (k', v') :: tableSet k v rest
  end.

(** The local variables of [streamChat]. *)
Record State : Type := mkState {
  buffer : string;
  inputTokens : Z;
  outputTokens : Z;
  pendingToolCalls : Table
}.

Definition start : State := mkState EmptyString 0 0 [].

Abbreviation Event := (ProviderEvent JSON).

(** *** A monad for the generator: state, the events yielded, and how the
    computation ends *)

Inductive Out (A : Type) : Type :=
| Val (a : A)
| Throws (e : JsError)
| OffProtocol.
Arguments Val {A} a.
Arguments Throws {A} e.
Arguments OffProtocol {A}.

Definition G (A : Type) : Type := State -> State * list Event * Out A.

Definition ret {A : Type} (a : A) : G A := fun s => (s, [], Val a).

Definition bind {A B : Type} (m : G A) (k : A -> G B) : G B :=
  fun s =>
    let '(s1, ev1, o) := m s in
    match o with
    | Val a => let '(s2, ev2, o2) := k a s1 in (s2, ev1 ++ ev2, o2)
    | Throws e => (s1, ev1, Throws e)
    | OffProtocol => (s1, ev1, OffProtocol)
    end.

Declare Scope sse_scope.
Delimit Scope sse_scope with sse.
Notation "x <- m ;; k" := (bind m (fun x => k))
  (at level 100, m at next level, right associativity) : sse_scope.
Notation "m ;;; k" := (bind m (fun _ => k))
  (at level 100, right associativity) : sse_scope.
Local Open Scope sse_scope.

Definition yield (ev : Event) : G unit := fun s => (s, [ev], Val tt).
Definition throw {A : Type} (e : JsError) : G A := fun s => (s, [], Throws e).
Definition off {A : Type} : G A := fun s => (s, [], OffProtocol).
Definition get : G State := fun s => (s, [], Val s).
Definition put (s : State) : G unit := fun _ => (s, [], Val tt).

Fixpoint forEach {A : Type} (f : A -> G unit) (xs : list A) : G unit :=
  match xs with
  | [] => ret tt
  | x :: rest => f x ;;; forEach f rest
  end.

(** *** Reading an untyped payload *)

Definition TypeError (message : string) : JsError :=
  mkError "TypeError" message.

(** [v.k]; reading a property of [null] throws. *)
Definition prop (v : JSON) (k : string) : G (option JSON) :=
  match v with
  | JNull =>
      throw (TypeError ("Cannot read properties of null (reading '" +:+ k +:+ "')"))
  | JObj fields => ret (lookup k fields)
  | _ => ret None
  end.

(** [o?.k] *)
Definition optProp (o : option JSON) (k : string) : G (option JSON) :=
  match o with
  | None | Some JNull => ret None
  | Some v => prop v k
  end.

(** [v[0]] *)
Definition index0 (v : JSON) : option JSON :=
  match v with
  | JArr (x :: _) => Some x
  | JObj fields => lookup "0" fields
  | JStr (String c _) => Some (JStr (String c EmptyString))
  | _ => None
  end.

(** A slot the protocol declares as a string: [None] when it is falsy. *)
Definition text (o : option JSON) : G (option string) :=
  if truthy o then
    match o with
    | Some (JStr s) => ret (Some s)
    | _ => off
    end
  else ret None.

(** [a || b || 0] for token counts *)
Definition count (a b : option JSON) : G Z :=
  let pick := if truthy a then a else if truthy b then b else Some (JInt 0) in
  match pick with
  | Some (JNum m O) => ret m
  | _ => off
  end.

Definition orEmpty (o : option string) : string :=
  match o with Some s => s | None => EmptyString end.

Definition setTable (t : Table) : G unit :=
  fun s => (mkState (buffer s) (inputTokens s) (outputTokens s) t, [], Val tt).

(** The body of [for (const tc of delta.tool_calls)]. *)
Definition onToolCall (tc : JSON) : G unit :=
  i <- prop tc "index" ;;
  let index := match i with None | Some JNull => JInt 0 | Some v => v end in
  idv <- prop tc "id" ;;
  id <- text idv ;;
  match id with
  | Some id =>
      fn <- prop tc "function" ;;
      nv <- optProp fn "name" ;;
      name <- text nv ;;
      av <- optProp fn "arguments" ;;
      args <- text av ;;
      s <- get ;;
      setTable (tableSet index (mkPending id (orEmpty name) (orEmpty args))
                  (pendingToolCalls s)) ;;;
      match name with
      | Some n => yield (tool_call_start id n)
      | None => ret tt
      end
  | None =>
      s <- get ;;
      match tableGet index (pendingToolCalls s) with
      | None => ret tt
      | Some pending =>
          fn <- prop tc "function" ;;
          nv <- optProp fn "name" ;;
          name <- text nv ;;
          let pending1 :=
            match name with
            | Some n => mkPending (p_id pending) n (p_args pending)
            | None => pending
            end in
          setTable (tableSet index pending1 (pendingToolCalls s)) ;;;
          av <- optProp fn "arguments" ;;
          args <- text av ;;
          match args with
          | Some a =>
              s' <- get ;;
              setTable (tableSet index
                          (mkPending (p_id pending1) (p_name pending1)
                             (p_args pending1 +:+ a))
                          (pendingToolCalls s')) ;;;
              yield (tool_call_delta (p_id pending1) a)
          | None => ret tt
          end
      end
  end.

(** [JSON.parse(tc.args)] with the empty object for a text that does not
    parse. *)
Definition parseArgs (args : string) : JSON :=
  match parse args with
  | Some v => v
  | None => JObj []
  end.

Definition endEvent (entry : JSON * Pending) : Event :=
  tool_call_end (p_id (snd entry)) (p_name (snd entry))
    (parseArgs (p_args (snd entry))).

(** What follows [JSON.parse(jsonStr)] for one line. *)
Definition onPayload (parsed : JSON) : G unit :=
  u <- prop parsed "usage" ;;
  (if truthy u then
     match u with
     | Some usage =>
         pt <- prop usage "prompt_tokens" ;;
         it <- prop usage "input_tokens" ;;
         i <- count pt it ;;
         ct <- prop usage "completion_tokens" ;;
         ot <- prop usage "output_tokens" ;;
         o <- count ct ot ;;
         fun s => (mkState (buffer s) i o (pendingToolCalls s), [], Val tt)
     | None => ret tt
     end
   else ret tt) ;;;
  cs <- prop parsed "choices" ;;
  let choice := match cs with
                | None | Some JNull => None
                | Some v => index0 v
                end in
  if negb (truthy choice) then ret tt
  else
    match choice with
    | None => ret tt
    | Some choice =>
        d <- prop choice "delta" ;;
        if negb (truthy d) then ret tt
        else
          match d with
          | None => ret tt
          | Some delta =>
              cv <- prop delta "content" ;;
              c <- text cv ;;
              match c with
              | Some t => yield (text_delta t)
              | None => ret tt
              end ;;;
              tcs <- prop delta "tool_calls" ;;
              (if truthy tcs then
                 match tcs with
                 | Some (JArr items) => forEach onToolCall items
                 | Some (JStr _) => ret tt
                 | _ => throw (TypeError "delta.tool_calls is not iterable")
                 end
               else ret tt) ;;;
              fr <- prop choice "finish_reason" ;;
              if truthy fr then
                s <- get ;;
                forEach (fun entry => yield (endEvent entry))
                  (pendingToolCalls s)
              else ret tt
          end
    end.

(** The body of [for (const line of lines)]. *)
Definition onLine (line : string) : G unit :=
  let trimmed := trim line in
  if is_empty trimmed || String.eqb trimmed "data: [DONE]" then ret tt
  else if negb (startsWith trimmed "data: ") then ret tt
  else
    match parse (drop 6 trimmed) with
    | None => ret tt
    | Some parsed => onPayload parsed
    end.

(** [lines.pop()]: the lines before the last one, and the last one. *)
Fixpoint unsnoc (lines : list string) : list string * string :=
  match lines with
  | [] => ([], EmptyString)
  | [x] => ([], x)
  | x :: rest => let '(init, l) := unsnoc rest in (x :: init, l)
  end.

(** One round of the reading loop, for the decoded text [value]. *)
Definition onChunk (value : string) : G unit :=
  s <- get ;;
  let '(lines, rest) := unsnoc (split "010"%char (buffer s +:+ value)) in
  put (mkState rest (inputTokens s) (outputTokens s) (pendingToolCalls s)) ;;;
  forEach onLine lines.

(** The response of [fetch]: its status, the text of an error answer
    ([None] when reading it fails), and the decoded chunks of its body with
    the value a read rejects with, if one does. *)
Record Response : Type := mkResponse {
  ok : bool;
  status : Z;
  errorText : option string;
  body : option (list string * option EventBus.Thrown)
}.

(** How iterating the generator ends. *)
Inductive Ending : Type :=
| Finished
| Threw (err : EventBus.Thrown)
| LeftProtocol.

(** [streamChat(params)], from the response on: the events yielded, in
    order, and how the generator ends. *)
Definition streamChat (displayName : string) (response : Response)
  : list Event * Ending :=
  if negb (ok response) then
    ([error (mkError "Error"
               (displayName +:+ " API error " +:+ ofZ (status response)
                +:+ ": " +:+ match errorText response with
                             | Some t => t
                             | None => "Unknown error"
                             end))],
     Finished)
  else
    match body response with
    | None => ([error (mkError "Error" "No response body")], Finished)
    | Some (chunks, readFailure) =>
        let '(s, evs, o) := forEach onChunk chunks start in
        match o with
        | Throws e => (evs, Threw (EventBus.ThrownError e))
        | OffProtocol => (evs, LeftProtocol)
        | Val _ =>
            match readFailure with
            | Some err => (evs, Threw err)
            | None =>
                (evs ++ [done (mkUsage (inputTokens s) (outputTokens s))],
                 Finished)
            end
        end
    end.

(** *** Payloads of a tool call, as the protocol sends them *)








End OpenAICompatible.

(** ** Concrete inputs used by the examples below *)
Module Scenario.

(** A project holding one file. *)
Definition oneFile (p data : string) : Fs.World :=
  Fs.mkWorld {[ p := data ]} false None None false.

Definition editWorld : Fs.World := oneFile "/proj/notes.txt" "hello world".


Definition overlapWorld : Fs.World := oneFile "/proj/a.txt" "aaa".

(** A handler that throws whatever it is called with, a handler whose
    promise rejects, and one that only takes note. *)
Definition thrower (id : nat) : EventBus.Handler :=
  EventBus.mkHandler id (fun _ => EventBus.Throws (EventBus.ThrownOther "boom")).

Definition rejecter (id : nat) : EventBus.Handler :=
  EventBus.mkHandler id
    (fun _ => EventBus.Rejects (EventBus.ThrownError (mkError "Error" "late"))).

Definition logger (id : nat) : EventBus.Handler :=
  EventBus.mkHandler id (fun _ => EventBus.Returns).

(** [agent:text] has a throwing subscriber and a rejecting one; errors are
    only logged; one earlier rejection is still pending. *)
Definition loggedBus : EventBus.Bus :=
  EventBus.on
    (EventBus.on
       (EventBus.on
          (EventBus.mkBus [] [] [EventBus.ThrownOther "earlier"] 0)
          "agent:text" (thrower 1))
       "agent:text" (rejecter 2))
    "system:error" (logger 3).

(** The subscriber of [system:error] throws as well. *)
Definition stormBus : EventBus.Bus :=
  EventBus.on (EventBus.on EventBus.empty "agent:text" (thrower 1))
    "system:error" (thrower 2).

Definition clock0 : nat -> Z := fun n => (1000 + Z.of_nat n)%Z.

(** *** An agent whose model always asks for a tool *)

Definition echoTool : Tools.Tool :=
  Tools.mkTool "echo" "Answers its input."
    (Tools.mkSchema [("text", Json.JObj [("type", Json.JStr "string")])]
       (Some ["text"]))
    None
    (fun _ _ => Tools.Resolved (mkResult "ok" None)).

(** A tool that asks for confirmation and never answers in time. *)
Definition slowTool : Tools.Tool :=
  Tools.mkTool "slow" "Takes too long." (Tools.mkSchema [] None) (Some true)
    (fun _ _ => Tools.TimedOut).

Definition alwaysTool : Provider.ModelProvider :=
  Provider.mkProvider "custom" "Scripted"
    (fun n _ =>
       Provider.mkStream
         [Provider.tool_call_start "call" "echo";
          Provider.tool_call_end "call" "echo" [("text", Json.JStr "hi")];
          Provider.done (mkUsage 10 2)]
         None).

Definition world0 : AgentLoop.World :=
  AgentLoop.mkWorld clock0 (fun _ => AgentLoop.Approved).

Definition denyingWorld : AgentLoop.World :=
  AgentLoop.mkWorld clock0 (fun _ => AgentLoop.Denied).

Definition twoTurns : AgentLoop.AgentConfig :=
  AgentLoop.mkConfig 8192 2 120000 true 180000.

(** *** A history over a small budget *)

Definition textMessage (r : Provider.Role) (s : string) : Provider.ChatMessage :=
  Provider.mkMessage r (Provider.Text s) None.

(** Forty characters, then two short messages: 10 + 1 + 1 tokens. *)
Definition heavyAnchor : list Provider.ChatMessage :=
  [textMessage Provider.user "0123456789012345678901234567890123456789";
   textMessage Provider.assistant "ok";
   textMessage Provider.user "next"].

Definition smallBudget : AgentLoop.AgentConfig :=
  AgentLoop.mkConfig 8192 25 120000 true 5.

Definition loopWith (h : list Provider.ChatMessage) : AgentLoop.Loop :=
  AgentLoop.mkLoop h AgentLoop.idle 0 0 None [] 0 0 0 0.

(** *** A streamed tool call *)

(** A text in which the apostrophe stands for the double quote. *)
Fixpoint dq (s : string) : string :=
  match s with
  | EmptyString => EmptyString
  | String c rest =>
      String (if Ascii.eqb c "'" then "034"%char else c) (dq rest)
  end.

Definition nl : string := String "010"%char EmptyString.




End Scenario.
(** *** An agent whose model answers in words, and one whose provider fails *)
Module Scenario2.

Definition talker : Provider.ModelProvider :=
  Provider.mkProvider "custom" "Talker"
    (fun _ _ =>
       Provider.mkStream
         [Provider.text_delta "Hel"; Provider.text_delta "lo";
          Provider.done (mkUsage 7 2)]
         None).

Definition limited : Provider.ModelProvider :=
  Provider.mkProvider "custom" "Limited"
    (fun _ _ =>
       Provider.mkStream
         [Provider.text_delta "Hm";
          Provider.error (mkError "Error" "Limited API error 429: Too Many Requests")]
         None).

Definition oneTurn : AgentLoop.AgentConfig :=
  AgentLoop.mkConfig 8192 1 120000 true 180000.

End Scenario2.
(** ** The OpenAI-compatible adapter, continued: building the request *)
Module OpenAIRequest.
Import Json JsString Provider.

(** [s.replace(/\/+$/, '')]: the slashes at the end of [s] are removed. *)
Fixpoint stripTrailingSlashes (s : string) : string :=
  match s with
  | EmptyString => EmptyString
  | String c rest =>
      match stripTrailingSlashes rest with
      | EmptyString =>
          if Ascii.eqb c "/" then EmptyString else String c EmptyString
      | kept => String c kept
      end
  end.

(** The constructor keeps [config.baseUrl] without its trailing slashes;
    [streamChat] posts to this address. *)
Definition endpoint (baseUrl : string) : string :=
  stripTrailingSlashes baseUrl +:+ "/chat/completions".

(** An entry of [tool_calls]; its [type] is always [function]. *)
Record ToolCall : Type := mkToolCall {
  call_id : string;
  call_name : string;
  call_arguments : string
}.

(** [OpenAIMessage]: [None] stands for [null] in [wire_content] and for an
    absent field in [tool_calls] and [tool_call_id]. *)
Record OpenAIMessage : Type := mkOpenAIMessage {
  wire_role : Role;
  wire_content : option string;
  tool_calls : option (list ToolCall);
  tool_call_id : option string
}.

Definition plain (r : Role) (text : string) : OpenAIMessage :=
  mkOpenAIMessage r (Some text) None None.

(** a string that is defined and not empty *)
Definition given (o : option string) : bool :=
  match o with
  | Some s => negb (is_empty s)
  | None => false
  end.

(** The three arrays filled by the loop over the blocks of a message. *)
Definition textParts (blocks : list ContentBlock) : list string :=
  flat_map (fun b => match b with text_block t => [t] | _ => [] end) blocks.

Definition toolCalls (blocks : list ContentBlock) : list ToolCall :=
  flat_map (fun b => match b with
                     | tool_use id name input =>
                         [mkToolCall id name (stringify (JObj input))]
                     | _ => []
                     end) blocks.

Definition toolResults (blocks : list ContentBlock) : list OpenAIMessage :=
  flat_map (fun b => match b with
                     | tool_result toolCallId content _ =>
                         [mkOpenAIMessage tool (Some content) None
                            (Some toolCallId)]
                     | _ => []
                     end) blocks.

(** The body of the loop of [convertMessages]: what one message adds to
    [result]. *)
Definition convertMessage (msg : ChatMessage) : list OpenAIMessage :=
  match content msg with
  | Text s =>
      match role msg with
      | tool =>
          if given (toolCallId msg)
          then [mkOpenAIMessage tool (Some s) None (toolCallId msg)]
          else [plain user s]
      | r => [plain r s]
      end
  | Blocks blocks =>
      match role msg with
      | assistant =>
          let joined := join (String "010"%char EmptyString) (textParts blocks) in
          [mkOpenAIMessage assistant
             (if is_empty joined then None else Some joined)
             (match toolCalls blocks with [] => None | calls => Some calls end)
             None]
      | r =>
          match r, toolResults blocks with
          | user, (_ :: _) as results => results
          | _, _ =>
              [plain r (join (String "010"%char EmptyString) (textParts blocks))]
          end
      end
  end.

(** [convertMessages(messages, systemPrompt)] *)
Definition convertMessages (messages : list ChatMessage)
  (systemPrompt : option string) : list OpenAIMessage :=
  (match systemPrompt with
   | Some prompt => if is_empty prompt then [] else [plain system prompt]
   | None => []
   end)
  ++ flat_map convertMessage messages.

(** [ToolDefinition] and [OpenAITool] *)
Record ToolDefinition : Type := mkToolDefinition {
  def_name : string;
  def_description : string;
  def_inputSchema : Tools.InputSchema
}.

Record OpenAITool : Type := mkOpenAITool {
  fn_name : string;
  fn_description : string;
  fn_parameters : Tools.InputSchema
}.

(** [convertTools(tools)] *)
Definition convertTools (tools : list ToolDefinition) : list OpenAITool :=
  map (fun t => mkOpenAITool (def_name t) (def_description t)
                  (def_inputSchema t)) tools.

End OpenAIRequest.
(** ** The sandbox, continued, and the read tool (sandbox.ts, read-file.ts) *)
Module ReadFile.
Import JsString.

(** [MAX_READ_SIZE], ten mebibytes *)
Definition MAX_READ_SIZE : N := 10 * 1024 * 1024.

Definition NUL : ascii := "000"%char.

(** [isBinaryFile(filePath)]: a null byte among the first 8192 bytes;
    [false] when the file cannot be opened. *)
Definition isBinaryFile (w : Fs.World) (filePath : string) : bool :=
  match Fs.files w !! filePath with
  | Some content => has_char NUL (take (N.to_nat 8192) content)
  | None => false
  end.

(** The input of the tool; [offset] and [limit] are whole numbers when
    given. *)
Record Input : Type := mkInput {
  path : string;
  offset : option Z;
  limit : option Z
}.

(** [(v as number) || d] *)
Definition orDefault (v : option Z) (d : Z) : Z :=
  match v with
  | None | Some 0%Z => d
  | Some z => z
  end.

Fixpoint spaces (n : nat) : string :=
  match n with
  | O => EmptyString
  | S n' => String " " (spaces n')
  end.

(** [s.padStart(width, ' ')] *)
Definition padStart (width : nat) (s : string) : string :=
  spaces (width - String.length s) +:+ s.

(** [lines.slice(start, stop)] *)
Definition slice {A : Type} (l : list A) (start stop : Z) : list A :=
  let len := Z.of_nat (List.length l) in
  let from := if (start <? 0)%Z then Z.max (len + start) 0 else Z.min start len in
  let to := if (stop <? 0)%Z then Z.max (len + stop) 0 else Z.min stop len in
  firstn (Z.to_nat (to - from)) (skipn (Z.to_nat from) l).

(** [x.toFixed(1)] for the quotient [num / den] of two whole numbers, which
    the divisions by 1024 of the source compute exactly: the nearest
    multiple of a tenth, the larger one on a tie. *)
Definition toFixed1 (num den : N) : string :=
  let tenths := ((2 * 10 * num + den) / (2 * den))%N in
  ofZ (Z.of_N (tenths / 10)) +:+ "." +:+ ofZ (Z.of_N (tenths mod 10)).

(** the callback of [sliced.map] *)
Definition renderLine (startIdx : Z) (maxLineNumWidth : nat) (i : nat)
  (line : string) : string :=
  let lineNum := padStart maxLineNumWidth (ofZ (startIdx + Z.of_nat i + 1)) in
  let truncated := if (2000 <? String.length line)%nat
                   then take 2000 line +:+ "..." else line in
  lineNum +:+ String "009"%char truncated.

Fixpoint mapi {A B : Type} (f : nat -> A -> B) (i : nat) (l : list A) : list B :=
  match l with
  | [] => []
  | x :: rest => f i x :: mapi f (S i) rest
  end.

Definition statENOENT (p : string) : JsError :=
  mkError "Error" ("ENOENT: no such file or directory, stat '" +:+ p +:+ "'").

(** The catch clause of the outer [try]. *)
Definition onError (inputPath : string) (e : JsError) : ToolResult :=
  let msg := err_message e in
  if includes msg "ENOENT"
  then mkResult ("File not found: " +:+ inputPath) (Some true)
  else if includes msg "EACCES"
       then mkResult ("Permission denied: " +:+ inputPath) (Some true)
       else mkResult ("Error reading file: " +:+ msg) (Some true).

(** What is shown of the text of a file that passed the checks.  The
    length of a line is that of its bytes, which is its [length] for a line
    of ASCII characters. *)
Definition show (content : string) (offset limit : Z) : string :=
  let lines := split "010"%char content in
  let len := Z.of_nat (List.length lines) in
  let startIdx := Z.max 0 (offset - 1) in
  let endIdx := Z.min len (startIdx + limit) in
  let sliced := slice lines startIdx endIdx in
  let maxLineNumWidth := String.length (ofZ endIdx) in
  let numbered :=
    join (String "010"%char EmptyString)
      (mapi (renderLine startIdx maxLineNumWidth) 0 sliced) in
  let meta :=
    if (endIdx <? len)%Z
    then String "010"%char
           ("(showing lines " +:+ ofZ (startIdx + 1) +:+ "-" +:+ ofZ endIdx
            +:+ " of " +:+ ofZ len +:+ ")")
    else EmptyString in
  (if is_empty numbered then "(empty file)" else numbered) +:+ meta.

(** [readFileTool.execute(input)] on a file system of regular files. *)
Definition execute (cwd projectRoot : string) (w : Fs.World) (input : Input)
  : ToolResult :=
  let inputPath := path input in
  let offset := orDefault (offset input) 1 in
  let limit := orDefault (limit input) 2000 in
  match Sandbox.resolveSafePath cwd projectRoot inputPath with
  | Err err => mkResult (err_message err) (Some true)
  | Ok safePath =>
      match Fs.files w !! safePath with
      | None => onError inputPath (statENOENT safePath)
      | Some content =>
          let size := N.of_nat (String.length content) in
          if (MAX_READ_SIZE <? size)%N then
            mkResult
              ("File is too large (" +:+ toFixed1 size (1024 * 1024)
               +:+ "MB). Maximum: 10MB. Use offset/limit to read portions.")
              (Some true)
          else if isBinaryFile w safePath then
            mkResult
              ("File appears to be binary (" +:+ ofZ (Z.of_N size)
               +:+ " bytes). Cannot display binary content.")
              (Some true)
          else mkResult (show (Utf8.decode content) offset limit) None
      end
  end.

End ReadFile.
(** ** The search tools (search.ts) *)
Module SearchTools.
Import JsString.

(** One call of [execFileAsync(file, args, options)]; the call made by
    [commandExists] has no options. *)
Record ExecCall : Type := mkExec {
  exec_file : string;
  exec_args : list string;
  exec_maxBuffer : option N;
  exec_timeout : option Z
}.

(** What the promise settles to: the standard output, or an error with
    its [code] (when it is a number) and its [message]. *)
Inductive ExecOutcome : Type :=
| ExecOk (stdout : string)
| ExecFail (code : option Z) (message : string).

(** [commandExists(cmd)] *)
Definition whichCall (cmd : string) : ExecCall :=
  mkExec "which" [cmd] None None.

Definition commandExists (os : ExecCall -> ExecOutcome) (cmd : string) : bool :=
  match os (whichCall cmd) with
  | ExecOk _ => true
  | ExecFail _ _ => false
  end.

(** [isExitCode(err, code)] *)
Definition isExitCode (code : option Z) (expected : Z) : bool :=
  match code with
  | Some c => (c =? expected)%Z
  | None => false
  end.

(** [searchDir ? resolveSafePath(searchDir) : getProjectRoot()] *)
Definition searchPath (cwd projectRoot : string) (searchDir : option string)
  : result JsError string :=
  match searchDir with
  | None => Ok projectRoot
  | Some dir =>
      if is_empty dir then Ok projectRoot
      else Sandbox.resolveSafePath cwd projectRoot dir
  end.

(** [stdout.trim().split('\n').filter(Boolean)] *)
Definition outputLines (stdout : string) : list string :=
  List.filter (fun line => negb (is_empty line))
    (split "010"%char (trim stdout)).

Definition nl : string := String "010"%char EmptyString.

Record GrepInput : Type := mkGrepInput {
  grep_pattern : string;
  grep_path : option string;
  grep_glob : option string;
  case_insensitive : bool
}.

Definition given (o : option string) : list string :=
  match o with
  | Some s => if is_empty s then [] else [s]
  | None => []
  end.

(** The arguments handed to [rg] and to [grep]. *)
Definition rgArgs (input : GrepInput) (safePath : string) : list string :=
  ["--line-number"; "--no-heading"; "--color=never"; "--max-count=200"]
  ++ (if case_insensitive input then ["-i"] else [])
  ++ flat_map (fun g => ["--glob"; g]) (given (grep_glob input))
  ++ ["--"; grep_pattern input; safePath].

Definition grepArgs (input : GrepInput) (safePath : string) : list string :=
  ["-rn"; "--max-count=200"]
  ++ (if case_insensitive input then ["-i"] else [])
  ++ flat_map (fun g => ["--include=" +:+ g]) (given (grep_glob input))
  ++ ["--"; grep_pattern input; safePath].

(** [grepTool.execute(input)]: the calls made, in order, and the result. *)
Definition grepExecute (cwd projectRoot : string)
  (os : ExecCall -> ExecOutcome) (input : GrepInput)
  : list ExecCall * ToolResult :=
  match searchPath cwd projectRoot (grep_path input) with
  | Err err => ([], mkResult (err_message err) (Some true))
  | Ok safePath =>
      let useRg := commandExists os "rg" in
      let call :=
        if useRg
        then mkExec "rg" (rgArgs input safePath) (Some 500000%N) (Some 30000%Z)
        else mkExec "grep" (grepArgs input safePath) (Some 500000%N)
               (Some 30000%Z) in
      ([whichCall "rg"; call],
       match os call with
       | ExecOk stdout =>
           let lines := outputLines stdout in
           if (List.length lines =? 0)%nat then mkResult "No matches found." None
           else if (100 <? List.length lines)%nat then
             mkResult (join nl (firstn 100 lines) +:+ nl +:+ nl
                       +:+ "(showing 100 of " +:+ ofNat (List.length lines)
                       +:+ " matches)") None
           else mkResult (join nl lines) None
       | ExecFail code message =>
           if isExitCode code 1 then mkResult "No matches found." None
           else if isExitCode code 2 then
             mkResult ("Invalid search pattern: " +:+ dquote
                       +:+ grep_pattern input +:+ dquote
                       +:+ ". Check regex syntax.") (Some true)
           else mkResult ("Search error: " +:+ message) (Some true)
       end)
  end.

Record GlobInput : Type := mkGlobInput {
  glob_pattern : string;
  glob_path : option string
}.

Definition findArgs (input : GlobInput) (safePath : string) : list string :=
  [safePath;
   "-not"; "-path"; "*/node_modules/*";
   "-not"; "-path"; "*/.git/*";
   "-not"; "-path"; "*/dist/*";
   "-type"; "f";
   "-name"; glob_pattern input].

(** [globTool.execute(input)] *)
Definition globExecute (cwd projectRoot : string)
  (os : ExecCall -> ExecOutcome) (input : GlobInput)
  : list ExecCall * ToolResult :=
  match searchPath cwd projectRoot (glob_path input) with
  | Err err => ([], mkResult (err_message err) (Some true))
  | Ok safePath =>
      let call := mkExec "find" (findArgs input safePath) (Some 200000%N)
                    (Some 15000%Z) in
      ([call],
       match os call with
       | ExecOk stdout =>
           let files := outputLines stdout in
           if (List.length files =? 0)%nat then mkResult "No files found." None
           else
             let relative :=
               map (fun f => EditFile.replace f (projectRoot +:+ "/")
                               EmptyString) files in
             if (100 <? List.length relative)%nat then
               mkResult (join nl (firstn 100 relative) +:+ nl +:+ nl
                         +:+ "(showing 100 of "
                         +:+ ofNat (List.length relative) +:+ " files)") None
             else mkResult (join nl relative) None
       | ExecFail _ message =>
           mkResult ("Search error: " +:+ message) (Some true)
       end)
  end.

End SearchTools.

(** * Properties *)

(** ** Strings *)
Section StringFacts.
Import JsString.

Lemma app_nil_s (s : string) : EmptyString +:+ s = s.
Proof. reflexivity. Qed.

Lemma app_cons_s (a : ascii) (s t : string) :
  String a s +:+ t = String a (s +:+ t).
Proof. reflexivity. Qed.

Lemma app_empty_r (s : string) : s +:+ EmptyString = s.
Proof.
  induction s as [|a s IH]; [reflexivity|].
  now rewrite app_cons_s, IH.
Qed.

Lemma app_assoc_s (a b c : string) : (a +:+ b) +:+ c = a +:+ (b +:+ c).
Proof.
  induction a as [|x a IH]; [reflexivity|].
  now rewrite !app_cons_s, IH.
Qed.

Lemma app_eq_empty (a b : string) :
  a +:+ b = EmptyString -> a = EmptyString /\ b = EmptyString.
Proof.
  destruct a; [rewrite app_nil_s; now intros -> |].
  rewrite app_cons_s; discriminate.
Qed.

Lemma startsWith_app (p r : string) : startsWith (p +:+ r) p = true.
Proof.
  induction p as [|a p IH]; [reflexivity|].
  rewrite app_cons_s; simpl. now rewrite Ascii.eqb_refl, IH.
Qed.

Lemma startsWith_inv (s p : string) :
  startsWith s p = true -> exists r, s = p +:+ r.
Proof.
  revert s; induction p as [|a p IH]; intros s H; simpl in *.
  - now exists s.
  - destruct s as [|b s]; [discriminate|].
    apply andb_true_iff in H as [Hab Hs].
    apply Ascii.eqb_eq in Hab; subst b.
    destruct (IH _ Hs) as [r ->]. now exists r.
Qed.

Lemma last_app (a b : string) :
  b <> EmptyString -> last (a +:+ b) = last b.
Proof.
  intros Hb; induction a as [|x a IH]; [reflexivity|].
  rewrite app_cons_s; simpl. rewrite IH.
  destruct (a +:+ b) eqn:E; [|reflexivity].
  apply app_eq_empty in E as [_ E]. contradiction.
Qed.

Lemma last_has_char (c : ascii) (s : string) :
  last s = Some c -> has_char c s = true.
Proof.
  induction s as [|a s IH]; simpl; [discriminate|].
  destruct s as [|b s].
  - intros [= ->]. now rewrite Ascii.eqb_refl.
  - intros H. rewrite (IH H). apply orb_true_r.
Qed.

Lemma has_char_app (c : ascii) (a b : string) :
  has_char c (a +:+ b) = has_char c a || has_char c b.
Proof.
  induction a as [|x a IH]; [reflexivity|].
  rewrite app_cons_s; simpl. now rewrite IH, orb_assoc.
Qed.

Lemma split_not_nil (c : ascii) (s : string) : split c s <> [].
Proof.
  induction s as [|a s IH]; simpl; [discriminate|].
  destruct (Ascii.eqb a c); [discriminate|].
  destruct (split c s); [contradiction | discriminate].
Qed.

Lemma split_no_sep (c : ascii) (s : string) :
  Forall (fun seg => has_char c seg = false) (split c s).
Proof.
  induction s as [|a s IH]; simpl.
  - constructor; [reflexivity | constructor].
  - destruct (Ascii.eqb a c) eqn:E.
    + constructor; [reflexivity | exact IH].
    + pose proof (split_not_nil c s) as Hne.
      destruct (split c s) as [|h t]; [contradiction|].
      inversion IH; subst. constructor; [|assumption].
      simpl. now rewrite E.
Qed.

(** Splitting [seg/rest] at the separator gives [seg] and the pieces of
    [rest], when [seg] holds no separator. *)
Lemma split_app_sep (c : ascii) (seg rest : string) :
  has_char c seg = false ->
  split c (seg +:+ String c rest) = seg :: split c rest.
Proof.
  induction seg as [|a seg IH]; intros H.
  - rewrite app_nil_s; simpl. now rewrite Ascii.eqb_refl.
  - simpl in H. apply orb_false_iff in H as [Ha Hs].
    rewrite app_cons_s; simpl. rewrite Ha, (IH Hs). reflexivity.
Qed.

Lemma split_no_char (c : ascii) (seg : string) :
  has_char c seg = false -> split c seg = [seg].
Proof.
  induction seg as [|a seg IH]; intros H; [reflexivity|].
  simpl in H. apply orb_false_iff in H as [Ha Hs].
  simpl. now rewrite Ha, (IH Hs).
Qed.

Lemma split_join (c : ascii) (segs : list string) :
  segs <> [] ->
  Forall (fun seg => has_char c seg = false) segs ->
  split c (join (String c EmptyString) segs) = segs.
Proof.
  induction segs as [|seg segs IH]; intros Hne Hall; [contradiction|].
  inversion Hall as [|? ? Hseg Hrest]; subst.
  destruct segs as [|seg' segs].
  - simpl. now apply split_no_char.
  - change (join (String c EmptyString) (seg :: seg' :: segs))
      with (seg +:+ String c EmptyString
                +:+ join (String c EmptyString) (seg' :: segs)).
    rewrite app_cons_s, app_nil_s, (split_app_sep _ _ _ Hseg).
    f_equal. apply IH; [discriminate | assumption].
Qed.

End StringFacts.

(** ** Paths and the sandbox *)
Section PathFacts.
Import JsString.

(** A segment of a normalized absolute path. *)
Definition clean (seg : string) : Prop :=
  seg <> EmptyString /\ seg <> "." /\ seg <> ".."
  /\ has_char "/"%char seg = false.

Lemma normalizeSegs_clean (segs res : list string) :
  Forall (fun seg => has_char "/"%char seg = false) segs ->
  Forall clean res ->
  Forall clean (Path.normalizeSegs false segs res).
Proof.
  revert res; induction segs as [|seg segs IH]; intros res Hs Hr; simpl.
  - now apply List.Forall_rev.
  - inversion Hs as [|? ? Hseg Hrest]; subst.
    destruct (String.eqb seg EmptyString) eqn:E1; simpl; [now apply IH|].
    destruct (String.eqb seg ".") eqn:E2; simpl; [now apply IH|].
    destruct (String.eqb seg "..") eqn:E3.
    + destruct res as [|top res']; [now apply IH|].
      inversion Hr; subst.
      destruct (String.eqb top ".."); now apply IH.
    + apply IH; [assumption|]. constructor; [|assumption].
      apply String.eqb_neq in E1, E2, E3. now repeat split.
Qed.

Lemma normalizeSegs_fixed (segs res : list string) :
  Forall clean segs ->
  Path.normalizeSegs false segs res = rev res ++ segs.
Proof.
  revert res; induction segs as [|seg segs IH]; intros res Hs; simpl.
  - now rewrite app_nil_r.
  - inversion Hs as [|? ? (H1 & H2 & H3 & _) Hrest]; subst.
    apply String.eqb_neq in H1, H2, H3. rewrite H1, H2, H3; simpl.
    rewrite (IH _ Hrest); simpl. now rewrite <- app_assoc.
Qed.

Lemma resolveLoop_absolute (cwd : string) (paths : list string) (acc : string) :
  Path.isAbsolute cwd = true ->
  snd (Path.resolveLoop (paths ++ [cwd]) acc) = true.
Proof.
  intros Hcwd; revert acc; induction paths as [|p paths IH]; intros acc; simpl.
  - cbn [app Path.resolveLoop].
    destruct cwd as [|c cwd]; [discriminate|].
    cbn [is_empty]. now rewrite Hcwd.
  - destruct (is_empty p); [apply IH|].
    destruct (Path.isAbsolute p); [reflexivity | apply IH].
Qed.

(** With an absolute working directory, [path.resolve] answers [/]
    followed by clean segments joined by the separator. *)
Lemma resolve_shape (cwd : string) (args : list string) :
  Path.isAbsolute cwd = true ->
  exists segs, Forall clean segs
               /\ Path.resolve cwd args = "/" +:+ join Path.sep segs.
Proof.
  intros Hcwd. unfold Path.resolve.
  pose proof (resolveLoop_absolute cwd (rev args) EmptyString Hcwd) as Habs.
  destruct (Path.resolveLoop (rev args ++ [cwd]) EmptyString) as [rp ra].
  simpl in Habs; subst ra.
  exists (Path.normalizeSegs false (split "/"%char rp) []). split.
  - apply normalizeSegs_clean; [apply split_no_sep | constructor].
  - reflexivity.
Qed.

Lemma join_clean_not_empty (segs : list string) :
  segs <> [] -> Forall clean segs -> join Path.sep segs <> EmptyString.
Proof.
  destruct segs as [|seg segs]; [contradiction|].
  intros _ Hall; inversion Hall as [|? ? (H1 & _) _]; subst.
  destruct segs; simpl; [assumption|].
  intros E. apply app_eq_empty in E as [E _]. contradiction.
Qed.

Lemma last_join_clean (segs : list string) :
  segs <> [] -> Forall clean segs ->
  last (join Path.sep segs) <> Some "/"%char.
Proof.
  induction segs as [|seg segs IH]; intros Hne Hall; [contradiction|].
  inversion Hall as [|? ? (H1 & _ & _ & H4) Hrest]; subst.
  destruct segs as [|seg' segs].
  - simpl. intros E. apply last_has_char in E. congruence.
  - change (join Path.sep (seg :: seg' :: segs))
      with (seg +:+ Path.sep +:+ join Path.sep (seg' :: segs)).
    assert (Hj : join Path.sep (seg' :: segs) <> EmptyString)
      by (apply join_clean_not_empty; [discriminate | assumption]).
    rewrite last_app.
    + unfold Path.sep. rewrite last_app by assumption.
      apply IH; [discriminate | assumption].
    + unfold Path.sep. rewrite app_cons_s. discriminate.
Qed.

Lemma normalizeString_fixed (segs : list string) :
  Forall clean segs ->
  Path.normalizeString ("/" +:+ join Path.sep segs) false
  = join Path.sep segs.
Proof.
  intros Hall. destruct segs as [|seg segs]; [reflexivity|].
  unfold Path.normalizeString.
  change ("/" +:+ join Path.sep (seg :: segs))
    with (String "/"%char (join (String "/"%char EmptyString) (seg :: segs))).
  cbn [split Ascii.eqb Bool.eqb].
  rewrite split_join.
  - change (Path.normalizeSegs false (EmptyString :: seg :: segs) [])
      with (Path.normalizeSegs false (seg :: segs) []).
    now rewrite (normalizeSegs_fixed _ _ Hall).
  - discriminate.
  - eapply Forall_impl; [exact Hall|]. now intros s (_ & _ & _ & H).
Qed.

(** [path.normalize] leaves such a path as it is. *)
Lemma normalize_fixed (segs : list string) :
  Forall clean segs ->
  Path.normalize ("/" +:+ join Path.sep segs) = "/" +:+ join Path.sep segs.
Proof.
  intros Hall. destruct segs as [|seg segs]; [reflexivity|].
  set (segs' := seg :: segs) in *.
  assert (Hne : segs' <> []) by discriminate.
  pose proof (join_clean_not_empty _ Hne Hall) as Hj.
  pose proof (last_join_clean _ Hne Hall) as Hl.
  pose proof (normalizeString_fixed _ Hall) as Hn.
  unfold Path.normalize. cbv zeta.
  change (Path.isAbsolute ("/" +:+ join Path.sep segs')) with true.
  change (is_empty ("/" +:+ join Path.sep segs')) with false.
  cbn [negb]. rewrite Hn.
  replace (last ("/" +:+ join Path.sep segs'))
    with (last (join Path.sep segs'))
    by (symmetry; apply (last_app "/"); assumption).
  destruct (join Path.sep segs') as [|c j] eqn:Ej; [contradiction|].
  cbn [is_empty].
  destruct (last (String c j)) as [a|] eqn:El; [|reflexivity].
  destruct (Ascii.eqb_spec a "/"%char) as [->|Hx]; [contradiction|].
  destruct a as [[] [] [] [] [] [] [] []]; try reflexivity; contradiction.
Qed.

End PathFacts.

(** C1. For every project root and every input path, [resolveSafePath]
    either answers a path that is the root itself or the root followed by
    the separator and a remainder, or it throws [PathTraversalError]; what
    it answers is absolute and already normalized. *)
Theorem resolveSafePath_within_root (cwd projectRoot inputPath : string) :
  Path.isAbsolute cwd = true ->
  match Sandbox.resolveSafePath cwd projectRoot inputPath with
  | Ok p =>
      (p = projectRoot \/ exists rest, p = projectRoot +:+ Path.sep +:+ rest)
      /\ Path.isAbsolute p = true
      /\ Path.normalize p = p
  | Err e => e = Sandbox.PathTraversalError inputPath projectRoot
  end.
Proof.
  intros Hcwd. unfold Sandbox.resolveSafePath.
  destruct (resolve_shape cwd [projectRoot; inputPath] Hcwd) as (segs & Hc & Hr).
  rewrite Hr, (normalize_fixed _ Hc).
  destruct (JsString.startsWith _ _) eqn:Hpre; cbn [negb andb].
  - split; [|split; [reflexivity | now apply normalize_fixed]].
    right. apply startsWith_inv in Hpre as [rest Hrest].
    exists rest. rewrite <- app_assoc_s. exact Hrest.
  - destruct (String.eqb _ projectRoot) eqn:Heq; cbn [negb]; [|reflexivity].
    apply String.eqb_eq in Heq.
    split; [now left | split; [reflexivity | now apply normalize_fixed]].
Qed.

Lemma resolveSafePath_within_root_witness :
  match Sandbox.resolveSafePath "/home/u" "/proj" "src/../lib/a.ts" with
  | Ok p =>
      (p = "/proj" \/ exists rest, p = "/proj" +:+ Path.sep +:+ rest)
      /\ Path.isAbsolute p = true
      /\ Path.normalize p = p
  | Err e => e = Sandbox.PathTraversalError "src/../lib/a.ts" "/proj"
  end.
Proof. apply (resolveSafePath_within_root "/home/u" "/proj" "src/../lib/a.ts"). reflexivity. Defined.

(** Escapes through [..] segments and through an absolute path are refused;
    a sibling directory sharing the root's name as a prefix is refused too. *)
Example resolveSafePath_dotdot :
  Sandbox.resolveSafePath "/home/u" "/proj" "a/../../etc/passwd"
  = Err (Sandbox.PathTraversalError "a/../../etc/passwd" "/proj").
Proof. reflexivity. Qed.

Example resolveSafePath_absolute_escape :
  Sandbox.resolveSafePath "/home/u" "/proj" "/etc/passwd"
  = Err (Sandbox.PathTraversalError "/etc/passwd" "/proj").
Proof. reflexivity. Qed.

Example resolveSafePath_sibling :
  Sandbox.resolveSafePath "/home/u" "/proj" "../project2/x"
  = Err (Sandbox.PathTraversalError "../project2/x" "/proj").
Proof. reflexivity. Qed.

Example resolveSafePath_inside :
  Sandbox.resolveSafePath "/home/u" "/proj" "a/./b/../c//d/" = Ok "/proj/a/c/d".
Proof. reflexivity. Qed.

(** ** The edit tool *)
Section EditFacts.
Import JsString EditFile.

Lemma drop_length_s (n : nat) (s : string) :
  String.length (drop n s) = String.length s - n.
Proof.
  revert s; induction n as [|n IH]; intros [|a s]; simpl; try lia.
  apply IH.
Qed.

Lemma drop_drop_s (n m : nat) (s : string) : drop n (drop m s) = drop (m + n) s.
Proof.
  revert s; induction m as [|m IH]; intros s; [reflexivity|].
  destruct s as [|a s]; simpl; [now destruct n | apply IH].
Qed.

Lemma drop_all_s (n : nat) (s : string) :
  String.length s <= n -> drop n s = EmptyString.
Proof.
  revert s; induction n as [|n IH]; intros [|a s]; simpl; intros H;
    try reflexivity; try lia.
  apply IH; lia.
Qed.

Lemma startsWith_length (s p : string) :
  startsWith s p = true -> String.length p <= String.length s.
Proof.
  revert s; induction p as [|a p IH]; intros s H; simpl in *; [lia|].
  destruct s as [|b s]; [discriminate|].
  apply andb_true_iff in H as [_ H]. apply IH in H. simpl; lia.
Qed.

Lemma occursAt_bound (content old : string) (i : nat) :
  occursAt content old i -> i + String.length old <= String.length content.
Proof.
  intros [Hi H]. apply startsWith_length in H.
  rewrite drop_length_s in H. lia.
Qed.

(** The scan answers the least offset at which the needle is read. *)
Lemma indexOfFrom_Some (s needle : string) (pos i : nat) :
  indexOfFrom s needle pos = Some i ->
  exists k, i = pos + k /\ k <= String.length s
            /\ startsWith (drop k s) needle = true
            /\ forall j, j < k -> startsWith (drop j s) needle = false.
Proof.
  revert pos; induction s as [|a s IH]; intros pos H.
  - simpl in H. destruct (startsWith EmptyString needle) eqn:E; [|discriminate].
    injection H as <-. exists 0.
    split; [lia|]. split; [lia|]. split; [assumption|]. intros j Hj; lia.
  - cbn [indexOfFrom] in H.
    destruct (startsWith (String a s) needle) eqn:E.
    + injection H as <-. exists 0.
      split; [lia|]. split; [lia|]. split; [assumption|]. intros j Hj; lia.
    + destruct (IH _ H) as (k & -> & Hk & Hat & Hbefore).
      exists (S k).
      split; [lia|]. split; [simpl; lia|]. split; [exact Hat|].
      intros [|j] Hj; [exact E | apply Hbefore; lia].
Qed.

Lemma indexOfFrom_None (s needle : string) (pos : nat) :
  indexOfFrom s needle pos = None ->
  forall k, startsWith (drop k s) needle = false.
Proof.
  revert pos; induction s as [|a s IH]; intros pos H k.
  - simpl in H. destruct (startsWith EmptyString needle) eqn:E; [discriminate|].
    now destruct k.
  - cbn [indexOfFrom] in H.
    destruct (startsWith (String a s) needle) eqn:E; [discriminate|].
    destruct k; [exact E | simpl; eapply IH; eassumption].
Qed.

Lemma indexOf_Some (content old : string) (from i : nat) :
  from <= String.length content ->
  indexOf content old from = Some i ->
  from <= i /\ occursAt content old i
  /\ forall j, from <= j -> j < i -> ~ occursAt content old j.
Proof.
  intros Hfrom H. unfold indexOf in H.
  rewrite Nat.min_l in H by assumption.
  apply indexOfFrom_Some in H as (k & -> & Hk & Hat & Hbefore).
  rewrite drop_length_s in Hk. rewrite drop_drop_s in Hat.
  split; [lia|]. split; [split; [lia | exact Hat]|].
  intros j Hj1 Hj2 [_ Hocc].
  specialize (Hbefore (j - from) ltac:(lia)).
  rewrite drop_drop_s in Hbefore.
  replace (from + (j - from)) with j in Hbefore by lia. congruence.
Qed.

Lemma indexOf_None (content old : string) (from : nat) :
  indexOf content old from = None ->
  forall j, from <= j -> ~ occursAt content old j.
Proof.
  intros H j Hj [_ Hocc]. unfold indexOf in H.
  pose proof (indexOfFrom_None _ _ _ H (j - from)) as Hk.
  rewrite drop_drop_s in Hk.
  replace (from + (j - from)) with j in Hk by lia. congruence.
Qed.

(** Conversely, the least occurrence at or after [from] is what [indexOf]
    answers. *)
Lemma indexOf_least (content old : string) (from i : nat) :
  from <= i -> occursAt content old i ->
  (forall j, from <= j -> j < i -> ~ occursAt content old j) ->
  indexOf content old from = Some i.
Proof.
  intros Hfi Hocc Hleast.
  assert (Hfrom : from <= String.length content) by (destruct Hocc; lia).
  destruct (indexOf content old from) as [i'|] eqn:E.
  - apply indexOf_Some in E as (H1 & H2 & H3); [|assumption].
    f_equal. destruct (Nat.lt_trichotomy i' i) as [Hlt|[->|Hgt]];
      [|reflexivity|].
    + exfalso. now apply (Hleast i').
    + exfalso. now apply (H3 i).
  - exfalso. now apply (indexOf_None _ _ _ E i).
Qed.

Lemma indexOf_absent (content old : string) (from : nat) :
  old <> EmptyString ->
  (forall j, from <= j -> ~ occursAt content old j) ->
  indexOf content old from = None.
Proof.
  intros Hold Hnone.
  destruct (indexOf content old from) as [i|] eqn:E; [|reflexivity].
  exfalso. destruct (Nat.le_gt_cases from (String.length content)) as [Hle|Hgt].
  - apply indexOf_Some in E as (H1 & H2 & _); [|assumption].
    now apply (Hnone i).
  - unfold indexOf in E. rewrite drop_all_s in E by lia.
    simpl in E. destruct old; [contradiction | discriminate].
Qed.

(** The counter never decreases. *)
Lemma countLoop_ge (fuel : nat) (content old : string) (count from m : nat) :
  countLoop fuel content old count from = Some m -> count <= m.
Proof.
  revert count from; induction fuel as [|fuel IH]; intros count from H;
    [discriminate|].
  simpl in H. destruct (indexOf content old from) as [idx|].
  - apply IH in H. lia.
  - injection H as <-. lia.
Qed.


(** For the empty search string it never does. *)
Lemma countLoop_empty_diverges (fuel : nat) (content : string)
  (count from : nat) :
  countLoop fuel content EmptyString count from = None.
Proof.
  revert count from; induction fuel as [|fuel IH]; intros count from;
    [reflexivity|].
  simpl. unfold indexOf. destruct (drop from content); simpl; apply IH.
Qed.

Lemma countLoop_one (fuel : nat) (content old : string) :
  old <> EmptyString ->
  countLoop fuel content old 0 0 = Some 1 <-> (2 <= fuel /\ uniqueMatch content old).
Proof.
  intros Hold. split.
  - destruct fuel as [|fuel]; [discriminate|]. simpl.
    destruct (indexOf content old 0) as [i|] eqn:E0; [|discriminate].
    destruct fuel as [|fuel]; [discriminate|]. simpl.
    destruct (indexOf content old (i + String.length old)) as [i2|] eqn:E1.
    { intros H. apply countLoop_ge in H. lia. }
    intros _. split; [lia|].
    apply indexOf_Some in E0 as (_ & Hocc & Hleast); [|lia].
    exists i. split; [assumption|]. split.
    + intros j Hj. apply Hleast; lia.
    + intros j Hj. now apply (indexOf_None _ _ _ E1).
  - intros (Hfuel & i & Hocc & Hleast & Hafter).
    destruct fuel as [|[|fuel]]; try lia. simpl.
    rewrite (indexOf_least content old 0 i); [|lia|assumption|].
    + now rewrite (indexOf_absent content old _ Hold Hafter).
    + intros j _ Hj. now apply Hleast.
Qed.

Lemma countLoop_zero (fuel : nat) (content old : string) :
  old <> EmptyString ->
  countLoop fuel content old 0 0 = Some 0
  <-> (1 <= fuel /\ forall j, ~ occursAt content old j).
Proof.
  intros Hold. split.
  - destruct fuel as [|fuel]; [discriminate|]. simpl.
    destruct (indexOf content old 0) as [i|] eqn:E0.
    { intros H. apply countLoop_ge in H. lia. }
    intros _. split; [lia|]. intros j. apply (indexOf_None _ _ _ E0). lia.
  - intros (Hfuel & Hnone). destruct fuel as [|fuel]; [lia|]. simpl.
    rewrite (indexOf_absent content old 0 Hold); [reflexivity|].
    intros j _. apply Hnone.
Qed.

(** *** Matches taken from left to right *)

Lemma matchesFrom_skip (k : nat) (s old : string) :
  matchesFrom k s old = matchesFrom 0 (drop k s) old.
Proof.
  revert k; induction s as [|a s IH]; intros [|k]; try reflexivity.
  cbn [matchesFrom drop]. apply IH.
Qed.

Lemma matchesFrom_miss (k : nat) (s old : string) :
  k <= String.length s ->
  (forall j, j < k -> startsWith (drop j s) old = false) ->
  matchesFrom 0 s old = matchesFrom 0 (drop k s) old.
Proof.
  revert s; induction k as [|k IH]; intros s Hk Hmiss; [reflexivity|].
  destruct s as [|a s]; [cbn in Hk; lia|].
  pose proof (Hmiss 0 ltac:(lia)) as H0. cbn [drop] in H0.
  cbn [matchesFrom drop]. rewrite H0.
  apply IH; [cbn in Hk; lia|].
  intros j Hj. apply (Hmiss (S j)). lia.
Qed.

Lemma matchesFrom_hit (s old : string) :
  old <> EmptyString ->
  startsWith s old = true ->
  matchesFrom 0 s old = S (matchesFrom 0 (drop (String.length old) s) old).
Proof.
  intros Hold Hhit. destruct old as [|c old]; [contradiction|].
  destruct s as [|a s]; [discriminate|].
  cbn [matchesFrom]. rewrite Hhit. cbn [String.length Nat.sub drop].
  now rewrite Nat.sub_0_r, matchesFrom_skip.
Qed.

Lemma startsWith_past_end (content old : string) (j : nat) :
  old <> EmptyString ->
  ~ occursAt content old j ->
  startsWith (drop j content) old = false.
Proof.
  intros Hold Hno. destruct (startsWith (drop j content) old) eqn:E;
    [|reflexivity].
  exfalso. destruct (Nat.le_gt_cases j (String.length content)) as [Hle|Hgt].
  - apply Hno. now split.
  - rewrite drop_all_s in E by lia.
    destruct old; [contradiction | discriminate].
Qed.

(** The counting loop counts the matches taken from left to right. *)
Lemma countLoop_counts (fuel : nat) (content old : string) (count from : nat) :
  old <> EmptyString ->
  from <= String.length content ->
  String.length content - from < fuel ->
  countLoop fuel content old count from
  = Some (count + matchesFrom 0 (drop from content) old).
Proof.
  intros Hold. revert count from.
  induction fuel as [|fuel IH]; intros count from Hfrom Hfuel; [lia|].
  cbn [countLoop]. destruct (indexOf content old from) as [idx|] eqn:E.
  - apply indexOf_Some in E as (Hle & Hocc & Hleast); [|assumption].
    pose proof (occursAt_bound _ _ _ Hocc) as Hbound.
    assert (0 < String.length old)
      by (destruct old; [contradiction | simpl; lia]).
    rewrite IH by lia. f_equal.
    rewrite (matchesFrom_miss (idx - from) (drop from content) old).
    + rewrite drop_drop_s. replace (from + (idx - from)) with idx by lia.
      rewrite (matchesFrom_hit _ _ Hold (proj2 Hocc)), drop_drop_s. lia.
    + rewrite drop_length_s. lia.
    + intros j Hj. rewrite drop_drop_s.
      apply startsWith_past_end; [assumption|]. apply Hleast; lia.
  - f_equal.
    rewrite (matchesFrom_miss (String.length content - from)
               (drop from content) old).
    + rewrite drop_drop_s, drop_all_s by lia.
      cbn [matchesFrom]. lia.
    + rewrite drop_length_s. lia.
    + intros j Hj. rewrite drop_drop_s.
      apply startsWith_past_end; [assumption|].
      apply (indexOf_None _ _ _ E). lia.
Qed.

Lemma countLoop_disjointMatches (fuel : nat) (content old : string) :
  old <> EmptyString ->
  String.length content < fuel ->
  countLoop fuel content old 0 0 = Some (disjointMatches content old).
Proof.
  intros Hold Hfuel.
  now rewrite countLoop_counts by (assumption || lia).
Qed.

Lemma disjointMatches_one (content old : string) :
  old <> EmptyString ->
  disjointMatches content old = 1 <-> uniqueMatch content old.
Proof.
  intros Hold.
  pose proof (countLoop_disjointMatches (S (S (String.length content)))
                content old Hold ltac:(lia)) as Hcount.
  pose proof (countLoop_one (S (S (String.length content))) content old Hold)
    as Hone.
  rewrite Hcount in Hone. split.
  - intros H1. apply Hone. now rewrite H1.
  - intros Hu. assert (H : Some (disjointMatches content old) = Some 1)
      by (apply Hone; split; [lia | assumption]).
    now injection H.
Qed.

(** *** The replacement *)

Lemma take_app_length (a b : string) : take (String.length a) (a +:+ b) = a.
Proof.
  induction a as [|x a IH]; [now destruct b|].
  rewrite app_cons_s. cbn [String.length take]. now rewrite IH.
Qed.

Lemma drop_app_length (a b : string) (n : nat) :
  drop (String.length a + n) (a +:+ b) = drop n b.
Proof.
  induction a as [|x a IH]; [reflexivity|].
  rewrite app_cons_s. cbn [String.length Nat.add drop]. exact IH.
Qed.

Lemma length_app_s (a b : string) :
  String.length (a +:+ b) = String.length a + String.length b.
Proof.
  induction a as [|x a IH]; [reflexivity|].
  rewrite app_cons_s. cbn [String.length]. now rewrite IH.
Qed.

Lemma occursAt_middle (before old after : string) :
  occursAt (before +:+ old +:+ after) old (String.length before).
Proof.
  split.
  - rewrite length_app_s. lia.
  - replace (String.length before) with (String.length before + 0) by lia.
    rewrite drop_app_length. cbn [drop]. apply startsWith_app.
Qed.

(** What [content.replace(oldStr, newStr)] gives when the leftmost
    occurrence of [oldStr] is the one after [before]. *)
Lemma replace_leftmost (before old after newStr : string) :
  (forall j, j < String.length before ->
             ~ occursAt (before +:+ old +:+ after) old j) ->
  replace (before +:+ old +:+ after) old newStr
  = before +:+ getSubstitution old before after newStr +:+ after.
Proof.
  intros Hleast. unfold replace.
  rewrite (indexOf_least _ old 0 (String.length before));
    [|lia | apply occursAt_middle | intros j _ Hj; now apply Hleast].
  rewrite take_app_length.
  assert (Hdrop : drop (String.length before + String.length old)
                    (before +:+ old +:+ after) = after).
  { rewrite drop_app_length.
    replace (String.length old) with (String.length old + 0) by lia.
    now rewrite drop_app_length. }
  now rewrite Hdrop.
Qed.

(** A replacement string without [$] is inserted as it is. *)
Lemma getSubstitution_literal (matched before after template : string) :
  has_char "$"%char template = false ->
  getSubstitution matched before after template = template.
Proof.
  induction template as [|c t IH]; [reflexivity|]. intros H.
  cbn [has_char] in H. apply orb_false_iff in H as [Hc Ht].
  assert (Hstep : getSubstitution matched before after (String c t)
                  = String c (getSubstitution matched before after t)).
  { destruct c as [[] [] [] [] [] [] [] []]; try reflexivity.
    discriminate Hc. }
  now rewrite Hstep, IH.
Qed.

(** *** The call *)

(** What a call answers once the matches are counted. *)
Lemma execute_counted (fuel : nat) (cwd projectRoot tmpPath : string)
  (w : Fs.World) (input : Input) (safePath bytes : string) (m : nat) :
  String.eqb (old_string input) (new_string input) = false ->
  Sandbox.resolveSafePath cwd projectRoot (path input) = Ok safePath ->
  Fs.files w !! safePath = Some bytes ->
  countLoop fuel (Utf8.decode bytes) (old_string input) 0 0 = Some m ->
  exists w' r,
    execute fuel cwd projectRoot tmpPath w input = Some (w', r)
    /\ (isErrorOrFalse r = false <-> m = 1 /\ Fs.placeable w)
    /\ (isErrorOrFalse r = true ->
        forall p, p <> tmpPath -> Fs.files w' !! p = Fs.files w !! p)
    /\ (isErrorOrFalse r = false -> tmpPath <> safePath ->
        isError r = None
        /\ Fs.files w' !! safePath
           = Some (replace (Utf8.decode bytes) (old_string input)
                     (new_string input))
        /\ (forall p, p <> safePath -> p <> tmpPath ->
                      Fs.files w' !! p = Fs.files w !! p)
        /\ (Fs.tidy w ->
            w' = Fs.withFiles w
                   (<[safePath := replace (Utf8.decode bytes) (old_string input)
                                    (new_string input)]>
                      (delete tmpPath (Fs.files w))))).
Proof.
  intros Hdiff Hres Hfile Hm. unfold execute, Fs.readFile.
  rewrite Hdiff, Hres, Hfile, Hm.
  assert (Hflag : forall e, isErrorOrFalse (onError (path input) e) = true).
  { intros e. unfold onError. now destruct (indexOf _ _ _). }
  destruct m as [|[|m]].
  - eexists _, _; split; [reflexivity|]. cbn [isErrorOrFalse isError].
    split; [split; [discriminate | intros [H _]; discriminate]|].
    split; [reflexivity | discriminate].
  - unfold Fs.writeFile, Fs.placeable, Fs.tidy.
    destruct (Fs.writeError w) as [e|] eqn:Hwrite.
    { eexists _, _; split; [reflexivity|]. rewrite Hflag.
      split; [split; [discriminate | intros [_ [H _]]; discriminate]|].
      split; [reflexivity | discriminate]. }
    unfold Fs.rename, Fs.copyFile, Fs.unlink, Fs.withFiles;
      cbn [Fs.files Fs.crossDevice Fs.writeError Fs.copyError Fs.unlinkFails].
    rewrite lookup_insert_eq.
    destruct (Fs.crossDevice w) eqn:Hdev;
      [destruct (Fs.copyError w) as [e|] eqn:Hcopy;
       [|destruct (Fs.unlinkFails w) eqn:Hunlink]|];
      cbn [Fs.files Fs.crossDevice Fs.writeError Fs.copyError Fs.unlinkFails];
      eexists _, _; (split; [reflexivity|]).
    + rewrite Hflag.
      split; [split; [discriminate | intros [_ [_ [H|H]]]; discriminate]|].
      split; [|discriminate].
      intros _ p Hp. cbn [Fs.files]. now rewrite lookup_insert_ne.
    + cbn [isErrorOrFalse isError Fs.files].
      split; [split; [intros _; repeat split; now right | reflexivity]|].
      split; [discriminate|]. intros _ Hne.
      split; [reflexivity|]. split; [now rewrite lookup_insert_eq|].
      split; [intros p H1 H2; now rewrite !lookup_insert_ne by congruence|].
      intros [H|H]; discriminate.
    + cbn [isErrorOrFalse isError Fs.files].
      split; [split; [intros _; repeat split; now right | reflexivity]|].
      split; [discriminate|]. intros _ Hne.
      split; [reflexivity|].
      split; [now rewrite lookup_delete_ne, lookup_insert_eq by congruence|].
      split.
      * intros p H1 H2.
        now rewrite lookup_delete_ne, !lookup_insert_ne by congruence.
      * intros _. f_equal. rewrite delete_insert_ne by congruence.
        now rewrite delete_insert_eq.
    + cbn [isErrorOrFalse isError Fs.files].
      split; [split; [intros _; repeat split; now left | reflexivity]|].
      split; [discriminate|]. intros _ Hne.
      split; [reflexivity|]. split; [now rewrite lookup_insert_eq|].
      split.
      * intros p H1 H2.
        now rewrite lookup_insert_ne, lookup_delete_ne, lookup_insert_ne
          by congruence.
      * intros _. f_equal. now rewrite delete_insert_eq.
  - eexists _, _; split; [reflexivity|]. cbn [isErrorOrFalse isError].
    split; [split; [discriminate | intros [H _]; discriminate]|].
    split; [reflexivity | discriminate].
Qed.

End EditFacts.

Lemma is_empty_false (s : string) :
  JsString.is_empty s = false -> s <> EmptyString.
Proof. now destruct s. Qed.



(** The copy that follows a failed rename fails as well: the call answers
    an error, the file is as it was and the scratch file is left behind. *)
Example edit_copy_fails :
  EditFile.execute 12 "/proj" "/proj" "/tmp/moth-edit-0"
    (Fs.mkWorld {[ "/proj/notes.txt" := "hello world" ]} true None
       (Some (mkError "Error" "EACCES: permission denied, copyfile")) false)
    (EditFile.mkInput "notes.txt" "world" "there")
  = Some (Fs.mkWorld
            (<["/tmp/moth-edit-0" := "hello there"]>
               {[ "/proj/notes.txt" := "hello world" ]})
            true None
            (Some (mkError "Error" "EACCES: permission denied, copyfile")) false,
          mkResult "Error editing file: EACCES: permission denied, copyfile"
            (Some true)).
Proof. reflexivity. Qed.


(** An empty [old_string] is never counted: the loop does not break. *)
Lemma edit_empty_old_string_diverges
  (fuel : nat) (cwd projectRoot tmpPath : string) (w : Fs.World)
  (p newStr safePath content : string) :
  Sandbox.resolveSafePath cwd projectRoot p = Ok safePath ->
  Fs.files w !! safePath = Some content ->
  JsString.is_empty newStr = false ->
  EditFile.execute fuel cwd projectRoot tmpPath w
    (EditFile.mkInput p EmptyString newStr) = None.
Proof.
  intros Hres Hfile Hnew. unfold EditFile.execute, Fs.readFile.
  cbn [EditFile.path EditFile.old_string EditFile.new_string].
  destruct newStr as [|c n]; [discriminate|]. cbn [String.eqb].
  now rewrite Hres, Hfile, countLoop_empty_diverges.
Qed.

(** C10. Matches are counted from left to right without overlap: the
    counting loop answers the number of matches found when each match
    consumes its full length before the search resumes.  In [aaa] the
    string [aa] is read at two positions but counted once, so the edit goes
    through and rewrites the leftmost match, leaving the last [a]; in
    general the count is one exactly when there is a leftmost occurrence
    and none starting at or after its end, whatever overlaps it. *)
Theorem edit_counts_without_overlap
  (fuel : nat) (cwd projectRoot tmpPath p safePath newStr : string)
  (w : Fs.World) :
  Sandbox.resolveSafePath cwd projectRoot p = Ok safePath ->
  Fs.files w !! safePath = Some "aaa" ->
  String.eqb "aa" newStr = false ->
  JsString.has_char "$"%char newStr = false ->
  tmpPath <> safePath ->
  Fs.placeable w ->
  2 <= fuel ->
  EditFile.occurrences "aaa" "aa" = 2
  /\ EditFile.countLoop fuel "aaa" "aa" 0 0 = Some 1
  /\ (exists w' r,
        EditFile.execute fuel cwd projectRoot tmpPath w
          (EditFile.mkInput p "aa" newStr) = Some (w', r)
        /\ isError r = None
        /\ Fs.files w' !! safePath = Some (newStr +:+ "a"))
  /\ (forall content old fuel',
        JsString.is_empty old = false ->
        String.length content < fuel' ->
        EditFile.countLoop fuel' content old 0 0
        = Some (EditFile.disjointMatches content old))
  /\ (forall content old,
        JsString.is_empty old = false ->
        (EditFile.disjointMatches content old = 1
         <-> EditFile.uniqueMatch content old))
  /\ (forall before old after new,
        (forall j, j < String.length before ->
                   ~ EditFile.occursAt (before +:+ old +:+ after) old j) ->
        JsString.has_char "$"%char new = false ->
        EditFile.replace (before +:+ old +:+ after) old new
        = before +:+ new +:+ after).
Proof.
  intros Hres Hfile Hdiff Hlit Htmp Hmove Hfuel.
  assert (Hcount : EditFile.countLoop fuel (Utf8.decode "aaa") "aa" 0 0 = Some 1).
  { destruct fuel as [|[|fuel]]; try lia. reflexivity. }
  split; [reflexivity|]. split; [exact Hcount|]. split; [|split; [|split]].
  - destruct (execute_counted fuel cwd projectRoot tmpPath w
                (EditFile.mkInput p "aa" newStr) safePath "aaa" 1 Hdiff Hres
                Hfile Hcount) as (w' & r & Hexec & Hok & _ & Hdone).
    destruct (Hdone (proj2 Hok (conj eq_refl Hmove)) Htmp) as (Hr & Hw & _).
    exists w', r. split; [exact Hexec|]. split; [exact Hr|].
    rewrite Hw. cbn [EditFile.old_string EditFile.new_string].
    change (Utf8.decode "aaa") with (EmptyString +:+ "aa" +:+ "a").
    rewrite replace_leftmost by (intros j Hj; cbn in Hj; lia).
    now rewrite getSubstitution_literal.
  - intros content old fuel' Hne Hf. apply is_empty_false in Hne.
    now apply countLoop_disjointMatches.
  - intros content old Hne. apply is_empty_false in Hne.
    now apply disjointMatches_one.
  - intros before old after new Hleast Hnew.
    now rewrite replace_leftmost, getSubstitution_literal.
Qed.

Lemma edit_counts_without_overlap_witness :
  EditFile.occurrences "aaa" "aa" = 2
  /\ EditFile.countLoop 3 "aaa" "aa" 0 0 = Some 1
  /\ (exists w' r,
        EditFile.execute 3 "/proj" "/proj" "/tmp/moth-edit-1" Scenario.overlapWorld
          (EditFile.mkInput "a.txt" "aa" "b") = Some (w', r)
        /\ isError r = None
        /\ Fs.files w' !! "/proj/a.txt" = Some ("b" +:+ "a"))
  /\ (forall content old fuel',
        JsString.is_empty old = false ->
        String.length content < fuel' ->
        EditFile.countLoop fuel' content old 0 0
        = Some (EditFile.disjointMatches content old))
  /\ (forall content old,
        JsString.is_empty old = false ->
        (EditFile.disjointMatches content old = 1
         <-> EditFile.uniqueMatch content old))
  /\ (forall before old after new,
        (forall j, j < String.length before ->
                   ~ EditFile.occursAt (before +:+ old +:+ after) old j) ->
        JsString.has_char "$"%char new = false ->
        EditFile.replace (before +:+ old +:+ after) old new
        = before +:+ new +:+ after).
Proof.
  apply (edit_counts_without_overlap 3 "/proj" "/proj" "/tmp/moth-edit-1"
           "a.txt" "/proj/a.txt" "b" Scenario.overlapWorld);
    [reflexivity | reflexivity | reflexivity | reflexivity | discriminate
    | split; [reflexivity | now left] | lia].
Defined.

(** Two disjoint matches are counted as two, two overlapping ones as one. *)
Example disjointMatches_samples :
  map (fun p => EditFile.disjointMatches (fst p) (snd p))
    [("aaa", "aa"); ("aaaa", "aa"); ("abab", "ab"); ("ababa", "aba");
     ("abc", "x"); ("", "a")]
  = [1; 2; 2; 1; 0; 0].
Proof. reflexivity. Qed.

(** ** The shell tool *)

(** C3. The command [rm -rf /] is answered with an error result and no call
    of [spawn]; the command [echo hi | grep h] is not blocked and one
    [bash -c] subprocess is spawned for it in the project root. *)
Theorem bash_blocks_root_removal_and_runs_pipeline :
  (forall (os : Bash.SpawnCall -> Bash.ProcRun) (projectRoot : string)
          (timeout : option Z),
      Bash.execute os projectRoot (Bash.mkInput "rm -rf /" timeout)
      = ([], mkResult
               "Blocked: Command blocked: rm at filesystem root. If this is intentional, run it directly in your terminal."
               (Some true)))
  /\ Bash.isBlockedCommand "echo hi | grep h" = None
  /\ (forall (os : Bash.SpawnCall -> Bash.ProcRun) (projectRoot : string)
             (timeout : option Z),
         fst (Bash.execute os projectRoot
                (Bash.mkInput "echo hi | grep h" timeout))
         = [Bash.mkSpawn "bash" ["-c"; "echo hi | grep h"] projectRoot]).
Proof.
  split; [|split].
  - intros os projectRoot timeout. unfold Bash.execute.
    cbn [Bash.command].
    replace (Bash.isBlockedCommand "rm -rf /")
      with (Some "Command blocked: rm at filesystem root. If this is intentional, run it directly in your terminal.")
      by (vm_compute; reflexivity).
    reflexivity.
  - vm_compute; reflexivity.
  - intros os projectRoot timeout. unfold Bash.execute.
    cbn [Bash.command].
    replace (Bash.isBlockedCommand "echo hi | grep h") with (@None string)
      by (vm_compute; reflexivity).
    reflexivity.
Qed.

(** The patterns are tried on the lower-cased, trimmed command. *)
Example bash_blocks_upper_case :
  Bash.isBlockedCommand "  RM   -fr /  "
  = Some "Command blocked: rm at filesystem root. If this is intentional, run it directly in your terminal.".
Proof. vm_compute; reflexivity. Qed.

Example bash_allows_rm_below_root :
  Bash.isBlockedCommand "rm -rf /tmp/build" = None.
Proof. vm_compute; reflexivity. Qed.

(** The process runs to its end and its output is the result. *)
Example bash_pipeline_result :
  Bash.execute
    (fun _ => Bash.ProcClose [String "h" (String "i" (String "010"%char EmptyString))]
                (Some 0%Z) None false)
    "/proj" (Bash.mkInput "echo hi | grep h" None)
  = ([Bash.mkSpawn "bash" ["-c"; "echo hi | grep h"] "/proj"],
     mkResult (String "h" (String "i" (String "010"%char EmptyString)))
       (Some false)).
Proof. vm_compute; reflexivity. Qed.

(** ** JSON texts *)
Section ParserFacts.
Import Json.

(** What a successful parse leaves is shorter than what it was given. *)
Lemma parse_consumes (fuel : nat) :
  (forall ts v ts', parseValue fuel ts = POk (v, ts') ->
                    List.length ts' < List.length ts)
  /\ (forall ts acc v ts', parseElems fuel ts acc = POk (v, ts') ->
                           List.length ts' < List.length ts)
  /\ (forall ts acc v ts', parseMembers fuel ts acc = POk (v, ts') ->
                           List.length ts' < List.length ts).
Proof.
  induction fuel as [|fuel (IHv & IHe & IHm)].
  - repeat split; intros; discriminate.
  - split; [|split].
    + intros ts v ts' H. cbn [parseValue] in H.
      destruct ts as [|t r]; [discriminate|].
      destruct t; try discriminate;
        try (injection H as <- <-; cbn; lia).
      * destruct r as [|t' r']; [apply IHm in H; cbn in *; lia|].
        destruct t'; try discriminate;
          try (apply IHm in H; cbn in *; lia).
        injection H as <- <-; cbn; lia.
      * destruct r as [|t' r']; [apply IHe in H; cbn in *; lia|].
        destruct t'; try (apply IHe in H; cbn in *; lia).
        injection H as <- <-; cbn; lia.
    + intros ts acc v ts' H. cbn [parseElems] in H.
      destruct (parseValue fuel ts) as [[v0 rest]| |] eqn:E; try discriminate.
      apply IHv in E.
      destruct rest as [|t r]; [discriminate|].
      destruct t; try discriminate.
      * injection H as <- <-. cbn in E. lia.
      * apply IHe in H. cbn in E. lia.
    + intros ts acc v ts' H. cbn [parseMembers] in H.
      destruct ts as [|t r]; [discriminate|].
      destruct t; try discriminate.
      destruct r as [|t' r']; [discriminate|].
      destruct t'; try discriminate.
      destruct (parseValue fuel r') as [[v0 rest]| |] eqn:E; try discriminate.
      apply IHv in E.
      destruct rest as [|t r]; [discriminate|].
      destruct t; try discriminate.
      * injection H as <- <-. cbn in *. lia.
      * apply IHm in H. cbn in *. lia.
Qed.

(** Twice the number of tokens, and one more, is fuel enough. *)
Lemma parse_fuel (fuel : nat) :
  (forall ts, 2 * List.length ts + 1 <= fuel -> parseValue fuel ts <> PFuel)
  /\ (forall ts acc, 2 * List.length ts + 2 <= fuel ->
                     parseElems fuel ts acc <> PFuel)
  /\ (forall ts acc, 2 * List.length ts + 2 <= fuel ->
                     parseMembers fuel ts acc <> PFuel).
Proof.
  induction fuel as [|fuel (IHv & IHe & IHm)].
  - repeat split; intros; lia.
  - split; [|split].
    + intros ts Hf. cbn [parseValue].
      destruct ts as [|t r]; [discriminate|]. cbn [List.length] in Hf.
      destruct t; try discriminate.
      * destruct r as [|t' r']; [apply IHm; cbn; lia|].
        destruct t'; try discriminate; apply IHm; cbn [List.length] in *; lia.
      * destruct r as [|t' r']; [apply IHe; cbn; lia|].
        destruct t'; try discriminate; apply IHe; cbn [List.length] in *; lia.
    + intros ts acc Hf. cbn [parseElems].
      destruct (parseValue fuel ts) as [[v0 rest]| |] eqn:E; try discriminate.
      * apply (proj1 (parse_consumes fuel)) in E.
        destruct rest as [|t r]; [discriminate|].
        destruct t; try discriminate.
        apply IHe. cbn [List.length] in E. lia.
      * exfalso. revert E. apply IHv. lia.
    + intros ts acc Hf. cbn [parseMembers].
      destruct ts as [|t r]; [discriminate|].
      destruct t; try discriminate.
      destruct r as [|t' r']; [discriminate|].
      destruct t'; try discriminate.
      cbn [List.length] in Hf.
      destruct (parseValue fuel r') as [[v0 rest]| |] eqn:E; try discriminate.
      * apply (proj1 (parse_consumes fuel)) in E.
        destruct rest as [|t r]; [discriminate|].
        destruct t; try discriminate.
        apply IHm. cbn [List.length] in E. lia.
      * exfalso. revert E. apply IHv. lia.
Qed.

(** [parse] never gives up for want of fuel: when it answers [None], the
    text has no tokens, or its tokens are not one JSON value. *)
Lemma parse_none_is_syntax (text : string) :
  parse text = None ->
  lex LStart text [] = None
  \/ exists ts, lex LStart text [] = Some ts
                /\ (parseValue (2 * List.length ts + 1) ts = PSyntax
                    \/ exists v t rest,
                        parseValue (2 * List.length ts + 1) ts
                        = POk (v, t :: rest)).
Proof.
  unfold parse. destruct (lex LStart text []) as [ts|]; [|now left].
  intros H. right. exists ts. split; [reflexivity|].
  destruct (parseValue (2 * List.length ts + 1) ts) as [[v rest]| |] eqn:E.
  - destruct rest as [|t rest]; [discriminate|]. right. now exists v, t, rest.
  - now left.
  - exfalso. revert E. apply (proj1 (parse_fuel _)). lia.
Qed.

End ParserFacts.

(** A text and its value; numbers are read exactly. *)
Example parse_sample :
  Json.parse (Scenario.dq " {'n': [1, -2.50, 1e2, 0.125], 's': 'a\nbA', 't': true, 'z': null} ")
  = Some (Json.JObj [("n", Json.JArr [Json.JInt 1; Json.JNum (-25) 1;
                                       Json.JInt 100; Json.JNum 125 3]);
                     ("s", Json.JStr (String "a" (String "010" "bA")));
                     ("t", Json.JBool true); ("z", Json.JNull)]).
Proof. vm_compute; reflexivity. Qed.

Example parse_rejects :
  map Json.parse ["01"; "1."; "-"; "1 2"; "[1,]"; "nul"; "{'a':1}"; "{"]
  = [None; None; None; None; None; None; None; None].
Proof. vm_compute; reflexivity. Qed.

Example stringify_sample :
  Json.stringify
    (Json.JArr (map Provider.blockToJSON
                  [Provider.text_block "hi";
                   Provider.tool_use "c1" "echo" [("text", Json.JStr "a")];
                   Provider.tool_result "c1" "ok" false]))
  = Scenario.dq
      ("[{'type':'text','text':'hi'},"
       +:+ "{'type':'tool_use','id':'c1','name':'echo','input':{'text':'a'}},"
       +:+ "{'type':'tool_result','toolCallId':'c1','content':'ok','isError':false}]").
Proof. vm_compute; reflexivity. Qed.

(** ** The event bus *)
Section BusFacts.
Import EventBus.
Variable now : nat -> Z.

Lemma keepLast_app {A : Type} (n : nat) (l l' : list A) :
  keepLast n (keepLast n l ++ l') = keepLast n (l ++ l').
Proof.
  unfold keepLast.
  destruct (Nat.le_gt_cases (List.length l) n) as [Hle|Hgt].
  - replace (List.length l - n) with 0 by lia. reflexivity.
  - rewrite !length_app, length_drop.
    replace (List.length l - (List.length l - n) + List.length l' - n)
      with (List.length l') by lia.
    replace (List.length l + List.length l' - n)
      with ((List.length l - n) + List.length l') by lia.
    rewrite <- drop_drop. rewrite (drop_app_le l) by lia. reflexivity.
Qed.

Lemma record_history (b : Bus) (e : MothEvent) :
  history (record b e) = keepLast maxHistory (history b ++ [e]).
Proof.
  unfold record; cbn [history].
  destruct (maxHistory <? _)%nat eqn:E; [reflexivity|].
  apply Nat.ltb_ge in E. unfold keepLast.
  now replace (List.length (history b ++ [e]) - maxHistory) with 0 by lia.
Qed.

(** Handlers that do not throw on [event] only add rejections. *)
Lemma deliver_no_throw (emit' : Bus -> MothEvent -> option Bus)
  (event : MothEvent) (hs : list Handler) (b : Bus) :
  (forall h, In h hs -> match run h event with Throws _ => False | _ => True end) ->
  deliver now emit' event hs b
  = Some (mkBus (handlers b) (history b) (rejected b ++ rejectedBy hs event)
            (ticks b)).
Proof.
  revert b; induction hs as [|h hs IH]; intros b Hq.
  - cbn. rewrite app_nil_r. now destruct b.
  - assert (Hh := Hq h (or_introl eq_refl)).
    assert (Hrest : forall h', In h' hs ->
              match run h' event with Throws _ => False | _ => True end)
      by (intros h' Hin; apply Hq; now right).
    cbn [deliver rejectedBy].
    destruct (run h event) eqn:E; try contradiction.
    + rewrite (IH _ Hrest). reflexivity.
    + rewrite (IH _ Hrest). reflexivity.
    + rewrite (IH _ Hrest). cbn. now rewrite <- app_assoc.
Qed.

Lemma emit_quiet_error (fuel : nat) (bus : Bus) (ev : MothEvent) :
  quietOnErrors bus ->
  eventType ev = "system:error" ->
  emit now (S fuel) bus ev
  = Some (mkBus (handlers bus) (keepLast maxHistory (history bus ++ [ev]))
            (rejected bus
             ++ rejectedBy (handlersFor "system:error" (handlers bus)) ev)
            (ticks bus)).
Proof.
  intros Hq Hty. cbn [emit]. rewrite Hty.
  rewrite deliver_no_throw.
  - now rewrite record_history.
  - intros h Hin. now apply Hq.
Qed.

(** The loop over the handlers of an event, when the subscribers of
    [system:error] do not throw: it ends, and each failure is published. *)
Lemma deliver_republishes (fuel : nat) (event : MothEvent) (hs : list Handler)
  (b : Bus) (H : list MothEvent) :
  quietOnErrors b ->
  history b = keepLast maxHistory H ->
  exists b',
    deliver now (emit now (S fuel)) event hs b = Some b'
    /\ handlers b' = handlers b
    /\ ticks b' = ticks b + List.length (thrownBy hs event)
    /\ history b'
       = keepLast maxHistory (H ++ republished now (ticks b) (thrownBy hs event))
    /\ exists l, rejected b' = rejected b ++ l
                 /\ forall err, In err (rejectedBy hs event) -> In err l.
Proof.
  revert b H; induction hs as [|h hs IH]; intros b H Hq Hh.
  - exists b. cbn. rewrite app_nil_r.
    repeat (split; [first [reflexivity | lia | assumption]|]).
    exists []. now rewrite app_nil_r.
  - cbn [deliver thrownBy rejectedBy].
    destruct (run h event) as [|err| |err] eqn:E.
    + apply IH; assumption.
    + unfold errorEvent.
      rewrite (emit_quiet_error fuel); [|exact Hq|reflexivity].
      cbn [handlers history rejected ticks].
      set (ev := system_error (toError err) false (now (ticks b))).
      set (b2 := mkBus _ _ _ _).
      destruct (IH b2 (H ++ [ev])) as (b' & Hd & Hhs & Ht & Hhist & l & Hl & Hin).
      * exact Hq.
      * subst b2; cbn [history]. now rewrite Hh, keepLast_app.
      * exists b'. split; [exact Hd|]. split; [exact Hhs|].
        split; [rewrite Ht; subst b2; cbn; lia|].
        split.
        { rewrite Hhist. subst b2; cbn [ticks republished].
          now rewrite <- app_assoc. }
        subst b2; cbn [rejected] in Hl. rewrite <- app_assoc in Hl.
        eexists; split; [exact Hl|].
        intros e He. apply in_or_app. right. now apply Hin.
    + apply IH; assumption.
    + set (b2 := mkBus _ _ _ _).
      destruct (IH b2 H) as (b' & Hd & Hhs & Ht & Hhist & l & Hl & Hin);
        [exact Hq | exact Hh |].
      exists b'. split; [exact Hd|]. split; [exact Hhs|].
      split; [exact Ht|]. split; [exact Hhist|].
      subst b2; cbn [rejected] in Hl. rewrite <- app_assoc in Hl.
      eexists; split; [exact Hl|].
      intros e [<-|He]; [now left | right; now apply Hin].
Qed.

(** A subscriber of [system:error] that throws on every event makes the
    nesting of [emit] exceed every bound. *)
Lemma emit_error_storm (fuel : nat) (bus : Bus) (ev : MothEvent) (h : Handler)
  (hs : list Handler) :
  handlersFor "system:error" (handlers bus) = h :: hs ->
  (forall e, exists err, run h e = Throws err) ->
  eventType ev = "system:error" ->
  emit now fuel bus ev = None.
Proof.
  intros Hh Hthrow. revert bus ev Hh.
  induction fuel as [|fuel IH]; intros bus ev Hh Hty; [reflexivity|].
  cbn [emit record handlers]. rewrite Hty, Hh. cbn [deliver].
  destruct (Hthrow ev) as [err ->]. unfold errorEvent.
  now rewrite IH.
Qed.

End BusFacts.

(** C6, as the code has it. When no subscriber of [system:error] throws,
    [emit] returns to the publisher whatever the handlers of the event do:
    each exception thrown by a handler is published on the same bus as a
    non-fatal [system:error] event, in subscription order, each rejection is
    queued and published in the same way when its callback runs. *)
Theorem emit_republishes_handler_failures
  (now : nat -> Z) (fuel : nat) (bus : EventBus.Bus)
  (event : EventBus.MothEvent) :
  EventBus.quietOnErrors bus ->
  let hs := EventBus.handlersFor (EventBus.eventType event)
              (EventBus.handlers bus) in
  (exists bus',
      EventBus.emit now (S (S fuel)) bus event = Some bus'
      /\ EventBus.handlers bus' = EventBus.handlers bus
      /\ EventBus.history bus'
         = EventBus.keepLast EventBus.maxHistory
             (EventBus.history bus
              ++ event :: EventBus.republished now (EventBus.ticks bus)
                            (EventBus.thrownBy hs event))
      /\ exists l,
          EventBus.rejected bus' = EventBus.rejected bus ++ l
          /\ forall err, In err (EventBus.rejectedBy hs event) -> In err l)
  /\ (forall err rest,
         EventBus.rejected bus = err :: rest ->
         exists bus',
           EventBus.runRejection now (S fuel) bus = Some bus'
           /\ EventBus.history bus'
              = EventBus.keepLast EventBus.maxHistory
                  (EventBus.history bus
                   ++ [EventBus.system_error (EventBus.toError err) false
                         (now (EventBus.ticks bus))])).
Proof.
  intros Hq hs. split.
  - cbn [EventBus.emit].
    destruct (deliver_republishes now fuel event hs (EventBus.record bus event)
                (EventBus.history bus ++ [event]) Hq (record_history _ _))
      as (b' & Hd & Hhs & _ & Hhist & Hrej).
    exists b'. split; [exact Hd|]. split; [exact Hhs|]. split; [|exact Hrej].
    rewrite Hhist. cbn [EventBus.record EventBus.ticks].
    now rewrite <- app_assoc.
  - intros err rest Hrej. unfold EventBus.runRejection. rewrite Hrej.
    unfold EventBus.errorEvent. cbn [EventBus.handlers EventBus.history EventBus.ticks].
    rewrite emit_quiet_error; [|exact Hq|reflexivity].
    eexists; split; [reflexivity|]. reflexivity.
Qed.

Lemma emit_republishes_handler_failures_witness :
  (exists bus',
      EventBus.emit Scenario.clock0 2 Scenario.loggedBus
        (EventBus.agent_text "hi" 7) = Some bus'
      /\ EventBus.handlers bus' = EventBus.handlers Scenario.loggedBus
      /\ EventBus.history bus'
         = EventBus.keepLast EventBus.maxHistory
             (EventBus.history Scenario.loggedBus
              ++ EventBus.agent_text "hi" 7
                 :: EventBus.republished Scenario.clock0
                      (EventBus.ticks Scenario.loggedBus)
                      (EventBus.thrownBy
                         (EventBus.handlersFor
                            (EventBus.eventType (EventBus.agent_text "hi" 7))
                            (EventBus.handlers Scenario.loggedBus))
                         (EventBus.agent_text "hi" 7)))
      /\ exists l,
          EventBus.rejected bus' = EventBus.rejected Scenario.loggedBus ++ l
          /\ forall err,
              In err (EventBus.rejectedBy
                        (EventBus.handlersFor
                           (EventBus.eventType (EventBus.agent_text "hi" 7))
                           (EventBus.handlers Scenario.loggedBus))
                        (EventBus.agent_text "hi" 7)) -> In err l)
  /\ (forall err rest,
         EventBus.rejected Scenario.loggedBus = err :: rest ->
         exists bus',
           EventBus.runRejection Scenario.clock0 1 Scenario.loggedBus = Some bus'
           /\ EventBus.history bus'
              = EventBus.keepLast EventBus.maxHistory
                  (EventBus.history Scenario.loggedBus
                   ++ [EventBus.system_error (EventBus.toError err) false
                         (Scenario.clock0 (EventBus.ticks Scenario.loggedBus))])).
Proof.
  apply (emit_republishes_handler_failures Scenario.clock0 0 Scenario.loggedBus
           (EventBus.agent_text "hi" 7)).
  intros h e [<-|[]] _. exact I.
Defined.

(** What the call of the witness publishes, spelled out. *)
Example emit_logged_history :
  option_map EventBus.history
    (EventBus.emit Scenario.clock0 2 Scenario.loggedBus
       (EventBus.agent_text "hi" 7))
  = Some [EventBus.agent_text "hi" 7;
          EventBus.system_error (mkError "Error" "boom") false 1000].
Proof. reflexivity. Qed.

(** C6, as stated, fails: with a subscriber of [system:error] that throws,
    one throwing handler of [agent:text] is enough for [emit] not to return
    within any bound on the nesting of its calls. *)
Lemma emit_throwing_error_subscriber_never_returns :
  EventBus.handlersFor "agent:text" (EventBus.handlers Scenario.stormBus)
  = [Scenario.thrower 1]
  /\ EventBus.handlersFor "system:error" (EventBus.handlers Scenario.stormBus)
     = [Scenario.thrower 2]
  /\ forall (now : nat -> Z) (fuel : nat),
      EventBus.emit now fuel Scenario.stormBus (EventBus.agent_text "hi" 0)
      = None.
Proof.
  split; [reflexivity|]. split; [reflexivity|].
  intros now [|fuel]; [reflexivity|].
  cbn [EventBus.emit EventBus.record EventBus.handlers EventBus.eventType].
  change (EventBus.handlersFor "agent:text" (EventBus.handlers Scenario.stormBus))
    with [Scenario.thrower 1].
  cbn [EventBus.deliver Scenario.thrower EventBus.run].
  unfold EventBus.errorEvent.
  rewrite (emit_error_storm now fuel _ _ (Scenario.thrower 2) []);
    [reflexivity | reflexivity | | reflexivity].
  intros e. now exists (EventBus.ThrownOther "boom").
Qed.

(** ** The agent loop *)

(** C8. A call of [processMessage] while the loop is not idle publishes one
    recoverable [agent:error] event and changes nothing else: the history,
    the state and the token counters are those of before the call. *)
Theorem processMessage_rejected_when_busy
  (w : AgentLoop.World) (provider : Provider.ModelProvider)
  (tools : list Tools.Tool) (config : AgentLoop.AgentConfig)
  (userMessage : string) (l : AgentLoop.Loop) :
  AgentLoop.state l <> AgentLoop.idle ->
  AgentLoop.processMessage w provider tools config userMessage l
  = (tt, AgentLoop.mkLoop (AgentLoop.history l) (AgentLoop.state l)
           (AgentLoop.totalTokensIn l) (AgentLoop.totalTokensOut l)
           (AgentLoop.pendingApproval l)
           (AgentLoop.emitted l
            ++ [EventBus.agent_error AgentLoop.busyError true
                  (AgentLoop.now w (AgentLoop.ticks l))])
           (S (AgentLoop.ticks l)) (AgentLoop.modelCalls l)
           (AgentLoop.approvals l) (AgentLoop.toolRuns l)).
Proof.
  intros Hbusy. unfold AgentLoop.processMessage, AgentLoop.bind, AgentLoop.get.
  destruct (AgentLoop.state l) eqn:E; [contradiction | ..];
    cbn; rewrite E; reflexivity.
Qed.

Lemma processMessage_rejected_when_busy_witness :
  AgentLoop.processMessage Scenario.world0 Scenario.alwaysTool
    [Scenario.echoTool] Scenario.twoTurns "again"
    (AgentLoop.mkLoop Scenario.heavyAnchor AgentLoop.processing_tools 7 3 None
       [] 4 1 0 0)
  = (tt, AgentLoop.mkLoop Scenario.heavyAnchor AgentLoop.processing_tools 7 3
           None
           [EventBus.agent_error AgentLoop.busyError true
              (AgentLoop.now Scenario.world0 4)]
           5 1 0 0).
Proof.
  apply (processMessage_rejected_when_busy Scenario.world0 Scenario.alwaysTool
           [Scenario.echoTool] Scenario.twoTurns "again"
           (AgentLoop.mkLoop Scenario.heavyAnchor AgentLoop.processing_tools
              7 3 None [] 4 1 0 0)).
  discriminate.
Defined.

Section ExecuteToolFacts.
Import AgentLoop.
Variable w : World.
Variable tools : list Tools.Tool.
Variable config : AgentConfig.

(** What [executeTool] leaves behind: the events it published, [pre] and
    then one [tool:complete], and nothing else touched in the history. *)
Definition completes (toolId : string) (l : Loop) (out : ToolResult * Loop)
  : Prop :=
  exists pre durationMs t,
    emitted (snd out)
    = emitted l ++ pre
      ++ [EventBus.tool_complete toolId (ToolTypes.content (fst out))
            (isErrorOrFalse (fst out)) durationMs t]
    /\ Forall (fun e => match e with
                        | EventBus.tool_approval_required _ _ _ _
                        | EventBus.tool_executing _ _ _ => True
                        | _ => False
                        end) pre
    /\ (durationMs = 0%Z
        \/ exists i, durationMs = (now w (S i) - now w i)%Z)
    /\ history (snd out) = history l.

Lemma complete_completes (toolId : string) (result : ToolResult) (d : Z)
  (l0 l : Loop) (pre : list EventBus.MothEvent) :
  emitted l = emitted l0 ++ pre ->
  history l = history l0 ->
  Forall (fun e => match e with
                   | EventBus.tool_approval_required _ _ _ _
                   | EventBus.tool_executing _ _ _ => True
                   | _ => False
                   end) pre ->
  (d = 0%Z \/ exists i, d = (now w (S i) - now w i)%Z) ->
  completes toolId l0 (complete w toolId result d l).
Proof.
  intros He Hh Hpre Hd. exists pre, d, (now w (ticks l)).
  cbn. rewrite He, <- app_assoc. auto.
Qed.

Ltac complete_side :=
  first [ now rewrite app_nil_r
        | (cbn; rewrite <- ?app_assoc; reflexivity)
        | (match goal with |- Forall _ _ => repeat constructor end)
        | (now left)
        | (right; eexists; reflexivity) ].

Lemma executeTool_completes (toolId toolName : string) (input : Json.JObject)
  (l : Loop) :
  completes toolId l (executeTool w tools config toolId toolName input l).
Proof.
  unfold executeTool.
  destruct (toolMap tools !! toolName) as [tl|].
  2:{ apply (complete_completes _ _ _ l l []); complete_side. }
  destruct (Tools.valid _); cbn [negb].
  2:{ apply (complete_completes _ _ _ l l []); complete_side. }
  unfold bind at 1.
  set (gate := match Tools.requiresConfirmation tl with
               | Some b => b | None => false end && confirmDestructive config).
  destruct gate.
  - unfold requestApproval. cbn -[complete executeTool].
    destruct (decision w (approvals l)); cbn -[complete].
    + destruct (Tools.execute tl (toolRuns l) input); cbn -[complete];
        eapply (complete_completes _ _ _ l _ [_; _]); complete_side.
    + eapply (complete_completes _ _ _ l _ [_]); complete_side.
    + eapply (complete_completes _ _ _ l _ [_]); complete_side.
  - cbn -[complete].
    destruct (Tools.execute tl (toolRuns l) input); cbn -[complete];
      eapply (complete_completes _ _ _ l _ [_]); complete_side.
Qed.

End ExecuteToolFacts.

(** C4. Every call of [executeTool] that comes to an end, whichever way
    (unknown tool, invalid input, denial or cancellation, success or
    tool-level failure, rejection, timeout), publishes exactly one
    [tool:complete] event, after at most an approval request and an
    [executing] notice; the event carries the content and the error flag of
    the result and the elapsed duration: zero when the tool was not run,
    and otherwise the clock reading taken right after the run minus the
    one taken right before it, which is the reading that follows the
    [executing] notice. *)
Theorem executeTool_publishes_one_complete
  (w : AgentLoop.World) (tools : list Tools.Tool)
  (config : AgentLoop.AgentConfig) (toolId toolName : string)
  (input : Json.JObject) (l : AgentLoop.Loop) :
  let out := AgentLoop.executeTool w tools config toolId toolName input l in
  (exists pre durationMs t,
      AgentLoop.emitted (snd out)
      = AgentLoop.emitted l ++ pre
        ++ [EventBus.tool_complete toolId (ToolTypes.content (fst out))
              (isErrorOrFalse (fst out)) durationMs t]
      /\ Forall (fun e => AgentLoop.isToolComplete e = false) pre
      /\ ((AgentLoop.toolRuns (snd out) = AgentLoop.toolRuns l
           /\ durationMs = 0%Z
           /\ Forall (fun e => match e with
                               | EventBus.tool_executing _ _ _ => False
                               | _ => True
                               end) pre)
          \/ (AgentLoop.toolRuns (snd out) = S (AgentLoop.toolRuns l)
              /\ exists k asked,
                   pre = asked
                         ++ [EventBus.tool_executing toolId toolName
                               (AgentLoop.now w k)]
                   /\ durationMs
                      = (AgentLoop.now w (S (S k)) - AgentLoop.now w (S k))%Z
                   /\ t = AgentLoop.now w (S (S (S k)))
                   /\ AgentLoop.ticks l <= k
                   /\ AgentLoop.ticks (snd out) = S (S (S (S k))))))
  /\ List.length (List.filter AgentLoop.isToolComplete
                    (AgentLoop.emitted (snd out)))
     = S (List.length (List.filter AgentLoop.isToolComplete
                         (AgentLoop.emitted l))).
Proof.
  intros out.
  assert (Hone : exists pre durationMs t,
      AgentLoop.emitted (snd out)
      = AgentLoop.emitted l ++ pre
        ++ [EventBus.tool_complete toolId (ToolTypes.content (fst out))
              (isErrorOrFalse (fst out)) durationMs t]
      /\ Forall (fun e => AgentLoop.isToolComplete e = false) pre
      /\ ((AgentLoop.toolRuns (snd out) = AgentLoop.toolRuns l
           /\ durationMs = 0%Z
           /\ Forall (fun e => match e with
                               | EventBus.tool_executing _ _ _ => False
                               | _ => True
                               end) pre)
          \/ (AgentLoop.toolRuns (snd out) = S (AgentLoop.toolRuns l)
              /\ exists k asked,
                   pre = asked
                         ++ [EventBus.tool_executing toolId toolName
                               (AgentLoop.now w k)]
                   /\ durationMs
                      = (AgentLoop.now w (S (S k)) - AgentLoop.now w (S k))%Z
                   /\ t = AgentLoop.now w (S (S (S k)))
                   /\ AgentLoop.ticks l <= k
                   /\ AgentLoop.ticks (snd out) = S (S (S (S k)))))).
  { subst out. unfold AgentLoop.executeTool.
    destruct (AgentLoop.toolMap tools !! toolName) as [tl|].
    2:{ exists [], 0%Z, (AgentLoop.now w (AgentLoop.ticks l)).
        split; [reflexivity|]. split; [constructor|]. left.
        repeat split; constructor. }
    destruct (Tools.valid _); cbn [negb].
    2:{ exists [], 0%Z, (AgentLoop.now w (AgentLoop.ticks l)).
        split; [reflexivity|]. split; [constructor|]. left.
        repeat split; constructor. }
    destruct (match Tools.requiresConfirmation tl with
              | Some b => b | None => false end
              && AgentLoop.confirmDestructive config);
      unfold AgentLoop.requestApproval, AgentLoop.complete, AgentLoop.bind,
        AgentLoop.dateNow, AgentLoop.emit, AgentLoop.setState,
        AgentLoop.setPending, AgentLoop.nextApproval, AgentLoop.nextToolRun,
        AgentLoop.ret;
      cbn [AgentLoop.history AgentLoop.modelCalls AgentLoop.ticks
           AgentLoop.emitted AgentLoop.state AgentLoop.totalTokensIn
           AgentLoop.totalTokensOut AgentLoop.pendingApproval
           AgentLoop.approvals AgentLoop.toolRuns fst snd negb].
    - destruct (AgentLoop.decision w (AgentLoop.approvals l));
        cbn [AgentLoop.history AgentLoop.modelCalls AgentLoop.ticks
             AgentLoop.emitted AgentLoop.state AgentLoop.totalTokensIn
             AgentLoop.totalTokensOut AgentLoop.pendingApproval
             AgentLoop.approvals AgentLoop.toolRuns fst snd negb].
      + exists [EventBus.tool_approval_required toolId toolName input
                  (AgentLoop.now w (AgentLoop.ticks l));
                EventBus.tool_executing toolId toolName
                  (AgentLoop.now w (S (AgentLoop.ticks l)))].
        destruct (Tools.execute tl (AgentLoop.toolRuns l) input);
          cbn [AgentLoop.history AgentLoop.modelCalls AgentLoop.ticks
               AgentLoop.emitted AgentLoop.state AgentLoop.totalTokensIn
               AgentLoop.totalTokensOut AgentLoop.pendingApproval
               AgentLoop.approvals AgentLoop.toolRuns fst snd];
          eexists _, _; (split; [now rewrite <- !app_assoc|]);
          (split; [repeat constructor|]); right; (split; [reflexivity|]);
          exists (S (AgentLoop.ticks l)),
            [EventBus.tool_approval_required toolId toolName input
               (AgentLoop.now w (AgentLoop.ticks l))];
          repeat split; lia.
      + exists [EventBus.tool_approval_required toolId toolName input
                  (AgentLoop.now w (AgentLoop.ticks l))], 0%Z.
        eexists. split; [now rewrite <- !app_assoc|].
        split; [repeat constructor|]. left. repeat split; repeat constructor.
      + exists [EventBus.tool_approval_required toolId toolName input
                  (AgentLoop.now w (AgentLoop.ticks l))], 0%Z.
        eexists. split; [now rewrite <- !app_assoc|].
        split; [repeat constructor|]. left. repeat split; repeat constructor.
    - exists [EventBus.tool_executing toolId toolName
                (AgentLoop.now w (AgentLoop.ticks l))].
      destruct (Tools.execute tl (AgentLoop.toolRuns l) input);
        cbn [AgentLoop.history AgentLoop.modelCalls AgentLoop.ticks
             AgentLoop.emitted AgentLoop.state AgentLoop.totalTokensIn
             AgentLoop.totalTokensOut AgentLoop.pendingApproval
             AgentLoop.approvals AgentLoop.toolRuns fst snd];
        eexists _, _; (split; [now rewrite <- !app_assoc|]);
        (split; [repeat constructor|]); right; (split; [reflexivity|]);
        exists (AgentLoop.ticks l), []; repeat split; lia. }
  split; [exact Hone|].
  destruct Hone as (pre & d & t & He & Hnone & _).
  rewrite He, !List.filter_app, !List.length_app. cbn.
  assert (Hpre0 : List.filter AgentLoop.isToolComplete pre = []).
  { clear -Hnone. induction Hnone as [|e pre He _ IH]; [reflexivity|].
    cbn. now rewrite He. }
  rewrite Hpre0. cbn. lia.
Qed.

(** The three ways of not running the tool, and a run. *)
Example executeTool_unknown :
  AgentLoop.executeTool Scenario.world0 [Scenario.echoTool]
    Scenario.twoTurns "t1" "nope" [] AgentLoop.initial
  = (mkResult "Unknown tool: nope" (Some true),
     AgentLoop.mkLoop [] AgentLoop.idle 0 0 None
       [EventBus.tool_complete "t1" "Unknown tool: nope" true 0 1000]
       1 0 0 0).
Proof. reflexivity. Qed.

Example executeTool_invalid :
  AgentLoop.executeTool Scenario.world0 [Scenario.echoTool]
    Scenario.twoTurns "t1" "echo" [("text", Json.JInt 3)] AgentLoop.initial
  = (mkResult "Invalid input for echo: Field 'text' expected string, got number"
       (Some true),
     AgentLoop.mkLoop [] AgentLoop.idle 0 0 None
       [EventBus.tool_complete "t1"
          "Invalid input for echo: Field 'text' expected string, got number"
          true 0 1000]
       1 0 0 0).
Proof. reflexivity. Qed.

Example executeTool_denied :
  AgentLoop.executeTool Scenario.denyingWorld [Scenario.slowTool]
    Scenario.twoTurns "t1" "slow" [] AgentLoop.initial
  = (mkResult "Tool execution denied by user." (Some true),
     AgentLoop.mkLoop [] AgentLoop.waiting_approval 0 0
       (Some (AgentLoop.mkPending "t1" "slow" []))
       [EventBus.tool_approval_required "t1" "slow" [] 1000;
        EventBus.tool_complete "t1" "Tool execution denied by user." true 0 1001]
       2 0 1 0).
Proof. reflexivity. Qed.

Example executeTool_timeout :
  AgentLoop.executeTool Scenario.world0 [Scenario.slowTool]
    Scenario.twoTurns "t1" "slow" [] AgentLoop.initial
  = (mkResult "Tool error: Tool slow timed out after 120000ms" (Some true),
     AgentLoop.mkLoop [] AgentLoop.waiting_approval 0 0
       (Some (AgentLoop.mkPending "t1" "slow" []))
       [EventBus.tool_approval_required "t1" "slow" [] 1000;
        EventBus.tool_executing "t1" "slow" 1001;
        EventBus.tool_complete "t1"
          "Tool error: Tool slow timed out after 120000ms" true 1 1004]
       5 0 1 1).
Proof. reflexivity. Qed.

Section TrimFacts.
Import AgentLoop.
Variable w : World.
Variable config : AgentConfig.

Lemma fold_estimate (h : list Provider.ChatMessage) (a : Z) :
  fold_left (fun sum msg => (sum + estimateTokens msg)%Z) h a
  = (a + totalEstimate h)%Z.
Proof.
  unfold totalEstimate. revert a; induction h as [|m h IH]; intros a; cbn.
  - lia.
  - rewrite IH, (IH (0 + estimateTokens m)%Z). lia.
Qed.

Lemma totalEstimate_cons (m : Provider.ChatMessage)
  (h : list Provider.ChatMessage) :
  totalEstimate (m :: h) = (estimateTokens m + totalEstimate h)%Z.
Proof. unfold totalEstimate at 1. cbn. now rewrite fold_estimate. Qed.

Lemma totalEstimate_app (a b : list Provider.ChatMessage) :
  totalEstimate (a ++ b) = (totalEstimate a + totalEstimate b)%Z.
Proof.
  induction a as [|m a IH]; [reflexivity|].
  cbn [app]. rewrite !totalEstimate_cons, IH. lia.
Qed.

Lemma trimLoop_step (m m' : Provider.ChatMessage)
  (rest : list Provider.ChatMessage) (total : Z) (removed : nat) :
  trimLoop config (m :: m' :: rest) total removed
  = if overTarget total (contextWindowTokens config)
    then trimLoop config (m' :: rest) (total - estimateTokens m) (S removed)
    else (m :: m' :: rest, total, removed).
Proof. reflexivity. Qed.

(** The loop removes a prefix of the messages that follow the anchor, counts
    it, keeps the running total exact, and stops under the target or with
    one message left after the anchor. *)
Lemma trimLoop_spec (rest : list Provider.ChatMessage) (total : Z)
  (removed : nat) :
  exists removedMsgs kept,
    trimLoop config rest total removed
    = (kept, (total - totalEstimate removedMsgs)%Z,
       removed + List.length removedMsgs)
    /\ rest = removedMsgs ++ kept
    /\ (overTarget (total - totalEstimate removedMsgs)
          (contextWindowTokens config) = false
        \/ List.length kept <= 1).
Proof.
  revert total removed; induction rest as [|m rest IH]; intros total removed.
  - exists [], []. cbn. split; [f_equal; [f_equal; cbn; lia | cbn; lia]|]. split; [reflexivity|].
    right; lia.
  - destruct rest as [|m' rest'].
    + exists [], [m]. cbn. split; [f_equal; [f_equal; cbn; lia | cbn; lia]|].
      split; [reflexivity|]. right; lia.
    + rewrite trimLoop_step.
      destruct (overTarget total (contextWindowTokens config)) eqn:E.
      * destruct (IH (total - estimateTokens m)%Z (S removed))
          as (rm & kept & Hloop & Hrest & Hstop).
        exists (m :: rm), kept. rewrite Hloop, totalEstimate_cons.
        split; [f_equal; [f_equal; lia | cbn; lia]|].
        split; [now rewrite Hrest|].
        destruct Hstop as [Hstop|Hstop]; [left | now right].
        rewrite <- Hstop. f_equal. lia.
      * exists [], (m :: m' :: rest'). cbn.
        split; [f_equal; [f_equal; cbn; lia | cbn; lia]|]. split; [reflexivity|].
        left. rewrite <- E. f_equal. lia.
Qed.

End TrimFacts.

(** C9, as the code has it. When trimming runs on a history whose estimate
    exceeds the budget, the messages removed are a run that starts just
    after the first message, which stays first; afterwards the estimate is
    at most 80% of the budget or no more than two messages remain; one
    [context_trimmed] event with the number of removed messages is published
    when that number is not zero, none otherwise. *)
Theorem trimContext_keeps_anchor
  (w : AgentLoop.World) (config : AgentLoop.AgentConfig) (l : AgentLoop.Loop)
  (first : Provider.ChatMessage) (rest : list Provider.ChatMessage) :
  AgentLoop.history l = first :: rest ->
  (AgentLoop.contextWindowTokens config
   < AgentLoop.totalEstimate (AgentLoop.history l))%Z ->
  let l' := snd (AgentLoop.trimContextIfNeeded w config l) in
  exists removedMsgs kept,
    rest = removedMsgs ++ kept
    /\ AgentLoop.history l' = first :: kept
    /\ ((5 * AgentLoop.totalEstimate (AgentLoop.history l')
         <= 4 * AgentLoop.contextWindowTokens config)%Z
        \/ List.length (AgentLoop.history l') <= 2)
    /\ AgentLoop.emitted l'
       = AgentLoop.emitted l
         ++ match removedMsgs with
            | [] => []
            | _ => [EventBus.session_context_trimmed (List.length removedMsgs)
                      (AgentLoop.now w (AgentLoop.ticks l))]
            end
    /\ AgentLoop.state l' = AgentLoop.state l.
Proof.
  intros Hh Hover l'. subst l'.
  unfold AgentLoop.trimContextIfNeeded, AgentLoop.bind, AgentLoop.get.
  apply Z.leb_gt in Hover. rewrite Hover, Hh.
  destruct (trimLoop_spec config rest
              (AgentLoop.totalEstimate (first :: rest)) 0)
    as (rm & kept & Hloop & Hrest & Hstop).
  rewrite Hloop. exists rm, kept. split; [exact Hrest|].
  assert (Htotal : AgentLoop.totalEstimate (first :: kept)
                   = (AgentLoop.totalEstimate (first :: rest)
                      - AgentLoop.totalEstimate rm)%Z).
  { rewrite !totalEstimate_cons, Hrest, totalEstimate_app. lia. }
  destruct rm as [|m rm]; cbn -[AgentLoop.totalEstimate Z.mul Z.le].
  - split; [reflexivity|]. split; [|split; [now rewrite app_nil_r | reflexivity]].
    destruct Hstop as [Hstop|Hstop]; [left | right; cbn; lia].
    rewrite Htotal. unfold AgentLoop.overTarget in Hstop.
    apply Z.ltb_ge in Hstop. lia.
  - split; [reflexivity|]. split; [|split; reflexivity].
    destruct Hstop as [Hstop|Hstop]; [left | right; cbn; lia].
    rewrite Htotal. unfold AgentLoop.overTarget in Hstop.
    apply Z.ltb_ge in Hstop. lia.
Qed.

Lemma trimContext_keeps_anchor_witness :
  exists removedMsgs kept,
    [Scenario.textMessage Provider.assistant "ok";
     Scenario.textMessage Provider.user "next"] = removedMsgs ++ kept
    /\ AgentLoop.history
         (snd (AgentLoop.trimContextIfNeeded Scenario.world0
                 Scenario.smallBudget (Scenario.loopWith Scenario.heavyAnchor)))
       = Scenario.textMessage Provider.user
           "0123456789012345678901234567890123456789" :: kept
    /\ ((5 * AgentLoop.totalEstimate
               (AgentLoop.history
                  (snd (AgentLoop.trimContextIfNeeded Scenario.world0
                          Scenario.smallBudget
                          (Scenario.loopWith Scenario.heavyAnchor))))
         <= 4 * AgentLoop.contextWindowTokens Scenario.smallBudget)%Z
        \/ List.length
             (AgentLoop.history
                (snd (AgentLoop.trimContextIfNeeded Scenario.world0
                        Scenario.smallBudget
                        (Scenario.loopWith Scenario.heavyAnchor)))) <= 2)
    /\ AgentLoop.emitted
         (snd (AgentLoop.trimContextIfNeeded Scenario.world0
                 Scenario.smallBudget (Scenario.loopWith Scenario.heavyAnchor)))
       = AgentLoop.emitted (Scenario.loopWith Scenario.heavyAnchor)
         ++ match removedMsgs with
            | [] => []
            | _ => [EventBus.session_context_trimmed (List.length removedMsgs)
                      (AgentLoop.now Scenario.world0
                         (AgentLoop.ticks (Scenario.loopWith Scenario.heavyAnchor)))]
            end
    /\ AgentLoop.state
         (snd (AgentLoop.trimContextIfNeeded Scenario.world0
                 Scenario.smallBudget (Scenario.loopWith Scenario.heavyAnchor)))
       = AgentLoop.state (Scenario.loopWith Scenario.heavyAnchor).
Proof.
  apply (trimContext_keeps_anchor Scenario.world0 Scenario.smallBudget
           (Scenario.loopWith Scenario.heavyAnchor)
           (Scenario.textMessage Provider.user
              "0123456789012345678901234567890123456789")
           [Scenario.textMessage Provider.assistant "ok";
            Scenario.textMessage Provider.user "next"]);
    [reflexivity | vm_compute; reflexivity].
Defined.

(** C9, as stated, fails: the estimate of this history, 12, exceeds the
    budget, 5; trimming removes the one message it may remove and leaves an
    estimate of 11, far over 80% of the budget. *)
Lemma trimContext_may_stay_over_target :
  (AgentLoop.contextWindowTokens Scenario.smallBudget
   < AgentLoop.totalEstimate Scenario.heavyAnchor)%Z
  /\ AgentLoop.history
       (snd (AgentLoop.trimContextIfNeeded Scenario.world0 Scenario.smallBudget
               (Scenario.loopWith Scenario.heavyAnchor)))
     = [Scenario.textMessage Provider.user
          "0123456789012345678901234567890123456789";
        Scenario.textMessage Provider.user "next"]
  /\ AgentLoop.totalEstimate
       (AgentLoop.history
          (snd (AgentLoop.trimContextIfNeeded Scenario.world0
                  Scenario.smallBudget (Scenario.loopWith Scenario.heavyAnchor))))
     = 11%Z
  /\ (4 * AgentLoop.contextWindowTokens Scenario.smallBudget < 5 * 11)%Z.
Proof. repeat split. Qed.

Section TurnFacts.
Import AgentLoop Provider.
Variable w : World.
Variable provider : ModelProvider.
Variable tools : list Tools.Tool.
Variable config : AgentConfig.

(** No [agent:error] event was published between [l] and [l']. *)
Definition noNewErrors (l l' : Loop) : Prop :=
  List.filter isAgentError (emitted l')
  = List.filter isAgentError (emitted l).

Definition silentEvent (ev : ProviderEvent Json.JObject) : Prop :=
  match ev with
  | tool_call_start _ _ | tool_call_delta _ _ | done _ => True
  | _ => False
  end.

Lemma consume_silent (evs : list (ProviderEvent Json.JObject)) (acc : Turn)
  (l : Loop) :
  Forall silentEvent evs ->
  exists u,
    consume w evs acc l
    = (Ok (mkTurn (textAccumulator acc) (toolCalls acc) u), l).
Proof.
  intros H; revert acc; induction H as [|ev evs Hev _ IH]; intros acc.
  - exists (usage acc). now destruct acc.
  - destruct ev; try contradiction; cbn [consume].
    + apply IH.
    + apply IH.
    + destruct (IH (mkTurn (textAccumulator acc) (toolCalls acc) usage0))
        as [u Hu].
      exists u. exact Hu.
Qed.

Lemma consume_app (a b : list (ProviderEvent Json.JObject)) (acc : Turn)
  (l : Loop) :
  consume w (a ++ b) acc l
  = match consume w a acc l with
    | (Ok acc', l') => consume w b acc' l'
    | (Err e, l') => (Err e, l')
    end.
Proof.
  revert acc l; induction a as [|ev a IH]; intros acc l; [reflexivity|].
  cbn [app consume]. destruct ev; first [apply IH | reflexivity].
Qed.

(** A turn with one tool call and no text: the assistant message holds the
    one [tool_use] block and no error is published. *)
Lemma callModel_one_tool (l : Loop) :
  oneToolCallNoText (streamChat provider (modelCalls l) (history l)) ->
  exists id name input l',
    callModel w provider l = (Some [tool_use id name input], l')
    /\ history l'
       = history l ++ [mkMessage assistant (Blocks [tool_use id name input]) None]
    /\ noNewErrors l l'.
Proof.
  intros (Hfail & before & id & name & input & after & Hev & Hsilent).
  apply Forall_app in Hsilent as [Hb Ha].
  exists id, name, input.
  unfold callModel, bind, setState, dateNow, emit, nextModelCall, get.
  cbn [history modelCalls ticks emitted state totalTokensIn totalTokensOut
       pendingApproval approvals toolRuns].
  rewrite Hev, Hfail, consume_app.
  match goal with |- context [consume w before ?acc ?l0] =>
    destruct (consume_silent before acc l0 Hb) as [u1 ->] end.
  cbn [consume textAccumulator toolCalls usage].
  unfold bind, dateNow, emit.
  cbn [history modelCalls ticks emitted state totalTokensIn totalTokensOut
       pendingApproval approvals toolRuns].
  match goal with |- context [consume w after ?acc ?l0] =>
    destruct (consume_silent after acc l0 Ha) as [u2 ->] end.
  cbn. eexists. split; [reflexivity|]. cbn. split; [reflexivity|].
  unfold noNewErrors. cbn.
  rewrite <- !app_assoc, List.filter_app. cbn. now rewrite app_nil_r.
Qed.

Lemma runToolUse_frame (id name : string) (input : Json.JObject) (l : Loop) :
  exists c e l',
    runToolUse w tools config (id, name, input) l = (tool_result id c e, l')
    /\ history l' = history l
    /\ noNewErrors l l'.
Proof.
  unfold runToolUse, bind.
  destruct (executeTool_completes w tools config id name input l)
    as (pre & d & t & He & Hpre & _ & Hh).
  destruct (executeTool w tools config id name input l) as [r l'].
  cbn [fst snd] in *. exists (ToolTypes.content r), (isErrorOrFalse r), l'.
  split; [reflexivity|]. split; [exact Hh|].
  unfold noNewErrors. rewrite He, !List.filter_app. cbn.
  assert (Hpre0 : List.filter isAgentError pre = []).
  { clear -Hpre. induction Hpre as [|e pre He _ IH]; [reflexivity|].
    cbn. destruct e; try contradiction; exact IH. }
  now rewrite Hpre0, !app_nil_r.
Qed.

(** One round of the loop when the model asks for one tool. *)
Lemma turns_step (n : nat) (l : Loop) :
  oneToolCallNoText (streamChat provider (modelCalls l) (history l)) ->
  exists id name input c e l',
    turns w provider tools config (S n) l = turns w provider tools config n l'
    /\ history l'
       = history l
         ++ [mkMessage assistant (Blocks [tool_use id name input]) None;
             mkMessage user (Blocks [tool_result id c e]) None]
    /\ noNewErrors l l'.
Proof.
  intros Hone.
  destruct (callModel_one_tool l Hone) as (id & name & input & l1 & Hc & Hh1 & He1).
  cbn [turns]. unfold bind at 1. rewrite Hc.
  cbn [toolUsesOf flat_map app].
  unfold bind at 1. cbn [setState].
  cbn [mapM]. unfold bind at 1. unfold bind at 1.
  set (l2 := mkLoop _ _ _ _ _ _ _ _ _ _).
  destruct (runToolUse_frame id name input l2) as (c & e & l3 & Hr & Hh3 & He3).
  rewrite Hr. cbn [ret]. unfold bind at 1. cbn [ret].
  unfold bind at 1. unfold pushHistory, setHistory.
  exists id, name, input, c, e. eexists. split; [reflexivity|].
  cbn [history emitted]. split.
  - rewrite Hh3. subst l2; cbn [history]. rewrite Hh1, <- app_assoc. reflexivity.
  - unfold noNewErrors in *. cbn [emitted]. rewrite He3.
    subst l2; cbn [emitted]. exact He1.
Qed.

Lemma trim_single (m : ChatMessage) (l : Loop) :
  history l = [m] -> trimContextIfNeeded w config l = (tt, l).
Proof.
  intros H. destruct l; cbn in H; subst.
  unfold trimContextIfNeeded, bind, get. cbn [history].
  destruct (_ <=? _)%Z; reflexivity.
Qed.

End TurnFacts.

(** C5. With [maxTurns] set to 2, a fresh idle loop and a provider whose
    every turn yields exactly one tool call and no text, [processMessage]
    ends with the loop idle; the history is the user message followed twice
    by an assistant message with the tool call and a user message wrapping
    its result; and exactly one [agent:error] event, the recoverable
    max-turns error, has been published. *)
Theorem processMessage_turn_ceiling
  (w : AgentLoop.World) (provider : Provider.ModelProvider)
  (tools : list Tools.Tool) (config : AgentLoop.AgentConfig)
  (userMessage : string) (l : AgentLoop.Loop) :
  AgentLoop.maxTurns config = 2 ->
  AgentLoop.history l = [] ->
  AgentLoop.state l = AgentLoop.idle ->
  (forall n h, AgentLoop.oneToolCallNoText (Provider.streamChat provider n h)) ->
  let l' := snd (AgentLoop.processMessage w provider tools config userMessage l) in
  AgentLoop.state l' = AgentLoop.idle
  /\ (exists id1 name1 input1 c1 e1 id2 name2 input2 c2 e2,
         AgentLoop.history l'
         = [Provider.mkMessage Provider.user (Provider.Text userMessage) None;
            Provider.mkMessage Provider.assistant
              (Provider.Blocks [Provider.tool_use id1 name1 input1]) None;
            Provider.mkMessage Provider.user
              (Provider.Blocks [Provider.tool_result id1 c1 e1]) None;
            Provider.mkMessage Provider.assistant
              (Provider.Blocks [Provider.tool_use id2 name2 input2]) None;
            Provider.mkMessage Provider.user
              (Provider.Blocks [Provider.tool_result id2 c2 e2]) None])
  /\ List.length (List.filter AgentLoop.isAssistant (AgentLoop.history l')) = 2
  /\ List.length (List.filter AgentLoop.isToolResults (AgentLoop.history l')) = 2
  /\ exists t,
      List.filter AgentLoop.isAgentError (AgentLoop.emitted l')
      = List.filter AgentLoop.isAgentError (AgentLoop.emitted l)
        ++ [EventBus.agent_error
              (mkError "Error"
                 "Hit maximum turns (2). Stopping to prevent infinite loop.")
              true t].
Proof.
  intros Hmax Hh Hidle Hprov l'.
  set (l0 := AgentLoop.mkLoop
               [Provider.mkMessage Provider.user (Provider.Text userMessage) None]
               (AgentLoop.state l) (AgentLoop.totalTokensIn l)
               (AgentLoop.totalTokensOut l) (AgentLoop.pendingApproval l)
               (AgentLoop.emitted l) (AgentLoop.ticks l) (AgentLoop.modelCalls l)
               (AgentLoop.approvals l) (AgentLoop.toolRuns l)).
  destruct (turns_step w provider tools config 1 l0 (Hprov _ _))
    as (id1 & n1 & i1 & c1 & e1 & l1 & Ht1 & Hh1 & He1).
  destruct (turns_step w provider tools config 0 l1 (Hprov _ _))
    as (id2 & n2 & i2 & c2 & e2 & l2 & Ht2 & Hh2 & He2).
  assert (Hrun :
    AgentLoop.processMessage w provider tools config userMessage l
    = (tt, AgentLoop.mkLoop (AgentLoop.history l2) AgentLoop.idle
             (AgentLoop.totalTokensIn l2) (AgentLoop.totalTokensOut l2)
             (AgentLoop.pendingApproval l2)
             (AgentLoop.emitted l2
              ++ [EventBus.agent_error (AgentLoop.maxTurnsError config) true
                    (AgentLoop.now w (AgentLoop.ticks l2))])
             (S (AgentLoop.ticks l2)) (AgentLoop.modelCalls l2)
             (AgentLoop.approvals l2) (AgentLoop.toolRuns l2))).
  { unfold AgentLoop.processMessage.
    unfold AgentLoop.bind at 1. cbn [AgentLoop.get]. rewrite Hidle.
    unfold AgentLoop.bind at 1.
    unfold AgentLoop.pushHistory, AgentLoop.setHistory.
    rewrite Hh. cbn [app]. fold l0.
    unfold AgentLoop.bind at 1.
    rewrite (trim_single w config _ l0 eq_refl).
    unfold AgentLoop.bind at 1. rewrite Hmax, Ht1, Ht2.
    reflexivity. }
  subst l'. rewrite Hrun.
  cbn [snd AgentLoop.state AgentLoop.history AgentLoop.emitted].
  assert (Hhist : AgentLoop.history l2
                  = [Provider.mkMessage Provider.user (Provider.Text userMessage) None;
                     Provider.mkMessage Provider.assistant
                       (Provider.Blocks [Provider.tool_use id1 n1 i1]) None;
                     Provider.mkMessage Provider.user
                       (Provider.Blocks [Provider.tool_result id1 c1 e1]) None;
                     Provider.mkMessage Provider.assistant
                       (Provider.Blocks [Provider.tool_use id2 n2 i2]) None;
                     Provider.mkMessage Provider.user
                       (Provider.Blocks [Provider.tool_result id2 c2 e2]) None]).
  { rewrite Hh2, Hh1. reflexivity. }
  split; [reflexivity|].
  split; [exists id1, n1, i1, c1, e1, id2, n2, i2, c2, e2; exact Hhist|].
  rewrite Hhist. split; [reflexivity|]. split; [reflexivity|].
  eexists. rewrite List.filter_app. cbn.
  unfold noNewErrors in *. rewrite He2, He1. subst l0; cbn [AgentLoop.emitted].
  unfold AgentLoop.maxTurnsError. rewrite Hmax. reflexivity.
Qed.

Lemma processMessage_turn_ceiling_witness :
  let l' := snd (AgentLoop.processMessage Scenario.world0 Scenario.alwaysTool
                   [Scenario.echoTool] Scenario.twoTurns "go"
                   AgentLoop.initial) in
  AgentLoop.state l' = AgentLoop.idle
  /\ (exists id1 name1 input1 c1 e1 id2 name2 input2 c2 e2,
         AgentLoop.history l'
         = [Provider.mkMessage Provider.user (Provider.Text "go") None;
            Provider.mkMessage Provider.assistant
              (Provider.Blocks [Provider.tool_use id1 name1 input1]) None;
            Provider.mkMessage Provider.user
              (Provider.Blocks [Provider.tool_result id1 c1 e1]) None;
            Provider.mkMessage Provider.assistant
              (Provider.Blocks [Provider.tool_use id2 name2 input2]) None;
            Provider.mkMessage Provider.user
              (Provider.Blocks [Provider.tool_result id2 c2 e2]) None])
  /\ List.length (List.filter AgentLoop.isAssistant (AgentLoop.history l')) = 2
  /\ List.length (List.filter AgentLoop.isToolResults (AgentLoop.history l')) = 2
  /\ exists t,
      List.filter AgentLoop.isAgentError (AgentLoop.emitted l')
      = List.filter AgentLoop.isAgentError (AgentLoop.emitted AgentLoop.initial)
        ++ [EventBus.agent_error
              (mkError "Error"
                 "Hit maximum turns (2). Stopping to prevent infinite loop.")
              true t].
Proof.
  apply (processMessage_turn_ceiling Scenario.world0 Scenario.alwaysTool
           [Scenario.echoTool] Scenario.twoTurns "go" AgentLoop.initial);
    [reflexivity | reflexivity | reflexivity |].
  intros n h. split; [reflexivity|].
  exists [Provider.tool_call_start "call" "echo"], "call", "echo",
    [("text", Json.JStr "hi")], [Provider.done (mkUsage 10 2)].
  split; [reflexivity | repeat constructor].
Defined.

(** The events of that run, in order. *)
Example processMessage_turn_ceiling_events :
  map EventBus.eventType
    (AgentLoop.emitted
       (snd (AgentLoop.processMessage Scenario.world0 Scenario.alwaysTool
               [Scenario.echoTool] Scenario.twoTurns "go" AgentLoop.initial)))
  = ["agent:thinking"; "agent:tool_request"; "agent:turn_complete";
     "tool:executing"; "tool:complete";
     "agent:thinking"; "agent:tool_request"; "agent:turn_complete";
     "tool:executing"; "tool:complete"; "agent:error"].
Proof. reflexivity. Qed.

(** ** The OpenAI-compatible adapter *)
Section AdapterFacts.
Import Json JsString Provider OpenAICompatible.













End AdapterFacts.



(** The input of that call is the object with [a] set to 12. *)
Example split_arguments_parse :
  OpenAICompatible.parseArgs
    (Scenario.dq "{'a':1" +:+ String.concat EmptyString ["2}"])
  = Json.JObj [("a", Json.JInt 12)].
Proof. vm_compute; reflexivity. Qed.
(** ** More on paths and the sandbox *)
Section SandboxFacts.
Import JsString.

(** Splitting at a separator splits the two sides independently. *)
Lemma split_app (c : ascii) (x y : string) :
  split c (x +:+ String c y) = split c x ++ split c y.
Proof.
  induction x as [|a x IH].
  - rewrite app_nil_s. cbn [split]. now rewrite Ascii.eqb_refl.
  - rewrite app_cons_s. cbn [split]. rewrite IH.
    destruct (Ascii.eqb a c); [reflexivity|].
    pose proof (split_not_nil c x) as Hne.
    destruct (split c x) as [|h t]; [contradiction | reflexivity].
Qed.

Lemma normalizeSegs_app_clean (segs rest res : list string) :
  Forall clean segs ->
  Path.normalizeSegs false (segs ++ rest) res
  = Path.normalizeSegs false rest (rev segs ++ res).
Proof.
  revert res; induction segs as [|seg segs IH]; intros res Hs; [reflexivity|].
  inversion Hs as [|? ? (H1 & H2 & H3 & _) Hrest]; subst.
  apply String.eqb_neq in H1, H2, H3.
  cbn [app Path.normalizeSegs]. rewrite H1, H2, H3. cbn [orb].
  rewrite (IH _ Hrest). cbn [rev]. now rewrite <- app_assoc.
Qed.

(** The segments of an absolute normalized path followed by [/tail]. *)
Lemma normalizeSegs_rooted (segs : list string) (tail : string) :
  Forall clean segs ->
  Path.normalizeSegs false
    (split "/"%char (("/" +:+ join Path.sep segs) +:+ String "/"%char tail)) []
  = Path.normalizeSegs false (split "/"%char tail) (rev segs).
Proof.
  intros Hall. rewrite split_app.
  change ("/" +:+ join Path.sep segs)
    with (String "/"%char (join (String "/"%char EmptyString) segs)).
  cbn [split Ascii.eqb Bool.eqb].
  destruct segs as [|seg segs]; [reflexivity|].
  rewrite split_join.
  - change (Path.normalizeSegs false
              ((EmptyString :: seg :: segs) ++ split "/"%char tail) [])
      with (Path.normalizeSegs false
              ((seg :: segs) ++ split "/"%char tail) []).
    rewrite (normalizeSegs_app_clean _ _ _ Hall). now rewrite app_nil_r.
  - discriminate.
  - eapply Forall_impl; [exact Hall|]. now intros s (_ & _ & _ & H).
Qed.

Lemma join_app_s (sep : string) (a b : list string) :
  a <> [] -> b <> [] ->
  join sep (a ++ b) = join sep a +:+ sep +:+ join sep b.
Proof.
  induction a as [|x a IH]; intros Ha Hb; [contradiction|].
  destruct a as [|y a].
  - destruct b as [|z b]; [contradiction | reflexivity].
  - change (join sep ((x :: y :: a) ++ b))
      with (x +:+ sep +:+ join sep ((y :: a) ++ b)).
    rewrite IH by (assumption || discriminate).
    change (join sep (x :: y :: a)) with (x +:+ sep +:+ join sep (y :: a)).
    now rewrite !app_assoc_s.
Qed.

Lemma clean_relative (segs : list string) :
  segs <> [] -> Forall clean segs ->
  Path.isAbsolute (join Path.sep segs) = false
  /\ is_empty (join Path.sep segs) = false.
Proof.
  destruct segs as [|seg segs]; [contradiction|].
  intros _ Hall. inversion Hall as [|? ? (H1 & _ & _ & H4) _]; subst.
  destruct seg as [|c seg]; [contradiction|].
  cbn in H4. apply orb_false_iff in H4 as [Hc _].
  assert (Hne : c <> "/"%char) by (intros ->; discriminate).
  assert (E : exists t, join Path.sep (String c seg :: segs) = String c t).
  { destruct segs; [now exists seg|]. eexists. reflexivity. }
  destruct E as [t ->]. split; [|reflexivity].
  cbn. destruct c as [[] [] [] [] [] [] [] []]; try reflexivity.
  contradiction.
Qed.

(** [path.resolve] of a normalized absolute root and a relative path made
    of plain names. *)
Lemma resolve_plain_names (cwd : string) (rootSegs nameSegs : list string) :
  nameSegs <> [] -> Forall clean rootSegs -> Forall clean nameSegs ->
  Path.resolve cwd ["/" +:+ join Path.sep rootSegs; join Path.sep nameSegs]
  = "/" +:+ join Path.sep (rootSegs ++ nameSegs).
Proof.
  intros Hn Hrc Hnc.
  destruct (clean_relative _ Hn Hnc) as [Hrel Hne].
  unfold Path.resolve. cbn [rev app Path.resolveLoop].
  rewrite Hne, Hrel.
  change (is_empty ("/" +:+ join Path.sep rootSegs)) with false.
  change (Path.isAbsolute ("/" +:+ join Path.sep rootSegs)) with true.
  cbv iota beta. cbn [negb]. f_equal.
  unfold Path.normalizeString.
  change ("/" +:+ EmptyString) with (String "/"%char EmptyString).
  change ("/" +:+ join Path.sep nameSegs +:+ String "/"%char EmptyString)
    with (String "/"%char
            (join Path.sep nameSegs +:+ String "/"%char EmptyString)).
  rewrite (normalizeSegs_rooted _ _ Hrc), split_app.
  unfold Path.sep at 2. rewrite split_join.
  - rewrite (normalizeSegs_app_clean _ _ _ Hnc).
    cbn [split Path.normalizeSegs String.eqb orb].
    now rewrite rev_app_distr, !rev_involutive.
  - assumption.
  - eapply Forall_impl; [exact Hnc|]. now intros s (_ & _ & _ & H).
Qed.

(** An absolute normalized path other than [/] does not start with [//]
    and is not [/]. *)
Lemma rooted_not_double_slash (segs : list string) :
  segs <> [] -> Forall clean segs ->
  startsWith ("/" +:+ join Path.sep segs) "//" = false
  /\ String.eqb ("/" +:+ join Path.sep segs) "/" = false.
Proof.
  intros Hne Hall.
  destruct (clean_relative _ Hne Hall) as [Hrel Hemp].
  destruct (join Path.sep segs) as [|c t] eqn:Ej; [discriminate|].
  change ("/" +:+ String c t) with (String "/"%char (String c t)).
  split.
  - cbn [startsWith]. rewrite Ascii.eqb_refl.
    replace (Ascii.eqb "/"%char c) with false; [reflexivity|].
    symmetry. apply Ascii.eqb_neq. intros <-. discriminate.
  - now apply String.eqb_neq.
Qed.

End SandboxFacts.

(** X1. A path [resolveSafePath] has answered is accepted again and
    answered unchanged. *)
Theorem resolveSafePath_idempotent (cwd projectRoot inputPath p : string) :
  Path.isAbsolute cwd = true ->
  Sandbox.resolveSafePath cwd projectRoot inputPath = Ok p ->
  Sandbox.resolveSafePath cwd projectRoot p = Ok p.
Proof.
  intros Hcwd. unfold Sandbox.resolveSafePath at 1.
  destruct (resolve_shape cwd [projectRoot; inputPath] Hcwd) as (segs & Hc & Hr).
  rewrite Hr, (normalize_fixed _ Hc).
  intros Hfirst.
  assert (Hp : p = "/" +:+ JsString.join Path.sep segs).
  { destruct (_ && _); [discriminate | now injection Hfirst]. }
  assert (Hres : Path.resolve cwd [projectRoot; p] = p).
  { subst p. unfold Path.resolve. cbn [rev app Path.resolveLoop].
    change (JsString.is_empty ("/" +:+ JsString.join Path.sep segs)) with false.
    change (Path.isAbsolute ("/" +:+ JsString.join Path.sep segs)) with true.
    cbv iota beta. cbn [negb].
    unfold Path.normalizeString.
    change ("/" +:+ EmptyString) with (String "/"%char EmptyString).
    rewrite (normalizeSegs_rooted _ _ Hc). cbn [JsString.split Path.normalizeSegs].
    cbn [String.eqb orb]. now rewrite rev_involutive. }
  unfold Sandbox.resolveSafePath. rewrite Hres.
  subst p. rewrite (normalize_fixed _ Hc).
  destruct (_ && _); [discriminate | reflexivity].
Qed.

Lemma resolveSafePath_idempotent_witness :
  Sandbox.resolveSafePath "/home/u" "/proj" "/proj/a/c" = Ok "/proj/a/c".
Proof.
  apply (resolveSafePath_idempotent "/home/u" "/proj" "a/b/../c"); reflexivity.
Defined.

(** X2. When the project root is the file system root, the guard compares
    with [//]: a path is answered, by [/], exactly when it resolves to the
    root itself, and every other path is refused; in particular every
    relative path made of plain names is refused. *)
Theorem resolveSafePath_root_slash (cwd inputPath : string)
  (names : list string) :
  Path.isAbsolute cwd = true ->
  names <> [] -> Forall clean names ->
  Sandbox.resolveSafePath cwd "/" inputPath
  = (if String.eqb (Path.resolve cwd ["/"; inputPath]) "/"
     then Ok "/"
     else Err (Sandbox.PathTraversalError inputPath "/"))
  /\ Sandbox.resolveSafePath cwd "/" (JsString.join Path.sep names)
     = Err (Sandbox.PathTraversalError (JsString.join Path.sep names) "/").
Proof.
  intros Hcwd Hn Hnc. split.
  - unfold Sandbox.resolveSafePath.
    destruct (resolve_shape cwd ["/"; inputPath] Hcwd) as (segs & Hc & Hr).
    rewrite Hr, (normalize_fixed _ Hc).
    destruct segs as [|seg segs]; [reflexivity|].
    destruct (rooted_not_double_slash (seg :: segs) ltac:(discriminate) Hc)
      as [Hstart Heq].
    change ("/" +:+ Path.sep) with "//". now rewrite Hstart, Heq.
  - unfold Sandbox.resolveSafePath.
    pose proof (resolve_plain_names cwd [] names Hn ltac:(constructor) Hnc)
      as Hres.
    change ("/" +:+ JsString.join Path.sep []) with "/" in Hres.
    cbn [app] in Hres. rewrite Hres, (normalize_fixed _ Hnc).
    destruct (rooted_not_double_slash names Hn Hnc) as [Hstart Heq].
    change ("/" +:+ Path.sep) with "//". now rewrite Hstart, Heq.
Qed.

Lemma resolveSafePath_root_slash_witness :
  Sandbox.resolveSafePath "/home/u" "/" "etc/.."
  = (if String.eqb (Path.resolve "/home/u" ["/"; "etc/.."]) "/"
     then Ok "/"
     else Err (Sandbox.PathTraversalError "etc/.." "/"))
  /\ Sandbox.resolveSafePath "/home/u" "/"
       (JsString.join Path.sep ["etc"; "passwd"])
     = Err (Sandbox.PathTraversalError
              (JsString.join Path.sep ["etc"; "passwd"]) "/").
Proof.
  apply (resolveSafePath_root_slash "/home/u" "etc/.." ["etc"; "passwd"]);
    [reflexivity | discriminate |].
  repeat (constructor; [repeat split; discriminate|]); constructor.
Defined.

(** X3. A relative path made of plain names (no empty name, no [.] or
    [..]) is never refused: below a normalized root other than [/] it is
    answered as the root, the separator and the path. *)
Theorem resolveSafePath_accepts_plain_names
  (cwd : string) (rootSegs nameSegs : list string) :
  rootSegs <> [] -> nameSegs <> [] ->
  Forall clean rootSegs -> Forall clean nameSegs ->
  Sandbox.resolveSafePath cwd ("/" +:+ JsString.join Path.sep rootSegs)
    (JsString.join Path.sep nameSegs)
  = Ok (("/" +:+ JsString.join Path.sep rootSegs) +:+ Path.sep
        +:+ JsString.join Path.sep nameSegs).
Proof.
  intros Hr Hn Hrc Hnc.
  destruct (clean_relative _ Hn Hnc) as [Hrel Hne].
  assert (Hall : Forall clean (rootSegs ++ nameSegs))
    by (apply Forall_app; now split).
  pose proof (resolve_plain_names cwd rootSegs nameSegs Hn Hrc Hnc) as Hres.
  unfold Sandbox.resolveSafePath. rewrite Hres, (normalize_fixed _ Hall).
  rewrite (join_app_s _ _ _ Hr Hn).
  replace ("/" +:+ JsString.join Path.sep rootSegs +:+ Path.sep
           +:+ JsString.join Path.sep nameSegs)
    with ((("/" +:+ JsString.join Path.sep rootSegs) +:+ Path.sep)
          +:+ JsString.join Path.sep nameSegs)
    by now rewrite !app_assoc_s.
  rewrite startsWith_app. cbn [negb andb].
  now rewrite !app_assoc_s.
Qed.

Lemma resolveSafePath_accepts_plain_names_witness :
  Sandbox.resolveSafePath "/home/u" "/srv/proj" "src/core/bus.ts"
  = Ok "/srv/proj/src/core/bus.ts".
Proof.
  apply (resolveSafePath_accepts_plain_names "/home/u" ["srv"; "proj"]
           ["src"; "core"; "bus.ts"]);
    try discriminate;
    repeat (constructor; [repeat split; discriminate|]); constructor.
Defined.

(** X4. The root [setProjectRoot] stores is absolute and normalized, and
    the sandbox answers it for the paths [.] and the empty path. *)
Theorem setProjectRoot_is_safe_root (cwd root : string) :
  Path.isAbsolute cwd = true ->
  let projectRoot := Sandbox.setProjectRoot cwd root in
  Path.isAbsolute projectRoot = true
  /\ Path.normalize projectRoot = projectRoot
  /\ Sandbox.resolveSafePath cwd projectRoot "." = Ok projectRoot
  /\ Sandbox.resolveSafePath cwd projectRoot EmptyString = Ok projectRoot.
Proof.
  intros Hcwd. cbv zeta. unfold Sandbox.setProjectRoot.
  destruct (resolve_shape cwd [root] Hcwd) as (segs & Hc & ->).
  split; [reflexivity|]. split; [now apply normalize_fixed|].
  assert (Hdot : Path.resolve cwd ["/" +:+ JsString.join Path.sep segs; "."]
                 = "/" +:+ JsString.join Path.sep segs).
  { unfold Path.resolve. cbn [rev app Path.resolveLoop JsString.is_empty].
    change (Path.isAbsolute ".") with false.
    change (JsString.is_empty ("/" +:+ JsString.join Path.sep segs)) with false.
    change (Path.isAbsolute ("/" +:+ JsString.join Path.sep segs)) with true.
    cbv iota beta. cbn [negb]. f_equal.
    unfold Path.normalizeString.
    change ("/" +:+ "." +:+ "/" +:+ EmptyString) with (String "/"%char "./").
    rewrite (normalizeSegs_rooted _ _ Hc).
    cbn [JsString.split Ascii.eqb Bool.eqb Path.normalizeSegs String.eqb orb].
    now rewrite rev_involutive. }
  assert (Hempty : Path.resolve cwd ["/" +:+ JsString.join Path.sep segs;
                                     EmptyString]
                   = "/" +:+ JsString.join Path.sep segs).
  { unfold Path.resolve. cbn [rev app Path.resolveLoop JsString.is_empty].
    change (JsString.is_empty ("/" +:+ JsString.join Path.sep segs)) with false.
    change (Path.isAbsolute ("/" +:+ JsString.join Path.sep segs)) with true.
    cbv iota beta. cbn [negb]. f_equal.
    unfold Path.normalizeString.
    change ("/" +:+ EmptyString) with (String "/"%char EmptyString).
    rewrite (normalizeSegs_rooted _ _ Hc).
    cbn [JsString.split Path.normalizeSegs String.eqb orb].
    now rewrite rev_involutive. }
  unfold Sandbox.resolveSafePath.
  rewrite Hdot, Hempty, (normalize_fixed _ Hc), String.eqb_refl.
  cbn [negb]. rewrite !andb_false_r. now split.
Qed.

Lemma setProjectRoot_is_safe_root_witness :
  let projectRoot := Sandbox.setProjectRoot "/home/u" "work/../proj/" in
  Path.isAbsolute projectRoot = true
  /\ Path.normalize projectRoot = projectRoot
  /\ Sandbox.resolveSafePath "/home/u" projectRoot "." = Ok projectRoot
  /\ Sandbox.resolveSafePath "/home/u" projectRoot EmptyString = Ok projectRoot.
Proof. apply (setProjectRoot_is_safe_root "/home/u" "work/../proj/"). reflexivity. Defined.
(** ** More on the edit tool *)
Section EditEffect.
Import JsString EditFile.

(** A successful call: the scratch file is gone and the edited file holds
    the new content, on the same device or across devices. *)
Lemma execute_success (fuel : nat) (cwd projectRoot tmpPath : string)
  (w : Fs.World) (input : Input) (safePath bytes before after : string) :
  Sandbox.resolveSafePath cwd projectRoot (path input) = Ok safePath ->
  Fs.files w !! safePath = Some bytes ->
  Utf8.decode bytes = before +:+ old_string input +:+ after ->
  old_string input <> EmptyString ->
  String.eqb (old_string input) (new_string input) = false ->
  (forall j, j < String.length before ->
             ~ occursAt (before +:+ old_string input +:+ after)
                 (old_string input) j) ->
  (forall j, String.length before + String.length (old_string input) <= j ->
             ~ occursAt (before +:+ old_string input +:+ after)
                 (old_string input) j) ->
  tmpPath <> safePath ->
  Fs.placeable w -> Fs.tidy w ->
  2 <= fuel ->
  exists r,
    execute fuel cwd projectRoot tmpPath w input
    = Some (Fs.withFiles w
              (<[safePath := before
                             +:+ getSubstitution (old_string input) before after
                                   (new_string input)
                             +:+ after]>
                 (delete tmpPath (Fs.files w))), r)
    /\ isError r = None.
Proof.
  intros Hres Hfile Htext Hold Hdiff Hleast Hafter Htmp Hmove Htidy Hfuel.
  assert (Hcount : countLoop fuel (Utf8.decode bytes) (old_string input) 0 0
                   = Some 1).
  { rewrite Htext. apply countLoop_one; [assumption|]. split; [assumption|].
    exists (String.length before).
    split; [apply occursAt_middle|]. now split. }
  destruct (execute_counted fuel cwd projectRoot tmpPath w input safePath
              bytes 1 Hdiff Hres Hfile Hcount)
    as (w' & r & Hexec & Hok & _ & Hdone).
  destruct (Hdone (proj2 Hok (conj eq_refl Hmove)) Htmp) as (Hr & _ & _ & Hw).
  exists r. split; [|exact Hr].
  now rewrite Hexec, (Hw Htidy), Htext, (replace_leftmost _ _ _ _ Hleast).
Qed.

Lemma getSubstitution_app (matched before after pre rest : string) :
  has_char "$"%char pre = false ->
  getSubstitution matched before after (pre +:+ rest)
  = pre +:+ getSubstitution matched before after rest.
Proof.
  induction pre as [|c pre IH]; [reflexivity|]. intros H.
  cbn [has_char] in H. apply orb_false_iff in H as [Hc Hp].
  rewrite !app_cons_s, <- (IH Hp).
  destruct c as [[] [] [] [] [] [] [] []]; try reflexivity.
  discriminate Hc.
Qed.

End EditEffect.

(** X5. A successful edit, whether the scratch directory is on the
    project's device or not.  When the text of the file, its bytes read as
    UTF-8, is [before], [old_string] and [after], with [old_string] first
    read after [before] and nowhere from its end on, when [new_string]
    holds no [$], the new content can be put in place (the scratch file is
    written, and the rename works or the copy that follows a failed rename
    does) and the scratch file can be removed, the file holds [before],
    [new_string] and [after]; the scratch file is gone and every other
    file is as it was. *)
Theorem edit_writes_replacement (fuel : nat) (cwd projectRoot tmpPath : string)
  (w : Fs.World) (input : EditFile.Input)
  (safePath bytes before after : string) :
  Sandbox.resolveSafePath cwd projectRoot (EditFile.path input) = Ok safePath ->
  Fs.files w !! safePath = Some bytes ->
  Utf8.decode bytes = before +:+ EditFile.old_string input +:+ after ->
  JsString.is_empty (EditFile.old_string input) = false ->
  String.eqb (EditFile.old_string input) (EditFile.new_string input) = false ->
  (forall j, j < String.length before ->
             ~ EditFile.occursAt (before +:+ EditFile.old_string input +:+ after)
                 (EditFile.old_string input) j) ->
  (forall j, String.length before + String.length (EditFile.old_string input)
             <= j ->
             ~ EditFile.occursAt (before +:+ EditFile.old_string input +:+ after)
                 (EditFile.old_string input) j) ->
  JsString.has_char "$"%char (EditFile.new_string input) = false ->
  tmpPath <> safePath ->
  Fs.placeable w -> Fs.tidy w ->
  2 <= fuel ->
  exists r,
    EditFile.execute fuel cwd projectRoot tmpPath w input
    = Some (Fs.withFiles w
              (<[safePath := before +:+ EditFile.new_string input +:+ after]>
                 (delete tmpPath (Fs.files w))), r)
    /\ isError r = None.
Proof.
  intros Hres Hfile Htext Hne Hdiff Hleast Hafter Hlit Htmp Hmove Htidy Hfuel.
  apply is_empty_false in Hne.
  destruct (execute_success fuel cwd projectRoot tmpPath w input safePath
              bytes before after Hres Hfile Htext Hne Hdiff Hleast Hafter Htmp
              Hmove Htidy Hfuel)
    as (r & Hexec & Hr).
  exists r. split; [|assumption].
  now rewrite (getSubstitution_literal _ _ _ _ Hlit) in Hexec.
Qed.

(** The witness edits a file whose first byte is not UTF-8: the byte is
    written back as U+FFFD. *)
Lemma edit_writes_replacement_witness :
  let w := Scenario.oneFile "/proj/notes.txt"
             (String "255"%char "hello world") in
  exists r,
    EditFile.execute 2 "/proj" "/proj" "/tmp/moth-edit-2" w
      (EditFile.mkInput "notes.txt" "world" "there")
    = Some (Fs.withFiles w
              (<["/proj/notes.txt" := (Utf8.REPLACEMENT +:+ "hello ")
                                      +:+ "there" +:+ ""]>
                 (delete "/tmp/moth-edit-2" (Fs.files w))), r)
    /\ isError r = None.
Proof.
  apply (edit_writes_replacement 2 "/proj" "/proj" "/tmp/moth-edit-2"
           (Scenario.oneFile "/proj/notes.txt" (String "255"%char "hello world"))
           (EditFile.mkInput "notes.txt" "world" "there")
           "/proj/notes.txt" (String "255"%char "hello world")
           (Utf8.REPLACEMENT +:+ "hello ") "");
    try reflexivity; try discriminate; try lia; try (now left);
    try (split; [reflexivity | now left]).
  - intros j Hj [_ H]. change (j < 9) in Hj.
    do 9 (destruct j as [|j]; [discriminate H|]). lia.
  - intros j Hj [Hle H].
    change (14 <= j) in Hj. change (j <= 14) in Hle.
    assert (j = 14) as -> by lia. discriminate H.
Defined.

(** X6. [new_string] is handed to [String.prototype.replace] as a
    replacement pattern: in an edit that goes through, the two characters
    [$&] in it are written as [old_string], and [$$] as a single [$]. *)
Theorem edit_expands_dollar_patterns
  (fuel : nat) (cwd projectRoot tmpPath : string) (w : Fs.World)
  (p oldStr pre post safePath bytes before after : string) :
  Sandbox.resolveSafePath cwd projectRoot p = Ok safePath ->
  Fs.files w !! safePath = Some bytes ->
  Utf8.decode bytes = before +:+ oldStr +:+ after ->
  JsString.is_empty oldStr = false ->
  (forall j, j < String.length before ->
             ~ EditFile.occursAt (before +:+ oldStr +:+ after) oldStr j) ->
  (forall j, String.length before + String.length oldStr <= j ->
             ~ EditFile.occursAt (before +:+ oldStr +:+ after) oldStr j) ->
  JsString.has_char "$"%char pre = false ->
  JsString.has_char "$"%char post = false ->
  tmpPath <> safePath ->
  Fs.placeable w -> Fs.tidy w ->
  2 <= fuel ->
  String.eqb oldStr (pre +:+ "$&" +:+ post) = false ->
  String.eqb oldStr (pre +:+ "$$" +:+ post) = false ->
  (exists r,
     EditFile.execute fuel cwd projectRoot tmpPath w
       (EditFile.mkInput p oldStr (pre +:+ "$&" +:+ post))
     = Some (Fs.withFiles w
               (<[safePath := before +:+ (pre +:+ oldStr +:+ post) +:+ after]>
                  (delete tmpPath (Fs.files w))), r)
     /\ isError r = None)
  /\ (exists r,
        EditFile.execute fuel cwd projectRoot tmpPath w
          (EditFile.mkInput p oldStr (pre +:+ "$$" +:+ post))
        = Some (Fs.withFiles w
                  (<[safePath := before +:+ (pre +:+ "$" +:+ post) +:+ after]>
                     (delete tmpPath (Fs.files w))), r)
        /\ isError r = None).
Proof.
  intros Hres Hfile Htext Hne Hleast Hafter Hpre Hpost Htmp Hmove Htidy Hfuel
    Hdiff Hdiff'.
  apply is_empty_false in Hne.
  split.
  - destruct (execute_success fuel cwd projectRoot tmpPath w
                (EditFile.mkInput p oldStr (pre +:+ "$&" +:+ post))
                safePath bytes before after Hres Hfile Htext Hne Hdiff Hleast
                Hafter Htmp Hmove Htidy Hfuel) as (r & Hexec & Hr).
    exists r. split; [|assumption].
    cbn [EditFile.old_string EditFile.new_string] in Hexec.
    rewrite (getSubstitution_app _ _ _ _ _ Hpre) in Hexec.
    change ("$&" +:+ post) with (String "$"%char (String "&"%char post)) in Hexec.
    cbn [EditFile.getSubstitution] in Hexec.
    now rewrite (getSubstitution_literal _ _ _ _ Hpost) in Hexec.
  - destruct (execute_success fuel cwd projectRoot tmpPath w
                (EditFile.mkInput p oldStr (pre +:+ "$$" +:+ post))
                safePath bytes before after Hres Hfile Htext Hne Hdiff' Hleast
                Hafter Htmp Hmove Htidy Hfuel) as (r & Hexec & Hr).
    exists r. split; [|assumption].
    cbn [EditFile.old_string EditFile.new_string] in Hexec.
    rewrite (getSubstitution_app _ _ _ _ _ Hpre) in Hexec.
    change ("$$" +:+ post) with (String "$"%char (String "$"%char post)) in Hexec.
    cbn [EditFile.getSubstitution] in Hexec.
    now rewrite (getSubstitution_literal _ _ _ _ Hpost) in Hexec.
Qed.

Lemma edit_expands_dollar_patterns_witness :
  (exists r,
     EditFile.execute 2 "/proj" "/proj" "/tmp/moth-edit-3" Scenario.editWorld
       (EditFile.mkInput "notes.txt" "world" ("big " +:+ "$&" +:+ "!"))
     = Some (Fs.withFiles Scenario.editWorld
               (<["/proj/notes.txt" := "hello " +:+ ("big " +:+ "world" +:+ "!")
                                       +:+ ""]>
                  (delete "/tmp/moth-edit-3" (Fs.files Scenario.editWorld))), r)
     /\ isError r = None)
  /\ (exists r,
        EditFile.execute 2 "/proj" "/proj" "/tmp/moth-edit-3" Scenario.editWorld
          (EditFile.mkInput "notes.txt" "world" ("big " +:+ "$$" +:+ "!"))
        = Some (Fs.withFiles Scenario.editWorld
                  (<["/proj/notes.txt" := "hello " +:+ ("big " +:+ "$" +:+ "!")
                                          +:+ ""]>
                     (delete "/tmp/moth-edit-3" (Fs.files Scenario.editWorld))),
                r)
        /\ isError r = None).
Proof.
  apply (edit_expands_dollar_patterns 2 "/proj" "/proj" "/tmp/moth-edit-3"
           Scenario.editWorld "notes.txt" "world" "big " "!" "/proj/notes.txt"
           "hello world" "hello " "");
    try reflexivity; try discriminate; try lia; try (now left);
    try (split; [reflexivity | now left]).
  - intros j Hj [_ H]. cbn in Hj.
    do 6 (destruct j as [|j]; [discriminate H|]). lia.
  - intros j Hj [Hle H].
    change (11 <= j) in Hj. change (j <= 11) in Hle.
    assert (j = 11) as -> by lia. discriminate H.
Defined.

(** X7. The refusals that come before the file is searched: a path outside
    the sandbox is answered with the message of the traversal error, a
    path with no file behind it with [File not found]; both leave the file
    system as it is and do not depend on the content of any file. *)
Theorem edit_refuses_unsafe_and_missing
  (fuel : nat) (cwd projectRoot tmpPath : string) (w : Fs.World)
  (input : EditFile.Input) :
  String.eqb (EditFile.old_string input) (EditFile.new_string input) = false ->
  match Sandbox.resolveSafePath cwd projectRoot (EditFile.path input) with
  | Err e =>
      EditFile.execute fuel cwd projectRoot tmpPath w input
      = Some (w, mkResult (err_message e) (Some true))
  | Ok safePath =>
      Fs.files w !! safePath = None ->
      EditFile.execute fuel cwd projectRoot tmpPath w input
      = Some (w, mkResult ("File not found: " +:+ EditFile.path input)
                   (Some true))
  end.
Proof.
  intros Hdiff. unfold EditFile.execute. rewrite Hdiff.
  destruct (Sandbox.resolveSafePath _ _ _) as [safePath|e]; [|reflexivity].
  intros Hnone. unfold Fs.readFile. now rewrite Hnone.
Qed.

Lemma edit_refuses_unsafe_and_missing_witness :
  EditFile.execute 0 "/proj" "/proj" "/tmp/moth-edit-4" Scenario.editWorld
    (EditFile.mkInput "../etc/passwd" "root" "toor")
  = Some (Scenario.editWorld,
          mkResult (err_message (Sandbox.PathTraversalError "../etc/passwd" "/proj"))
            (Some true))
  /\ EditFile.execute 0 "/proj" "/proj" "/tmp/moth-edit-4" Scenario.editWorld
       (EditFile.mkInput "absent.txt" "a" "b")
     = Some (Scenario.editWorld, mkResult ("File not found: " +:+ "absent.txt")
                                   (Some true)).
Proof.
  split.
  - apply (edit_refuses_unsafe_and_missing 0 "/proj" "/proj" "/tmp/moth-edit-4"
             Scenario.editWorld (EditFile.mkInput "../etc/passwd" "root" "toor")).
    reflexivity.
  - apply (edit_refuses_unsafe_and_missing 0 "/proj" "/proj" "/tmp/moth-edit-4"
             Scenario.editWorld (EditFile.mkInput "absent.txt" "a" "b"));
      reflexivity.
Defined.
(** ** Text read from bytes *)
Section Utf8Facts.
Import JsString Utf8.

(** The decoder answers something for every byte it reads. *)
Lemma decodeFrom_not_empty (s : string) :
  forall need lo hi seen,
    need <> 0 \/ s <> EmptyString ->
    decodeFrom need lo hi seen s <> EmptyString.
Proof.
  induction s as [|b rest IH]; intros need lo hi seen Hsome.
  - destruct need as [|need]; [destruct Hsome; contradiction | discriminate].
  - assert (Hnext : forall n lo' hi' seen',
              decodeFrom (S n) lo' hi' seen' rest <> EmptyString)
      by (intros; apply IH; left; discriminate).
    assert (Hrep : forall t, REPLACEMENT +:+ t <> EmptyString)
      by (intros t; discriminate).
    cbn [decodeFrom].
    destruct need as [|[|need]].
    + repeat match goal with
             | |- context [if ?c then _ else _] => destruct c
             end; solve [discriminate | apply Hnext | apply Hrep].
    + destruct (ascii_in lo hi b); [|apply Hrep].
      intros E. apply app_eq_empty in E as [_ E]. discriminate.
    + destruct (ascii_in lo hi b); [apply Hnext | apply Hrep].
Qed.

Lemma decode_is_empty (s : string) : is_empty (decode s) = is_empty s.
Proof.
  destruct s as [|b rest]; [reflexivity|]. cbn [is_empty].
  destruct (decode (String b rest)) eqn:E; [|reflexivity].
  exfalso. revert E. apply decodeFrom_not_empty. right. discriminate.
Qed.

(** Text of ASCII characters is read as it is. *)
Lemma decode_ascii (s : string) : isAscii s = true -> decode s = s.
Proof.
  unfold decode. induction s as [|b rest IH]; intros Hall; [reflexivity|].
  cbn [isAscii] in Hall. apply andb_true_iff in Hall as [Hb Hrest].
  cbn [decodeFrom]. now rewrite Hb, (IH Hrest).
Qed.

End Utf8Facts.

(** ** The shell tool: what is kept of the output *)
Section BashOutput.
Import JsString Bash.

Lemma concat_snoc (l : list string) (x : string) :
  String.concat EmptyString (l ++ [x]) = String.concat EmptyString l +:+ x.
Proof.
  induction l as [|a l IH]; [reflexivity|].
  destruct l as [|b l].
  - cbn. now rewrite app_nil_s.
  - change (String.concat EmptyString ((a :: b :: l) ++ [x]))
      with (a +:+ EmptyString +:+ String.concat EmptyString ((b :: l) ++ [x])).
    rewrite IH.
    change (String.concat EmptyString (a :: b :: l))
      with (a +:+ EmptyString +:+ String.concat EmptyString (b :: l)).
    now rewrite !app_nil_s, app_assoc_s.
Qed.

Lemma concat_cons (a : string) (l : list string) :
  String.concat EmptyString (a :: l) = a +:+ String.concat EmptyString l.
Proof.
  destruct l as [|b l]; [cbn; now rewrite app_empty_r|].
  change (String.concat EmptyString (a :: b :: l))
    with (a +:+ EmptyString +:+ String.concat EmptyString (b :: l)).
  now rewrite app_nil_s.
Qed.

Lemma take_length_s (n : nat) (s : string) :
  String.length (take n s) = Nat.min n (String.length s).
Proof.
  revert s; induction n as [|n IH]; intros [|a s]; cbn; try reflexivity.
  now rewrite IH.
Qed.

Lemma take_all_s (n : nat) (s : string) :
  String.length s <= n -> take n s = s.
Proof.
  revert s; induction n as [|n IH]; intros [|a s]; cbn; intros H;
    try reflexivity; try lia.
  rewrite IH; [reflexivity | lia].
Qed.

Lemma take_app_s (n : nat) (a b : string) :
  take n (a +:+ b) = take n a +:+ take (n - String.length a) b.
Proof.
  revert a; induction n as [|n IH]; intros a.
  - cbn. now destruct a, b.
  - destruct a as [|x a].
    + rewrite app_nil_s. cbn [String.length]. now rewrite Nat.sub_0_r.
    + rewrite app_cons_s. cbn [take String.length Nat.sub].
      now rewrite IH, app_cons_s.
Qed.

(** What [collectOutput] maintains, [all] being the bytes produced so far:
    the chunks kept are the first [MAX_OUTPUT] bytes of [all], and
    [totalSize] is their number. *)
Definition collected (st : list string * N) (all : string) : Prop :=
  String.concat EmptyString (fst st) = take (N.to_nat MAX_OUTPUT) all
  /\ snd st = N.of_nat (String.length (String.concat EmptyString (fst st))).

Lemma collectOutput_step (st : list string * N) (all data : string) :
  collected st all -> collected (collectOutput st data) (all +:+ data).
Proof.
  destruct st as [chunks totalSize]. unfold collected, collectOutput.
  cbn [fst snd]. intros [Hkept Htotal].
  pose proof (take_length_s (N.to_nat MAX_OUTPUT) all) as Hlen.
  rewrite <- Hkept in Hlen.
  destruct (N.leb_spec MAX_OUTPUT totalSize) as [Hfull|Hroom]; cbn [fst snd].
  - split; [|assumption].
    rewrite take_app_s, <- Hkept.
    replace (N.to_nat MAX_OUTPUT - String.length all) with 0 by lia.
    destruct data; cbn [take]; now rewrite app_empty_r.
  - assert (Hall : String.length all < N.to_nat MAX_OUTPUT) by lia.
    rewrite take_all_s in Hkept by lia.
    assert (Hchunk :
              (if (MAX_OUTPUT - totalSize <? N.of_nat (String.length data))%N
               then take (N.to_nat (MAX_OUTPUT - totalSize)) data else data)
              = take (N.to_nat MAX_OUTPUT - String.length all) data).
    { replace (N.to_nat (MAX_OUTPUT - totalSize))
        with (N.to_nat MAX_OUTPUT - String.length all)
        by (rewrite Htotal, Hkept; lia).
      destruct (N.ltb_spec (MAX_OUTPUT - totalSize)
                  (N.of_nat (String.length data))) as [Hcut|Hfit];
        [reflexivity|].
      rewrite take_all_s; [reflexivity|].
      rewrite Htotal, Hkept in Hfit. lia. }
    rewrite Hchunk, concat_snoc, Hkept, take_app_s.
    rewrite (take_all_s _ all) by lia.
    split; [reflexivity|].
    rewrite Htotal, Hkept, !length_app_s. lia.
Qed.

Lemma collectOutput_fold (chunks : list string) (st : list string * N)
  (all : string) :
  collected st all ->
  collected (fold_left collectOutput chunks st)
    (all +:+ String.concat EmptyString chunks).
Proof.
  revert st all; induction chunks as [|data chunks IH]; intros st all H.
  - cbn. now rewrite app_empty_r.
  - cbn [fold_left]. rewrite concat_cons, <- app_assoc_s.
    apply IH. now apply collectOutput_step.
Qed.

End BashOutput.

(** X8. Whatever the sizes of the chunks a process writes, the chunks
    [collectOutput] keeps are, put together, the first [MAX_OUTPUT] bytes of
    what was written, and [totalSize] counts them. *)
Theorem bash_keeps_first_bytes (chunks : list string) :
  let st := fold_left Bash.collectOutput chunks ([], 0%N) in
  String.concat EmptyString (fst st)
  = JsString.take (N.to_nat Bash.MAX_OUTPUT) (String.concat EmptyString chunks)
  /\ snd st = N.of_nat (String.length (String.concat EmptyString (fst st)))
  /\ (snd st <= Bash.MAX_OUTPUT)%N.
Proof.
  cbv zeta.
  assert (H0 : collected ([], 0%N) EmptyString).
  { split; [|reflexivity]. cbn [fst String.concat].
    now destruct (N.to_nat Bash.MAX_OUTPUT). }
  pose proof (collectOutput_fold chunks _ _ H0) as [Hkept Htotal].
  rewrite app_nil_s in Hkept.
  split; [assumption|]. split; [assumption|].
  rewrite Htotal, Hkept, take_length_s. lia.
Qed.

(** X9. A command of ASCII characters that is not blocked and whose process
    closes on its own:
    the result is an error exactly when the exit code is not 0; its content
    is the text of the output, its bytes put together and read as UTF-8
    whatever way they were cut into chunks, or the text of its first
    [MAX_OUTPUT] bytes followed by the truncation note as soon as the
    output has [MAX_OUTPUT] bytes or more, or the exit code when there is
    no output at all. *)
Theorem bash_result_of_closed_process
  (os : Bash.SpawnCall -> Bash.ProcRun) (projectRoot : string)
  (input : Bash.Input) (chunks : list string) (code : option Z) :
  Utf8.isAscii (Bash.command input) = true ->
  Bash.isBlockedCommand (Bash.command input) = None ->
  os (Bash.mkSpawn "bash" ["-c"; Bash.command input] projectRoot)
  = Bash.ProcClose chunks code None false ->
  let produced := String.concat EmptyString chunks in
  Bash.execute os projectRoot input
  = ([Bash.mkSpawn "bash" ["-c"; Bash.command input] projectRoot],
     mkResult
       (if JsString.is_empty produced
        then "(no output, exit code: " +:+ Bash.codeText code +:+ ")"
        else if (Bash.MAX_OUTPUT <=? N.of_nat (String.length produced))%N
             then Utf8.decode (JsString.take (N.to_nat Bash.MAX_OUTPUT) produced)
                  +:+ String "010"%char "... (output truncated at 200KB)"
             else Utf8.decode produced)
       (Some (negb match code with Some 0%Z => true | _ => false end))).
Proof.
  intros _ Hfree Hrun. cbv zeta. unfold Bash.execute. rewrite Hfree, Hrun.
  f_equal.
  assert (H0 : collected ([], 0%N) EmptyString).
  { split; [|reflexivity]. cbn [fst String.concat].
    now destruct (N.to_nat Bash.MAX_OUTPUT). }
  pose proof (collectOutput_fold chunks _ _ H0) as [Hkept Htotal].
  rewrite app_nil_s in Hkept.
  destruct (fold_left Bash.collectOutput chunks ([], 0%N)) as [kept totalSize].
  cbn [fst snd] in Hkept, Htotal. unfold Bash.onClose. cbn [orb].
  rewrite Hkept in *. rewrite take_length_s in Htotal.
  set (produced := String.concat EmptyString chunks) in *.
  destruct (N.leb_spec Bash.MAX_OUTPUT totalSize) as [Hfull|Hroom].
  - assert (Hlong : (Bash.MAX_OUTPUT <= N.of_nat (String.length produced))%N)
      by lia.
    apply N.leb_le in Hlong. rewrite Hlong.
    assert (Hne : JsString.is_empty produced = false).
    { destruct produced; [|reflexivity].
      apply N.leb_le in Hlong. cbn in Hlong. unfold Bash.MAX_OUTPUT in Hlong. lia. }
    rewrite Hne.
    destruct (Utf8.decode (JsString.take (N.to_nat Bash.MAX_OUTPUT) produced));
      reflexivity.
  - assert (Hshort : (N.of_nat (String.length produced) < Bash.MAX_OUTPUT)%N)
      by lia.
    rewrite take_all_s by lia.
    apply N.leb_gt in Hshort. now rewrite Hshort, decode_is_empty.
Qed.

(** The witness cuts the two bytes of a character into two chunks and
    ends the output with a byte that is not UTF-8. *)
Lemma bash_result_of_closed_process_witness :
  let chunks := ["caf" +:+ String "195"%char EmptyString;
                 String "169"%char ": 3"; String "255"%char EmptyString] in
  let os := fun _ : Bash.SpawnCall =>
              Bash.ProcClose chunks (Some 2%Z) None false in
  let produced := String.concat EmptyString chunks in
  Bash.execute os "/proj" (Bash.mkInput "wc -l a.txt b.txt" None)
  = ([Bash.mkSpawn "bash" ["-c"; "wc -l a.txt b.txt"] "/proj"],
     mkResult
       (if JsString.is_empty produced
        then "(no output, exit code: " +:+ Bash.codeText (Some 2%Z) +:+ ")"
        else if (Bash.MAX_OUTPUT <=? N.of_nat (String.length produced))%N
             then Utf8.decode (JsString.take (N.to_nat Bash.MAX_OUTPUT) produced)
                  +:+ String "010"%char "... (output truncated at 200KB)"
             else Utf8.decode produced)
       (Some (negb match Some 2%Z with Some 0%Z => true | _ => false end))).
Proof.
  apply (bash_result_of_closed_process
           (fun _ => Bash.ProcClose
                       ["caf" +:+ String "195"%char EmptyString;
                        String "169"%char ": 3"; String "255"%char EmptyString]
                       (Some 2%Z) None false)
           "/proj" (Bash.mkInput "wc -l a.txt b.txt" None)
           ["caf" +:+ String "195"%char EmptyString;
            String "169"%char ": 3"; String "255"%char EmptyString]
           (Some 2%Z));
    reflexivity.
Defined.

Example bash_output_text :
  ToolTypes.content
    (snd (Bash.execute
            (fun _ => Bash.ProcClose
                        ["caf" +:+ String "195"%char EmptyString;
                         String "169"%char ": 3"; String "255"%char EmptyString]
                        (Some 0%Z) None false)
            "/proj" (Bash.mkInput "cat a.txt" None)))
  = "caf" +:+ String "195"%char (String "169"%char ": 3") +:+ Utf8.REPLACEMENT.
Proof. reflexivity. Qed.
(** ** More on the event bus *)
Section BusInvariants.
Import EventBus.
Variable now : nat -> Z.

Lemma keepLast_length {A : Type} (n : nat) (l : list A) :
  List.length (keepLast n l) <= n.
Proof. unfold keepLast. rewrite length_drop. lia. Qed.

Lemma record_bounded (b : Bus) (e : MothEvent) :
  List.length (history (record b e)) <= maxHistory
  /\ handlers (record b e) = handlers b.
Proof.
  split; [|reflexivity]. rewrite record_history. apply keepLast_length.
Qed.

(** What a call of [emit] keeps, given that the nested calls keep it. *)
Definition keepsBus (emit' : Bus -> MothEvent -> option Bus) : Prop :=
  forall b e b', emit' b e = Some b' ->
                 List.length (history b') <= maxHistory
                 /\ handlers b' = handlers b.

Lemma deliver_bounded (emit' : Bus -> MothEvent -> option Bus)
  (event : MothEvent) (hs : list Handler) (b b' : Bus) :
  keepsBus emit' ->
  List.length (history b) <= maxHistory ->
  deliver now emit' event hs b = Some b' ->
  List.length (history b') <= maxHistory /\ handlers b' = handlers b.
Proof.
  intros Hk. revert b; induction hs as [|h hs IH]; intros b Hb Hd.
  - cbn in Hd. injection Hd as <-. now split.
  - cbn [deliver] in Hd. destruct (run h event) as [|err| |err].
    + now apply IH.
    + unfold errorEvent in Hd.
      destruct (emit' _ _) as [b2|] eqn:E; [|discriminate].
      apply Hk in E as [E1 E2]. cbn [handlers] in E2.
      destruct (IH b2 E1 Hd) as [H1 H2]. split; [assumption | congruence].
    + now apply IH.
    + apply IH in Hd; [|exact Hb]. exact Hd.
Qed.

Lemma emit_keepsBus (fuel : nat) : keepsBus (emit now fuel).
Proof.
  induction fuel as [|fuel IH]; intros b e b' H; [discriminate|].
  cbn [emit] in H.
  destruct (record_bounded b e) as [Hlen Hhs].
  apply (deliver_bounded _ _ _ _ _ IH Hlen) in H as [H1 H2].
  split; [assumption | congruence].
Qed.

Lemma handlersFor_add_same (type : string) (h : Handler)
  (m : list (string * list Handler)) :
  handlersFor type (addHandler type h m)
  = if hasHandler h (handlersFor type m) then handlersFor type m
    else handlersFor type m ++ [h].
Proof.
  induction m as [|[t hs] m IH]; cbn [addHandler handlersFor].
  - now rewrite String.eqb_refl.
  - destruct (String.eqb t type) eqn:E; cbn [handlersFor]; rewrite E.
    + now destruct (hasHandler h hs).
    + exact IH.
Qed.

Lemma handlersFor_add_other (type type' : string) (h : Handler)
  (m : list (string * list Handler)) :
  type' <> type ->
  handlersFor type' (addHandler type h m) = handlersFor type' m.
Proof.
  intros Hne. induction m as [|[t hs] m IH]; cbn [addHandler handlersFor].
  - apply String.eqb_neq in Hne. rewrite String.eqb_sym in Hne. now rewrite Hne.
  - destruct (String.eqb t type) eqn:E; cbn [handlersFor].
    + apply String.eqb_eq in E; subst t.
      apply String.eqb_neq in Hne. rewrite String.eqb_sym in Hne.
      now rewrite Hne.
    + destruct (String.eqb t type'); [reflexivity | exact IH].
Qed.

Lemma handlersFor_remove_same (type : string) (id : nat)
  (m : list (string * list Handler)) :
  handlersFor type (removeHandler type id m)
  = List.filter (fun h' => negb (hid h' =? id)%nat) (handlersFor type m).
Proof.
  induction m as [|[t hs] m IH]; cbn [removeHandler handlersFor];
    [reflexivity|].
  destruct (String.eqb t type) eqn:E; cbn [handlersFor]; rewrite E;
    [reflexivity | exact IH].
Qed.

Lemma handlersFor_remove_other (type type' : string) (id : nat)
  (m : list (string * list Handler)) :
  type' <> type ->
  handlersFor type' (removeHandler type id m) = handlersFor type' m.
Proof.
  intros Hne. induction m as [|[t hs] m IH]; cbn [removeHandler handlersFor];
    [reflexivity|].
  destruct (String.eqb t type) eqn:E; cbn [handlersFor].
  - apply String.eqb_eq in E; subst t.
    apply String.eqb_neq in Hne. rewrite String.eqb_sym in Hne.
    now rewrite Hne.
  - destruct (String.eqb t type'); [reflexivity | exact IH].
Qed.

Lemma filter_absent (h : Handler) (hs : list Handler) :
  hasHandler h hs = false ->
  List.filter (fun h' => negb (hid h' =? hid h)%nat) hs = hs.
Proof.
  unfold hasHandler. induction hs as [|x hs IH]; [reflexivity|].
  cbn [existsb List.filter]. intros H. apply orb_false_iff in H as [Hx Hr].
  rewrite Hx. cbn [negb]. now rewrite (IH Hr).
Qed.

End BusInvariants.

(** X10. Whatever the handlers do, a call of [emit] that returns leaves at
    most [maxHistory] events in the history and the subscriptions as they
    were. *)
Theorem emit_bounds_history (now : nat -> Z) (fuel : nat) (bus bus' : EventBus.Bus)
  (event : EventBus.MothEvent) :
  EventBus.emit now fuel bus event = Some bus' ->
  List.length (EventBus.history bus') <= EventBus.maxHistory
  /\ EventBus.handlers bus' = EventBus.handlers bus.
Proof. apply emit_keepsBus. Qed.

Lemma emit_bounds_history_witness :
  exists bus',
    EventBus.emit Scenario.clock0 2 Scenario.loggedBus
      (EventBus.agent_text "hi" 0) = Some bus'
    /\ List.length (EventBus.history bus') <= EventBus.maxHistory
    /\ EventBus.handlers bus' = EventBus.handlers Scenario.loggedBus.
Proof.
  eexists. split; [reflexivity|].
  apply (emit_bounds_history Scenario.clock0 2 Scenario.loggedBus _
           (EventBus.agent_text "hi" 0)).
  reflexivity.
Defined.

(** X11. Subscriptions behave as sets in insertion order.  Subscribing a
    function that is not yet subscribed to a type puts it last among the
    handlers of that type, subscribing one that is changes nothing, and
    subscribing twice is subscribing once; the function [on] returns
    removes the handler and leaves the other handlers of the type in their
    order; none of this touches the handlers of another type. *)
Theorem on_and_unsubscribe (bus : EventBus.Bus) (type : string)
  (h : EventBus.Handler) :
  let before := EventBus.handlersFor type (EventBus.handlers bus) in
  let subscribed := EventBus.on bus type h in
  let after := EventBus.handlersFor type
                 (EventBus.handlers (EventBus.unsubscribe subscribed type h)) in
  EventBus.handlersFor type (EventBus.handlers subscribed)
  = (if EventBus.hasHandler h before then before else before ++ [h])
  /\ EventBus.on subscribed type h = subscribed
  /\ after = List.filter (fun h' => negb (EventBus.hid h' =? EventBus.hid h)%nat)
               before
  /\ EventBus.hasHandler h after = false
  /\ (forall type', type' <> type ->
        EventBus.handlersFor type' (EventBus.handlers subscribed)
        = EventBus.handlersFor type' (EventBus.handlers bus)
        /\ EventBus.handlersFor type'
             (EventBus.handlers (EventBus.unsubscribe subscribed type h))
           = EventBus.handlersFor type' (EventBus.handlers bus)).
Proof.
  cbv zeta. unfold EventBus.on, EventBus.unsubscribe.
  cbn [EventBus.handlers EventBus.history EventBus.rejected EventBus.ticks].
  assert (Hafter :
            EventBus.handlersFor type
              (EventBus.removeHandler type (EventBus.hid h)
                 (EventBus.addHandler type h (EventBus.handlers bus)))
            = List.filter (fun h' => negb (EventBus.hid h' =? EventBus.hid h)%nat)
                (EventBus.handlersFor type (EventBus.handlers bus))).
  { rewrite handlersFor_remove_same, handlersFor_add_same.
    destruct (EventBus.hasHandler h _); [reflexivity|].
    rewrite List.filter_app. cbn [List.filter].
    rewrite Nat.eqb_refl. cbn [negb]. now rewrite app_nil_r. }
  split; [|split; [|split; [|split]]].
  - apply handlersFor_add_same.
  - f_equal. generalize (EventBus.handlers bus) as m.
    induction m as [|[t hs] m IH]; cbn [EventBus.addHandler].
    + rewrite String.eqb_refl. unfold EventBus.hasHandler. cbn [existsb].
      now rewrite Nat.eqb_refl.
    + destruct (String.eqb t type) eqn:E; cbn [EventBus.addHandler]; rewrite E.
      * destruct (EventBus.hasHandler h hs) eqn:Hh; [now rewrite Hh|].
        assert (Hin : EventBus.hasHandler h (hs ++ [h]) = true).
        { unfold EventBus.hasHandler. rewrite existsb_app. cbn [existsb].
          rewrite Nat.eqb_refl. now rewrite orb_true_r. }
        now rewrite Hin.
      * now rewrite IH.
  - exact Hafter.
  - rewrite Hafter. unfold EventBus.hasHandler.
    generalize (EventBus.handlersFor type (EventBus.handlers bus)) as hs.
    induction hs as [|x hs IH]; [reflexivity|].
    cbn [List.filter]. destruct (Nat.eqb (EventBus.hid x) (EventBus.hid h)) eqn:E;
      cbn [negb]; [exact IH|].
    cbn [existsb]. now rewrite E, IH.
  - intros type' Hne. split.
    + now apply handlersFor_add_other.
    + rewrite handlersFor_remove_other by assumption.
      now apply handlersFor_add_other.
Qed.

(** After [clear()] nobody is subscribed and nothing is remembered: the
    next event is delivered to no handler and is the whole history. *)
Example clear_forgets (now : nat -> Z) (fuel : nat) (bus : EventBus.Bus)
  (event : EventBus.MothEvent) :
  EventBus.emit now (S fuel) (EventBus.clear bus) event
  = Some (EventBus.mkBus [] [event] (EventBus.rejected bus) (EventBus.ticks bus))
  /\ EventBus.getHistory (EventBus.clear bus) None = [].
Proof. split; reflexivity. Qed.
(** ** Validation of tool input *)
Section ValidatorFacts.
Import Json Tools.

Lemma flat_map_nil {A B : Type} (f : A -> list B) (l : list A) :
  flat_map f l = [] <-> Forall (fun x => f x = []) l.
Proof.
  induction l as [|x l IH]; cbn [flat_map].
  - split; [constructor | reflexivity].
  - split.
    + intros H. apply app_eq_nil in H as [Hx Hl].
      constructor; [assumption | now apply IH].
    + intros H. inversion H as [|? ? Hx Hl]; subst.
      rewrite Hx. now apply IH.
Qed.

(** The checked types. *)
Definition checkedType (t : string) : Prop :=
  t = "string" \/ t = "number" \/ t = "boolean".

Lemma typeErrors_nil (key : string) (value expectedType : JSON) :
  typeErrors key value expectedType = []
  <-> (forall t, expectedType = JStr t -> checkedType t -> typeOf value = t).
Proof.
  unfold typeErrors, checkedType. split.
  - intros H t -> Ht.
    apply app_eq_nil in H as [H1 H]. apply app_eq_nil in H as [H2 H3].
    destruct Ht as [-> | [-> | ->]].
    + cbn [String.eqb Ascii.eqb Bool.eqb andb] in H1.
      destruct (String.eqb_spec (typeOf value) "string"); [assumption|discriminate].
    + cbn [String.eqb Ascii.eqb Bool.eqb andb] in H2.
      destruct (String.eqb_spec (typeOf value) "number"); [assumption|discriminate].
    + cbn [String.eqb Ascii.eqb Bool.eqb andb] in H3.
      destruct (String.eqb_spec (typeOf value) "boolean"); [assumption|discriminate].
  - intros H. destruct expectedType as [| | |e| |]; try reflexivity.
    assert (Hone : forall t, checkedType t ->
              (if String.eqb e t && negb (String.eqb (typeOf value) t)
               then ["Field '" +:+ key +:+ "' expected " +:+ t +:+ ", got "
                     +:+ typeOf value]
               else []) = []).
    { intros t Ht. destruct (String.eqb_spec e t) as [->|]; [|reflexivity].
      rewrite (H t eq_refl Ht), String.eqb_refl. reflexivity. }
    unfold checkedType in Hone.
    rewrite (Hone "string"), (Hone "number"), (Hone "boolean"); auto.
Qed.

Lemma inherited_In (k : string) : inherited k = true <-> In k objectPrototype.
Proof.
  unfold inherited. rewrite existsb_exists. split.
  - intros (x & Hin & Heq). apply String.eqb_eq in Heq. now subst.
  - intros Hin. exists k. split; [assumption | apply String.eqb_refl].
Qed.

End ValidatorFacts.

(** X12. What [validateToolInput] accepts.  The input is valid exactly
    when every required field is a property of the input with a value
    other than [null], or is no property of the input but one of the names
    every object inherits ([constructor], [toString] and the like, which
    the [in] test finds), and every property of the input that is not
    [null] and whose schema declares the type [string], [number] or
    [boolean] has that [typeof].  Nothing else is looked at: properties the
    schema does not list, and properties declared with any other type,
    pass whatever they hold. *)
Theorem validateToolInput_accepts (tool : Tools.Tool) (input : Json.JObject) :
  Tools.valid (Tools.validateToolInput tool input) = true
  <-> ((forall fields field,
           Tools.required (Tools.inputSchema tool) = Some fields ->
           In field fields ->
           (exists v, Json.lookup field input = Some v /\ v <> Json.JNull)
           \/ (Json.lookup field input = None
               /\ In field Json.objectPrototype))
       /\ (forall key value propSchema t,
              In (key, value) input ->
              Json.lookup key (Tools.properties (Tools.inputSchema tool))
              = Some (Json.JObj propSchema) ->
              Json.lookup "type" propSchema = Some (Json.JStr t) ->
              checkedType t ->
              value <> Json.JNull ->
              Json.typeOf value = t)).
Proof.
  unfold Tools.validateToolInput. cbn [Tools.valid].
  set (schema := Tools.inputSchema tool).
  assert (Hnil : forall l : list string,
             match l with [] => true | _ => false end = true <-> l = [])
    by (intros [|]; split; (reflexivity || discriminate)).
  rewrite Hnil. clear Hnil. split.
  - intros H. apply app_eq_nil in H as [Hmiss Htypes]. split.
    + intros fields field Hreq Hin. unfold Tools.missingFields in Hmiss.
      rewrite Hreq in Hmiss. apply flat_map_nil in Hmiss.
      rewrite List.Forall_forall in Hmiss. specialize (Hmiss field Hin).
      unfold Tools.isMissing in Hmiss.
      destruct (Json.lookup field input) as [v|] eqn:E.
      * left. exists v. split; [reflexivity|].
        intros ->. discriminate Hmiss.
      * right. split; [reflexivity|]. apply inherited_In.
        now destruct (Json.inherited field).
    + intros key value propSchema t Hin Hprop Htype Ht Hval.
      unfold Tools.typeMismatches in Htypes. apply flat_map_nil in Htypes.
      rewrite List.Forall_forall in Htypes. specialize (Htypes _ Hin).
      cbn beta iota in Htypes. rewrite Hprop in Htypes.
      change (Json.truthy (Some (Json.JObj propSchema))) with true in Htypes.
      cbn [negb Tools.declaredType] in Htypes.
      rewrite Htype in Htypes.
      assert (Htruthy : Json.truthy (Some (Json.JStr t)) = true)
        by (destruct Ht as [-> | [-> | ->]]; reflexivity).
      rewrite Htruthy in Htypes.
      assert (Hnn : Tools.isNullish (Some value) = false)
        by (destruct value; (reflexivity || contradiction)).
      rewrite Hnn in Htypes. cbn [negb andb] in Htypes.
      now apply (typeErrors_nil key value (Json.JStr t)).
  - intros [Hreq Htypes].
    enough (Tools.missingFields schema input = []
            /\ Tools.typeMismatches schema input = []) as [-> ->]
      by reflexivity.
    split.
    + unfold Tools.missingFields.
      destruct (Tools.required schema) as [fields|] eqn:E; [|reflexivity].
      apply flat_map_nil. rewrite List.Forall_forall. intros field Hin.
      unfold Tools.isMissing.
      destruct (Hreq fields field eq_refl Hin) as [[v [-> Hv]] | [-> Hp]].
      * destruct v; (reflexivity || contradiction).
      * apply inherited_In in Hp. now rewrite Hp.
    + unfold Tools.typeMismatches. apply flat_map_nil.
      rewrite List.Forall_forall. intros [key value] Hin.
      destruct (Json.lookup key (Tools.properties schema)) as [propSchema|] eqn:Ep;
        [|reflexivity].
      destruct (negb (Json.truthy (Some propSchema))); [reflexivity|].
      destruct propSchema as [| | | | |fields]; try reflexivity.
      cbn [Tools.declaredType].
      destruct (Json.lookup "type" fields) as [t|] eqn:Et; [|reflexivity].
      destruct (Json.truthy (Some t) && negb (Tools.isNullish (Some value)))
        eqn:Eg; [|reflexivity].
      apply andb_true_iff in Eg as [_ Hnn].
      apply typeErrors_nil. intros t0 -> Ht0.
      apply (Htypes key value fields t0 Hin Ep Et Ht0).
      intros ->. discriminate Hnn.
Qed.

(** A required field named [constructor] is found on every input. *)
Example validateToolInput_inherited_name :
  Tools.validateToolInput
    (Tools.mkTool "t" "d" (Tools.mkSchema [] (Some ["constructor"; "path"]))
       None (fun _ _ => Tools.TimedOut))
    [("other", Json.JInt 1)]
  = Tools.mkValidation false ["Missing required field: path"].
Proof. reflexivity. Qed.
(** ** More on the agent loop *)
Section ModelCallFacts.
Import AgentLoop Provider.
Variable w : World.
Variable provider : ModelProvider.
Variable tools : list Tools.Tool.
Variable config : AgentConfig.

(** What a stream of provider events amounts to: the first [error] event,
    the text of the [text_delta] events, the tool calls of the
    [tool_call_end] events and the usage of the last [done] event. *)
Fixpoint firstError (evs : list (ProviderEvent Json.JObject)) : option JsError :=
  match evs with
  | [] => None
  | Provider.error e :: _ => Some e
  | _ :: rest => firstError rest
  end.

Fixpoint textOf (evs : list (ProviderEvent Json.JObject)) : string :=
  match evs with
  | [] => EmptyString
  | text_delta text :: rest => text +:+ textOf rest
  | _ :: rest => textOf rest
  end.

Fixpoint toolCallsOf (evs : list (ProviderEvent Json.JObject))
  : list (string * string * Json.JObject) :=
  match evs with
  | [] => []
  | tool_call_end id name input :: rest => (id, name, input) :: toolCallsOf rest
  | _ :: rest => toolCallsOf rest
  end.

Fixpoint usageOf (evs : list (ProviderEvent Json.JObject)) (u : TokenUsage)
  : TokenUsage :=
  match evs with
  | [] => u
  | done u' :: rest => usageOf rest u'
  | _ :: rest => usageOf rest u
  end.

(** The failure of a turn: the first [error] event, or else what the
    generator throws. *)
Definition firstFailure (s : Stream Json.JObject) : option EventBus.Thrown :=
  match firstError (events s) with
  | Some e => Some (EventBus.ThrownError e)
  | None => failure s
  end.

(** [l] after [k] readings of the clock and the publication of [log]. *)
Definition logged (l : Loop) (log : list EventBus.MothEvent) (k : nat) : Loop :=
  mkLoop (history l) (state l) (totalTokensIn l) (totalTokensOut l)
    (pendingApproval l) (emitted l ++ log) (ticks l + k) (modelCalls l)
    (approvals l) (toolRuns l).

Definition noAgentError (log : list EventBus.MothEvent) : Prop :=
  List.filter isAgentError log = [].

Lemma logged_nil (l : Loop) : logged l [] 0 = l.
Proof. destruct l. unfold logged. cbn. now rewrite app_nil_r, Nat.add_0_r. Qed.

Lemma logged_logged (l : Loop) (a b : list EventBus.MothEvent) (j k : nat) :
  logged (logged l a j) b k = logged l (a ++ b) (j + k).
Proof. unfold logged. cbn. now rewrite <- app_assoc, Nat.add_assoc. Qed.

Lemma consume_ok (evs : list (ProviderEvent Json.JObject)) (acc : Turn)
  (l : Loop) :
  firstError evs = None ->
  exists log k,
    consume w evs acc l
    = (Ok (mkTurn (textAccumulator acc +:+ textOf evs)
             (toolCalls acc ++ toolCallsOf evs) (usageOf evs (usage acc))),
       logged l log k)
    /\ noAgentError log.
Proof.
  revert acc l; induction evs as [|ev evs IH]; intros acc l Hne.
  - exists [], 0. cbn. rewrite app_empty_r, app_nil_r, logged_nil.
    split; [now destruct acc | reflexivity].
  - destruct ev; cbn [firstError] in Hne; try discriminate;
      cbn [consume textOf toolCallsOf usageOf].
    + unfold bind, dateNow, emit.
      cbn [history state totalTokensIn totalTokensOut pendingApproval emitted
           ticks modelCalls approvals toolRuns].
      match goal with |- context [consume w evs ?a ?l0] =>
        destruct (IH a l0 Hne) as (log & k & -> & Hlog) end.
      cbn [textAccumulator toolCalls usage].
      exists (EventBus.agent_text text (now w (ticks l)) :: log), (S k).
      split; [|exact Hlog].
      rewrite app_assoc_s. f_equal. unfold logged. cbn.
      rewrite <- app_assoc. f_equal. lia.
    + apply IH; assumption.
    + apply IH; assumption.
    + unfold bind, dateNow, emit.
      cbn [history state totalTokensIn totalTokensOut pendingApproval emitted
           ticks modelCalls approvals toolRuns].
      match goal with |- context [consume w evs ?a ?l0] =>
        destruct (IH a l0 Hne) as (log & k & -> & Hlog) end.
      cbn [textAccumulator toolCalls usage].
      exists (EventBus.agent_tool_request id0 name input (now w (ticks l)) :: log),
        (S k).
      split; [|exact Hlog].
      rewrite <- app_assoc. f_equal. unfold logged. cbn.
      rewrite <- app_assoc. f_equal. lia.
    + match goal with |- context [consume w evs ?a ?l0] =>
        destruct (IH a l0 Hne) as (log & k & -> & Hlog) end.
      exists log, k. split; [reflexivity | exact Hlog].
Qed.

Lemma consume_err (evs : list (ProviderEvent Json.JObject)) (acc : Turn)
  (l : Loop) (e : JsError) :
  firstError evs = Some e ->
  exists log k,
    consume w evs acc l = (Err (EventBus.ThrownError e), logged l log k)
    /\ noAgentError log.
Proof.
  revert acc l; induction evs as [|ev evs IH]; intros acc l He;
    [discriminate|].
  destruct ev; cbn [firstError] in He; cbn [consume].
  - unfold bind, dateNow, emit.
    cbn [history state totalTokensIn totalTokensOut pendingApproval emitted
         ticks modelCalls approvals toolRuns].
    match goal with |- context [consume w evs ?a ?l0] =>
      destruct (IH a l0 He) as (log & k & -> & Hlog) end.
    exists (EventBus.agent_text text (now w (ticks l)) :: log), (S k).
    split; [|exact Hlog].
    f_equal. unfold logged. cbn. rewrite <- app_assoc. f_equal. lia.
  - apply IH; assumption.
  - apply IH; assumption.
  - unfold bind, dateNow, emit.
    cbn [history state totalTokensIn totalTokensOut pendingApproval emitted
         ticks modelCalls approvals toolRuns].
    match goal with |- context [consume w evs ?a ?l0] =>
      destruct (IH a l0 He) as (log & k & -> & Hlog) end.
    exists (EventBus.agent_tool_request id0 name input (now w (ticks l)) :: log),
      (S k).
    split; [|exact Hlog].
    f_equal. unfold logged. cbn. rewrite <- app_assoc. f_equal. lia.
  - apply IH; assumption.
  - injection He as <-. exists [], 0. cbn. rewrite logged_nil.
    split; reflexivity.
Qed.

(** The content blocks of a turn that did not fail. *)
Definition blocksOf (evs : list (ProviderEvent Json.JObject))
  : list ContentBlock :=
  (if JsString.is_empty (textOf evs) then [] else [text_block (textOf evs)])
  ++ map (fun tc : string * string * Json.JObject =>
            let '(id, name, input) := tc in tool_use id name input)
       (toolCallsOf evs).

Lemma noAgentError_app (a b : list EventBus.MothEvent) :
  noAgentError a -> noAgentError b -> noAgentError (a ++ b).
Proof.
  unfold noAgentError. intros Ha Hb. now rewrite List.filter_app, Ha, Hb.
Qed.

(** A turn that does not fail: one call of the provider, one assistant
    message with the blocks of the turn, the usage added to the totals. *)
Lemma callModel_ok (l : Loop) :
  let s := streamChat provider (modelCalls l) (history l) in
  firstFailure s = None ->
  exists log k,
    callModel w provider l
    = (Some (blocksOf (events s)),
       mkLoop (history l ++ [mkMessage assistant (Blocks (blocksOf (events s))) None])
         calling_model
         (totalTokensIn l + inputTokens (usageOf (events s) (mkUsage 0 0)))
         (totalTokensOut l + outputTokens (usageOf (events s) (mkUsage 0 0)))
         (pendingApproval l) (emitted l ++ log) (ticks l + k)
         (S (modelCalls l)) (approvals l) (toolRuns l))
    /\ noAgentError log.
Proof.
  cbv zeta. unfold firstFailure.
  destruct (firstError (events (streamChat provider (modelCalls l) (history l))))
    eqn:Efirst; [discriminate|].
  intros Hfail.
  unfold callModel, bind, setState, dateNow, emit, nextModelCall, get.
  cbn [history modelCalls ticks emitted state totalTokensIn totalTokensOut
       pendingApproval approvals toolRuns].
  match goal with |- context [consume w _ ?acc ?l0] =>
    destruct (consume_ok _ acc l0 Efirst) as (log & k & -> & Hlog) end.
  rewrite Hfail. cbn [textAccumulator toolCalls usage]. rewrite app_nil_s.
  cbn [app]. unfold blocksOf, logged.
  cbn [history modelCalls ticks emitted state totalTokensIn totalTokensOut
       pendingApproval approvals toolRuns].
  destruct (JsString.is_empty (textOf _)) eqn:Etext;
    unfold bind, ret, dateNow, emit, addUsage, pushHistory, setHistory;
    cbn [history modelCalls ticks emitted state totalTokensIn totalTokensOut
         pendingApproval approvals toolRuns fst snd];
    [eexists _, (S (S k)) | eexists _, (S (S (S k)))];
    (split; [f_equal; f_equal; [rewrite <- !app_assoc; reflexivity | lia]|]);
    unfold noAgentError in *; rewrite ?List.filter_app;
    cbn [List.filter isAgentError app]; now rewrite ?List.filter_app, Hlog.
Qed.

Ltac fail_side k log Hlog :=
  cbn [fst snd history modelCalls ticks emitted state totalTokensIn
       totalTokensOut pendingApproval approvals toolRuns];
  eexists (_ :: log), (S (S k)), _;
  split; [f_equal; f_equal; [rewrite <- !app_assoc; reflexivity | lia]
         | exact Hlog].

Definition shownError (thrown : EventBus.Thrown) : JsError * bool :=
  if isAbort thrown then (mkError "Error" "Request cancelled.", true)
  else classify thrown.

(** A turn that fails: one call of the provider, nothing added to the
    history or to the totals, one [agent:error] event. *)
Lemma callModel_fail (l : Loop) (thrown : EventBus.Thrown) :
  firstFailure (streamChat provider (modelCalls l) (history l)) = Some thrown ->
  exists log k t,
    callModel w provider l
    = (None,
       mkLoop (history l) (if isAbort thrown then idle else AgentLoop.error)
         (totalTokensIn l) (totalTokensOut l) (pendingApproval l)
         (emitted l ++ log
          ++ [EventBus.agent_error (fst (shownError thrown))
                (snd (shownError thrown)) t])
         (ticks l + k) (S (modelCalls l)) (approvals l) (toolRuns l))
    /\ noAgentError log.
Proof.
  unfold firstFailure. intros Hfail.
  unfold callModel, bind, setState, dateNow, emit, nextModelCall, get.
  cbn [history modelCalls ticks emitted state totalTokensIn totalTokensOut
       pendingApproval approvals toolRuns].
  destruct (firstError (events (streamChat provider (modelCalls l) (history l))))
    as [e|] eqn:Efirst.
  - injection Hfail as <-.
    match goal with |- context [consume w _ ?acc ?l0] =>
      destruct (consume_err _ acc l0 e Efirst) as (log & k & -> & Hlog) end.
    unfold shownError, logged.
    cbn [history modelCalls ticks emitted state totalTokensIn totalTokensOut
         pendingApproval approvals toolRuns].
    destruct (isAbort (EventBus.ThrownError e)).
    + fail_side k log Hlog.
    + destruct (classify (EventBus.ThrownError e)) as [shown recoverable].
      fail_side k log Hlog.
  - match goal with |- context [consume w _ ?acc ?l0] =>
      destruct (consume_ok _ acc l0 Efirst) as (log & k & -> & Hlog) end.
    rewrite Hfail. unfold shownError, logged.
    cbn [history modelCalls ticks emitted state totalTokensIn totalTokensOut
         pendingApproval approvals toolRuns].
    destruct (isAbort thrown).
    + fail_side k log Hlog.
    + destruct (classify thrown) as [shown recoverable].
      fail_side k log Hlog.
Qed.

End ModelCallFacts.

Section ToolRunFacts.
Import AgentLoop.
Variable w : World.
Variable tools : list Tools.Tool.
Variable config : AgentConfig.

(** The tool needs the user's approval under this configuration. *)
Definition needsApproval (tl : Tools.Tool) : bool :=
  match Tools.requiresConfirmation tl with Some b => b | None => false end
  && confirmDestructive config.

Definition isApproved (d : Decision) : bool :=
  match d with Approved => true | _ => false end.

(** The call gets as far as the approval request. *)
Definition asksApproval (toolName : string) (input : Json.JObject) : bool :=
  match toolMap tools !! toolName with
  | Some tl => Tools.valid (Tools.validateToolInput tl input) && needsApproval tl
  | None => false
  end.

(** The call gets as far as [tool.execute]. *)
Definition runsTool (toolName : string) (input : Json.JObject) (l : Loop)
  : bool :=
  match toolMap tools !! toolName with
  | Some tl =>
      Tools.valid (Tools.validateToolInput tl input)
      && (negb (needsApproval tl) || isApproved (decision w (approvals l)))
  | None => false
  end.

Lemma executeTool_effect (toolId toolName : string) (input : Json.JObject)
  (l : Loop) :
  let out := executeTool w tools config toolId toolName input l in
  toolRuns (snd out)
  = toolRuns l + (if runsTool toolName input l then 1 else 0)
  /\ approvals (snd out)
     = approvals l + (if asksApproval toolName input then 1 else 0)
  /\ runsTool toolName input l || isErrorOrFalse (fst out) = true
  /\ modelCalls (snd out) = modelCalls l
  /\ totalTokensIn (snd out) = totalTokensIn l
  /\ totalTokensOut (snd out) = totalTokensOut l.
Proof.
  cbv zeta. unfold executeTool, runsTool, asksApproval, needsApproval.
  destruct (toolMap tools !! toolName) as [tl|];
    [|cbn; repeat split; lia].
  destruct (Tools.valid _); cbn [negb andb];
    [|cbn; repeat split; lia].
  destruct (match Tools.requiresConfirmation tl with
            | Some b => b | None => false end && confirmDestructive config);
    unfold requestApproval, complete, bind, dateNow, emit, setState,
      setPending, nextApproval, nextToolRun, ret;
    cbn [history modelCalls ticks emitted state totalTokensIn totalTokensOut
         pendingApproval approvals toolRuns fst snd negb orb andb].
  - destruct (decision w (approvals l));
      cbn [history modelCalls ticks emitted state totalTokensIn totalTokensOut
           pendingApproval approvals toolRuns fst snd negb orb andb
           isApproved];
      [destruct (Tools.execute tl (toolRuns l) input)| |];
      cbn [history modelCalls ticks emitted state totalTokensIn totalTokensOut
           pendingApproval approvals toolRuns fst snd negb orb andb
           isErrorOrFalse isError];
      repeat split; lia.
  - destruct (Tools.execute tl (toolRuns l) input);
      cbn [history modelCalls ticks emitted state totalTokensIn totalTokensOut
           pendingApproval approvals toolRuns fst snd negb orb andb
           isErrorOrFalse isError];
      repeat split; lia.
Qed.

End ToolRunFacts.

(** X13. The gate in front of a tool.  [tool.execute] is called, once,
    exactly when the tool is known, the input passes validation and, for a
    tool that requires confirmation under a configuration that asks for it,
    the request was answered by an approval; in every other case the tool
    is not called and the result is an error.  The user is asked at most
    once, and only for a known tool with valid input. *)
Theorem executeTool_runs_only_when_allowed
  (w : AgentLoop.World) (tools : list Tools.Tool)
  (config : AgentLoop.AgentConfig) (toolId toolName : string)
  (input : Json.JObject) (l : AgentLoop.Loop) :
  let out := AgentLoop.executeTool w tools config toolId toolName input l in
  let runs :=
    match AgentLoop.toolMap tools !! toolName with
    | Some tl =>
        Tools.valid (Tools.validateToolInput tl input)
        && (negb (match Tools.requiresConfirmation tl with
                  | Some b => b | None => false end
                  && AgentLoop.confirmDestructive config)
            || match AgentLoop.decision w (AgentLoop.approvals l) with
               | AgentLoop.Approved => true
               | _ => false
               end)
    | None => false
    end in
  let asks :=
    match AgentLoop.toolMap tools !! toolName with
    | Some tl =>
        Tools.valid (Tools.validateToolInput tl input)
        && (match Tools.requiresConfirmation tl with
            | Some b => b | None => false end
            && AgentLoop.confirmDestructive config)
    | None => false
    end in
  AgentLoop.toolRuns (snd out)
  = AgentLoop.toolRuns l + (if runs then 1 else 0)
  /\ AgentLoop.approvals (snd out)
     = AgentLoop.approvals l + (if asks then 1 else 0)
  /\ (if runs then True else isErrorOrFalse (fst out) = true).
Proof.
  cbv zeta.
  destruct (executeTool_effect w tools config toolId toolName input l)
    as (Hruns & Hasks & Herr & _).
  split; [exact Hruns|]. split; [exact Hasks|].
  unfold runsTool, needsApproval, isApproved in Herr.
  destruct (match AgentLoop.toolMap tools !! toolName with
            | Some _ => _ | None => _ end); [exact I | exact Herr].
Qed.

Section TurnsFacts.
Import AgentLoop Provider.
Variable w : World.
Variable provider : ModelProvider.
Variable tools : list Tools.Tool.
Variable config : AgentConfig.

(** [results] answers [toolUses]: one [tool_result] block for each tool
    use, in the same order, under the same id. *)
Definition answers (toolUses : list (string * string * Json.JObject))
  (results : list ContentBlock) : Prop :=
  Forall2 (fun (toolUse : string * string * Json.JObject) b =>
             exists c e, b = tool_result (fst (fst toolUse)) c e)
    toolUses results.

(** Complete rounds: each assistant message that asks for tools is
    followed by a user message that answers them; an assistant message
    that asks for none comes last. *)
Inductive rounds : list ChatMessage -> Prop :=
| rounds_nil : rounds []
| rounds_last (blocks : list ContentBlock) :
    toolUsesOf blocks = [] ->
    rounds [mkMessage assistant (Blocks blocks) None]
| rounds_cons (blocks results : list ContentBlock) (rest : list ChatMessage) :
    toolUsesOf blocks <> [] ->
    answers (toolUsesOf blocks) results ->
    rounds rest ->
    rounds (mkMessage assistant (Blocks blocks) None
            :: mkMessage user (Blocks results) None :: rest).

Lemma runToolUse_effect (toolUse : string * string * Json.JObject) (l : Loop) :
  exists c e l',
    runToolUse w tools config toolUse l
    = (tool_result (fst (fst toolUse)) c e, l')
    /\ history l' = history l
    /\ modelCalls l' = modelCalls l.
Proof.
  destruct toolUse as [[id name] input]. unfold runToolUse, bind.
  destruct (executeTool_completes w tools config id name input l)
    as (_ & _ & _ & _ & _ & _ & Hh).
  destruct (executeTool_effect w tools config id name input l)
    as (_ & _ & _ & Hm & _).
  destruct (executeTool w tools config id name input l) as [r l'].
  cbn [fst snd] in *. now exists (ToolTypes.content r), (isErrorOrFalse r), l'.
Qed.

Lemma mapM_runToolUse (toolUses : list (string * string * Json.JObject))
  (l : Loop) :
  exists results l',
    mapM (runToolUse w tools config) toolUses l = (results, l')
    /\ answers toolUses results
    /\ history l' = history l
    /\ modelCalls l' = modelCalls l.
Proof.
  revert l; induction toolUses as [|tu tus IH]; intros l.
  - exists [], l. repeat split. constructor.
  - cbn [mapM]. unfold bind at 1.
    destruct (runToolUse_effect tu l) as (c & e & l1 & -> & Hh1 & Hm1).
    unfold bind at 1.
    destruct (IH l1) as (results & l2 & -> & Hans & Hh2 & Hm2).
    cbn [ret]. eexists _, l2. split; [reflexivity|].
    split; [|split; congruence].
    constructor; [now exists c, e | exact Hans].
Qed.

Lemma callModel_cases (l : Loop) :
  exists r l',
    callModel w provider l = (r, l')
    /\ modelCalls l' = S (modelCalls l)
    /\ history l'
       = history l ++ match r with
                      | Some blocks => [mkMessage assistant (Blocks blocks) None]
                      | None => []
                      end.
Proof.
  destruct (firstFailure (streamChat provider (modelCalls l) (history l)))
    as [thrown|] eqn:E.
  - destruct (callModel_fail w provider l thrown E) as (log & k & t & -> & _).
    eexists _, _. split; [reflexivity|]. cbn. now rewrite app_nil_r.
  - destruct (callModel_ok w provider l E) as (log & k & -> & _).
    eexists _, _. split; [reflexivity|]. cbn. split; reflexivity.
Qed.

(** The loop of [processMessage]: at most one call of the provider per
    turn, and complete rounds added to the history. *)
Lemma turns_effect (n : nat) (l : Loop) :
  exists suffix,
    history (snd (turns w provider tools config n l)) = history l ++ suffix
    /\ rounds suffix
    /\ modelCalls l <= modelCalls (snd (turns w provider tools config n l))
       <= modelCalls l + n.
Proof.
  revert l; induction n as [|n IH]; intros l.
  - exists []. cbn. rewrite app_nil_r. repeat split; [constructor | lia | lia].
  - remember (turns w provider tools config (S n) l) as out eqn:Hout.
    cbn [turns] in Hout. unfold bind at 1 in Hout.
    destruct (callModel_cases l) as (r & l1 & Hc & Hm1 & Hh1).
    rewrite Hc in Hout. destruct r as [blocks|].
    2:{ exists []. subst out. cbn [ret snd]. rewrite Hh1.
        repeat split; [constructor | lia | lia]. }
    destruct (toolUsesOf blocks) as [|tu tus] eqn:Euses.
    + exists [mkMessage assistant (Blocks blocks) None]. subst out.
      unfold bind, setState, ret. cbn [snd history modelCalls].
      rewrite Hh1. repeat split; [now constructor | lia | lia].
    + unfold bind at 1 in Hout. cbn [setState] in Hout.
      set (l2 := mkLoop _ _ _ _ _ _ _ _ _ _) in Hout.
      unfold bind at 1 in Hout.
      destruct (mapM_runToolUse (tu :: tus) l2)
        as (results & l3 & Hmap & Hans & Hh3 & Hm3).
      rewrite Hmap in Hout.
      unfold bind at 1 in Hout. unfold pushHistory, setHistory in Hout.
      set (l4 := mkLoop _ _ _ _ _ _ _ _ _ _) in Hout.
      destruct (IH l4) as (suffix & Hh & Hr & Hm).
      exists (mkMessage assistant (Blocks blocks) None
              :: mkMessage user (Blocks results) None :: suffix).
      subst out. split; [|split].
      * rewrite Hh. subst l4 l2. cbn [history].
        rewrite Hh3. cbn [history]. rewrite Hh1, <- !app_assoc. reflexivity.
      * constructor; [rewrite Euses; discriminate | now rewrite Euses | exact Hr].
      * assert (Hm4 : modelCalls l4 = S (modelCalls l))
          by (subst l4 l2; cbn [modelCalls]; rewrite Hm3; exact Hm1).
        lia.
Qed.

End TurnsFacts.

Section MessageFacts.
Import AgentLoop Provider.
Variable w : World.
Variable provider : ModelProvider.
Variable tools : list Tools.Tool.
Variable config : AgentConfig.

Lemma trimLoop_keeps_last (rest : list ChatMessage) (total : Z) (removed : nat) :
  exists removedMsgs,
    rest = removedMsgs ++ fst (fst (trimLoop config rest total removed))
    /\ (rest <> [] -> fst (fst (trimLoop config rest total removed)) <> []).
Proof.
  revert total removed; induction rest as [|m rest IH]; intros total removed.
  - exists []. cbn. split; [reflexivity | auto].
  - destruct rest as [|m' rest'].
    + exists []. cbn. split; [reflexivity | discriminate].
    + rewrite trimLoop_step.
      destruct (overTarget total (contextWindowTokens config)).
      * destruct (IH (total - estimateTokens m)%Z (S removed))
          as (rm & Hrest & Hne).
        exists (m :: rm). split; [cbn [app]; now rewrite <- Hrest|].
        intros _. apply Hne. discriminate.
      * exists []. cbn. split; [reflexivity | discriminate].
Qed.

(** Trimming touches the history and the event log only, and never the
    last message of the history. *)
Lemma trim_effect (l : Loop) :
  let l' := snd (trimContextIfNeeded w config l) in
  state l' = state l
  /\ modelCalls l' = modelCalls l
  /\ ((totalEstimate (history l) <= contextWindowTokens config)%Z -> l' = l)
  /\ (forall h m, history l = h ++ [m] ->
                  exists prefix, history l' = prefix ++ [m]).
Proof.
  cbv zeta. unfold trimContextIfNeeded, bind, get.
  destruct (totalEstimate (history l) <=? contextWindowTokens config)%Z eqn:E.
  - cbn. repeat split. intros h m Hh. now exists h.
  - destruct (history l) as [|first rest] eqn:Eh.
    + apply Z.leb_gt in E.
      split; [reflexivity|]. split; [reflexivity|]. split.
      * intros Hle. lia.
      * intros h m Hh. now destruct h.
    + destruct (trimLoop_keeps_last rest (totalEstimate (first :: rest)) 0)
        as (rm & Hrest & Hne).
      destruct (trimLoop config rest (totalEstimate (first :: rest)) 0)
        as [[kept total'] removed].
      cbn [fst] in Hrest, Hne.
      assert (Hlast : forall h m, first :: rest = h ++ [m] ->
                                  exists prefix, first :: kept = prefix ++ [m]).
      { intros h m Hh. destruct rest as [|r rest'].
        - destruct rm; [|destruct rm; discriminate].
          cbn in Hrest. subst kept. now exists h.
        - specialize (Hne ltac:(discriminate)).
          destruct (exists_last Hne) as (k' & x & ->).
          rewrite Hrest in Hh.
          change (first :: rm ++ k' ++ [x]) with ((first :: rm) ++ k' ++ [x]) in Hh.
          rewrite app_assoc in Hh. apply app_inj_tail in Hh as [_ ->].
          exists (first :: k'). reflexivity. }
      apply Z.leb_gt in E.
      destruct removed;
        (split; [reflexivity|]; split; [reflexivity|]; split;
         [intros Hle; lia | exact Hlast]).
Qed.


(** [processMessage] on an idle loop, in terms of its loop of turns. *)
Lemma processMessage_idle (userMessage : string) (l : Loop) :
  state l = idle ->
  let l0 := snd (trimContextIfNeeded w config
                   (snd (pushHistory (mkMessage user (Text userMessage) None) l))) in
  let out := turns w provider tools config (maxTurns config) l0 in
  exists l',
    processMessage w provider tools config userMessage l = (tt, l')
    /\ state l' = idle
    /\ history l' = history (snd out)
    /\ modelCalls l' = modelCalls (snd out)
    /\ totalTokensIn l' = totalTokensIn (snd out)
    /\ totalTokensOut l' = totalTokensOut (snd out)
    /\ emitted l'
       = emitted (snd out)
         ++ match fst out with
            | O => [EventBus.agent_error (maxTurnsError config) true
                      (now w (ticks (snd out)))]
            | S _ => []
            end.
Proof.
  intros Hidle. cbv zeta.
  unfold processMessage, bind, get. rewrite Hidle.
  destruct (pushHistory (mkMessage user (Text userMessage) None) l)
    as [[] l0] eqn:Ep. cbn [snd].
  destruct (trimContextIfNeeded w config l0) as [[] l0'] eqn:Etrim.
  cbn [snd].
  destruct (turns w provider tools config (maxTurns config) l0') as [n l1].
  cbn [fst snd].
  destruct n; unfold dateNow, emit, setState, ret; eexists;
    (split; [reflexivity|]); cbn; repeat split.
  now rewrite app_nil_r.
Qed.

End MessageFacts.

(** X14. The turn ceiling.  A call of [processMessage] on an idle loop
    calls the provider at least once and at most [maxTurns] times, whatever
    the provider answers and whatever the tools do, and leaves the loop
    idle, also after a failed call of the provider. *)
Theorem processMessage_bounded_model_calls
  (w : AgentLoop.World) (provider : Provider.ModelProvider)
  (tools : list Tools.Tool) (config : AgentLoop.AgentConfig)
  (userMessage : string) (l : AgentLoop.Loop) :
  AgentLoop.state l = AgentLoop.idle ->
  let l' := snd (AgentLoop.processMessage w provider tools config userMessage l) in
  AgentLoop.state l' = AgentLoop.idle
  /\ AgentLoop.modelCalls l + Nat.min 1 (AgentLoop.maxTurns config)
     <= AgentLoop.modelCalls l'
     <= AgentLoop.modelCalls l + AgentLoop.maxTurns config.
Proof.
  intros Hidle l'. subst l'.
  destruct (processMessage_idle w provider tools config userMessage l Hidle)
    as (l' & -> & Hs & _ & Hm & _).
  cbn [snd]. rewrite Hm.
  set (l0 := snd (AgentLoop.trimContextIfNeeded w config
                    (snd (AgentLoop.pushHistory
                            (Provider.mkMessage Provider.user
                               (Provider.Text userMessage) None) l)))).
  assert (Hm0 : AgentLoop.modelCalls l0 = AgentLoop.modelCalls l).
  { subst l0.
    match goal with |- context [AgentLoop.trimContextIfNeeded w config ?x] =>
      destruct (trim_effect w config x) as (_ & -> & _) end.
    reflexivity. }
  destruct (turns_effect w provider tools config (AgentLoop.maxTurns config) l0)
    as (suffix & _ & _ & Hcalls).
  split; [exact Hs|].
  destruct (AgentLoop.maxTurns config) as [|k] eqn:Ek; [cbn; lia|].
  enough (AgentLoop.modelCalls l
          < AgentLoop.modelCalls
              (snd (AgentLoop.turns w provider tools config (S k) l0)))
    by (cbn [Nat.min]; lia).
  remember (AgentLoop.turns w provider tools config (S k) l0) as out eqn:Hout.
  cbn [AgentLoop.turns] in Hout. unfold AgentLoop.bind at 1 in Hout.
  destruct (callModel_cases w provider l0) as (r & l2 & Hc & Hm2 & _).
  rewrite Hc in Hout.
  enough (AgentLoop.modelCalls l2 <= AgentLoop.modelCalls (snd out)) by lia.
  destruct r as [blocks|]; [|subst out; cbn; lia].
  destruct (AgentLoop.toolUsesOf blocks) as [|tu tus].
  - subst out. unfold AgentLoop.bind, AgentLoop.setState, AgentLoop.ret.
    cbn. lia.
  - unfold AgentLoop.bind at 1 in Hout. cbn [AgentLoop.setState] in Hout.
    unfold AgentLoop.bind at 1 in Hout.
    match type of Hout with context [AgentLoop.mapM _ _ ?l3] =>
      destruct (mapM_runToolUse w tools config (tu :: tus) l3)
        as (results & l4 & Hmap & _ & _ & Hm4) end.
    rewrite Hmap in Hout. unfold AgentLoop.bind at 1 in Hout.
    unfold AgentLoop.pushHistory, AgentLoop.setHistory in Hout.
    match type of Hout with _ = AgentLoop.turns _ _ _ _ _ ?l5 =>
      destruct (turns_effect w provider tools config k l5)
        as (_ & _ & _ & Hk) end.
    rewrite <- Hout in Hk. cbn [AgentLoop.modelCalls] in Hk.
    rewrite Hm4 in Hk. cbn [AgentLoop.modelCalls] in Hk. lia.
Qed.

Lemma processMessage_bounded_model_calls_witness :
  let l' := snd (AgentLoop.processMessage Scenario.world0 Scenario.alwaysTool
                   [Scenario.echoTool] Scenario.twoTurns "go"
                   AgentLoop.initial) in
  AgentLoop.state l' = AgentLoop.idle
  /\ AgentLoop.modelCalls AgentLoop.initial
     + Nat.min 1 (AgentLoop.maxTurns Scenario.twoTurns)
     <= AgentLoop.modelCalls l'
     <= AgentLoop.modelCalls AgentLoop.initial
        + AgentLoop.maxTurns Scenario.twoTurns.
Proof.
  apply (processMessage_bounded_model_calls Scenario.world0 Scenario.alwaysTool
           [Scenario.echoTool] Scenario.twoTurns "go" AgentLoop.initial).
  reflexivity.
Defined.

(** The history after [processMessage]: the user message and complete
    rounds. *)
Lemma processMessage_rounds
  (w : AgentLoop.World) (provider : Provider.ModelProvider)
  (tools : list Tools.Tool) (config : AgentLoop.AgentConfig)
  (userMessage : string) (l : AgentLoop.Loop) :
  AgentLoop.state l = AgentLoop.idle ->
  exists prefix suffix,
    AgentLoop.history
      (snd (AgentLoop.processMessage w provider tools config userMessage l))
    = prefix
      ++ Provider.mkMessage Provider.user (Provider.Text userMessage) None
      :: suffix
    /\ rounds suffix.
Proof.
  intros Hidle.
  destruct (processMessage_idle w provider tools config userMessage l Hidle)
    as (l' & -> & _ & Hh & _).
  cbn [snd]. rewrite Hh.
  match goal with |- context [AgentLoop.turns _ _ _ _ _ ?l0] =>
    destruct (turns_effect w provider tools config (AgentLoop.maxTurns config) l0)
      as (suffix & -> & Hr & _);
    match l0 with snd (AgentLoop.trimContextIfNeeded w config ?x) =>
      destruct (trim_effect w config x) as (_ & _ & _ & Hlast) end
  end.
  destruct (Hlast (AgentLoop.history l)
              (Provider.mkMessage Provider.user (Provider.Text userMessage) None)
              eq_refl) as [prefix ->].
  exists prefix, suffix. split; [|exact Hr].
  now rewrite <- app_assoc.
Qed.


(** X15. Every tool call is answered.  After [processMessage] on an idle
    loop the history ends with the user message followed by complete
    rounds: each assistant message that holds tool uses is followed at once
    by a user message holding one [tool_result] block per tool use, in the
    same order and under the same ids, and an assistant message without
    tool uses is the last message. *)
Theorem processMessage_answers_every_tool_use
  (w : AgentLoop.World) (provider : Provider.ModelProvider)
  (tools : list Tools.Tool) (config : AgentLoop.AgentConfig)
  (userMessage : string) (l : AgentLoop.Loop) :
  AgentLoop.state l = AgentLoop.idle ->
  exists prefix suffix,
    AgentLoop.history
      (snd (AgentLoop.processMessage w provider tools config userMessage l))
    = prefix
      ++ Provider.mkMessage Provider.user (Provider.Text userMessage) None
      :: suffix
    /\ rounds suffix.
Proof. apply processMessage_rounds. Qed.

Lemma processMessage_answers_every_tool_use_witness :
  exists prefix suffix,
    AgentLoop.history
      (snd (AgentLoop.processMessage Scenario.world0 Scenario.alwaysTool
              [Scenario.echoTool] Scenario.twoTurns "go" AgentLoop.initial))
    = prefix
      ++ Provider.mkMessage Provider.user (Provider.Text "go") None :: suffix
    /\ rounds suffix.
Proof.
  apply (processMessage_answers_every_tool_use Scenario.world0
           Scenario.alwaysTool [Scenario.echoTool] Scenario.twoTurns "go"
           AgentLoop.initial).
  reflexivity.
Defined.

Section AnswerFacts.
Import AgentLoop Provider.
Variable w : World.
Variable provider : ModelProvider.
Variable tools : list Tools.Tool.
Variable config : AgentConfig.

Lemma toolUsesOf_blocksOf (evs : list (ProviderEvent Json.JObject)) :
  toolUsesOf (blocksOf evs) = toolCallsOf evs.
Proof.
  unfold blocksOf, toolUsesOf. rewrite flat_map_app.
  assert (Htext : flat_map
                    (fun b => match b with
                              | tool_use id name input => [(id, name, input)]
                              | _ => []
                              end)
                    (if JsString.is_empty (textOf evs) then []
                     else [text_block (textOf evs)]) = [])
    by now destruct (JsString.is_empty (textOf evs)).
  rewrite Htext. cbn [app].
  induction (toolCallsOf evs) as [|[[id name] input] tcs IH]; [reflexivity|].
  cbn [map flat_map app]. now rewrite IH.
Qed.

(** The loop right after the user message was pushed, when the history is
    within the budget. *)
Lemma pushed_within_budget (userMessage : string) (l : Loop) :
  (totalEstimate (history l ++ [mkMessage user (Text userMessage) None])
   <= contextWindowTokens config)%Z ->
  snd (trimContextIfNeeded w config
         (snd (pushHistory (mkMessage user (Text userMessage) None) l)))
  = mkLoop (history l ++ [mkMessage user (Text userMessage) None]) (state l)
      (totalTokensIn l) (totalTokensOut l) (pendingApproval l) (emitted l)
      (ticks l) (modelCalls l) (approvals l) (toolRuns l).
Proof.
  intros Hle.
  match goal with |- context [trimContextIfNeeded w config ?x] =>
    destruct (trim_effect w config x) as (_ & _ & Hsame & _) end.
  rewrite Hsame; [reflexivity | exact Hle].
Qed.

End AnswerFacts.

(** X16. An answer without tool calls ends the loop.  When the provider's
    first turn neither fails nor asks for a tool, [processMessage] calls it
    once; the history gains the user message and one assistant message
    whose only block is the concatenated text of the deltas (no block at
    all when there was no text); the usage of the last [done] event is
    added to the totals; the loop is idle.  No [agent:error] event is
    published, except that with [maxTurns] set to 1 the max-turns error is
    published although the model had finished. *)
Theorem processMessage_text_answer
  (w : AgentLoop.World) (provider : Provider.ModelProvider)
  (tools : list Tools.Tool) (config : AgentLoop.AgentConfig)
  (userMessage : string) (l : AgentLoop.Loop) (k : nat) :
  AgentLoop.state l = AgentLoop.idle ->
  AgentLoop.maxTurns config = S k ->
  (AgentLoop.totalEstimate
     (AgentLoop.history l
      ++ [Provider.mkMessage Provider.user (Provider.Text userMessage) None])
   <= AgentLoop.contextWindowTokens config)%Z ->
  let s := Provider.streamChat provider (AgentLoop.modelCalls l)
             (AgentLoop.history l
              ++ [Provider.mkMessage Provider.user (Provider.Text userMessage)
                    None]) in
  firstFailure s = None ->
  toolCallsOf (Provider.events s) = [] ->
  let l' := snd (AgentLoop.processMessage w provider tools config userMessage l) in
  let text := textOf (Provider.events s) in
  let used := usageOf (Provider.events s) (mkUsage 0 0) in
  AgentLoop.history l'
  = AgentLoop.history l
    ++ [Provider.mkMessage Provider.user (Provider.Text userMessage) None;
        Provider.mkMessage Provider.assistant
          (Provider.Blocks (if JsString.is_empty text then []
                            else [Provider.text_block text])) None]
  /\ AgentLoop.state l' = AgentLoop.idle
  /\ AgentLoop.modelCalls l' = S (AgentLoop.modelCalls l)
  /\ AgentLoop.totalTokensIn l' = (AgentLoop.totalTokensIn l + inputTokens used)%Z
  /\ AgentLoop.totalTokensOut l'
     = (AgentLoop.totalTokensOut l + outputTokens used)%Z
  /\ exists t,
      List.filter AgentLoop.isAgentError (AgentLoop.emitted l')
      = List.filter AgentLoop.isAgentError (AgentLoop.emitted l)
        ++ match k with
           | O => [EventBus.agent_error (AgentLoop.maxTurnsError config) true t]
           | S _ => []
           end.
Proof.
  intros Hidle Hmax Hbudget s Hok Hnone l' text used. subst l'.
  destruct (processMessage_idle w provider tools config userMessage l Hidle)
    as (l' & -> & Hs & Hh & Hm & Hin & Hout & He).
  cbn [snd]. rewrite Hh, Hm, Hin, Hout, He. clear Hh Hm Hin Hout He.
  rewrite (pushed_within_budget w config userMessage l Hbudget), Hmax.
  set (l0 := AgentLoop.mkLoop _ _ _ _ _ _ _ _ _ _).
  assert (Hturn : exists log j,
            AgentLoop.turns w provider tools config (S k) l0
            = (k, AgentLoop.mkLoop
                    (AgentLoop.history l0
                     ++ [Provider.mkMessage Provider.assistant
                           (Provider.Blocks (blocksOf (Provider.events s))) None])
                    AgentLoop.idle
                    (AgentLoop.totalTokensIn l + inputTokens used)
                    (AgentLoop.totalTokensOut l + outputTokens used)
                    (AgentLoop.pendingApproval l)
                    (AgentLoop.emitted l ++ log) (AgentLoop.ticks l + j)
                    (S (AgentLoop.modelCalls l)) (AgentLoop.approvals l)
                    (AgentLoop.toolRuns l))
            /\ noAgentError log).
  { destruct (callModel_ok w provider l0 Hok) as (log & j & Hc & Hlog).
    exists log, j. split; [|exact Hlog].
    cbn [AgentLoop.turns]. unfold AgentLoop.bind at 1. rewrite Hc.
    subst l0.
    cbn [AgentLoop.history AgentLoop.modelCalls AgentLoop.totalTokensIn
         AgentLoop.totalTokensOut AgentLoop.emitted AgentLoop.ticks
         AgentLoop.pendingApproval AgentLoop.approvals AgentLoop.toolRuns].
    fold s. rewrite toolUsesOf_blocksOf, Hnone. reflexivity. }
  destruct Hturn as (log & j & -> & Hlog). cbn [fst snd].
  cbn [AgentLoop.history AgentLoop.modelCalls AgentLoop.totalTokensIn
       AgentLoop.totalTokensOut AgentLoop.emitted AgentLoop.ticks].
  assert (Hblocks : blocksOf (Provider.events s)
                    = if JsString.is_empty text then []
                      else [Provider.text_block text]).
  { unfold blocksOf. rewrite Hnone. cbn [map]. now rewrite app_nil_r. }
  rewrite Hblocks. subst l0. cbn [AgentLoop.history]. rewrite <- app_assoc.
  split; [reflexivity|]. split; [exact Hs|].
  split; [reflexivity|]. split; [reflexivity|]. split; [reflexivity|].
  eexists. rewrite !List.filter_app. unfold noAgentError in Hlog.
  rewrite Hlog, app_nil_r. destruct k; reflexivity.
Qed.

Lemma processMessage_text_answer_witness :
  let s := Provider.streamChat Scenario2.talker 0
             [Provider.mkMessage Provider.user (Provider.Text "hi") None] in
  let l' := snd (AgentLoop.processMessage Scenario.world0 Scenario2.talker
                   [Scenario.echoTool] Scenario2.oneTurn "hi"
                   AgentLoop.initial) in
  let text := textOf (Provider.events s) in
  let used := usageOf (Provider.events s) (mkUsage 0 0) in
  AgentLoop.history l'
  = [Provider.mkMessage Provider.user (Provider.Text "hi") None;
     Provider.mkMessage Provider.assistant
       (Provider.Blocks (if JsString.is_empty text then []
                         else [Provider.text_block text])) None]
  /\ AgentLoop.state l' = AgentLoop.idle
  /\ AgentLoop.modelCalls l' = 1
  /\ AgentLoop.totalTokensIn l' = (0 + inputTokens used)%Z
  /\ AgentLoop.totalTokensOut l' = (0 + outputTokens used)%Z
  /\ exists t,
      List.filter AgentLoop.isAgentError (AgentLoop.emitted l')
      = [EventBus.agent_error (AgentLoop.maxTurnsError Scenario2.oneTurn) true t].
Proof.
  apply (processMessage_text_answer Scenario.world0 Scenario2.talker
           [Scenario.echoTool] Scenario2.oneTurn "hi" AgentLoop.initial 0);
    try reflexivity.
  vm_compute. discriminate.
Defined.

(** X17. A failed call of the provider.  When the provider's first turn
    yields an [error] event or its generator throws, [processMessage]
    calls it once and gives up: the history gains the user message only,
    the totals are unchanged, one [agent:error] event carries the
    classified error (a cancelled request is always recoverable), and the
    loop is idle, not in the [error] state.  With [maxTurns] set to 1 the
    max-turns error follows. *)
Theorem processMessage_provider_failure
  (w : AgentLoop.World) (provider : Provider.ModelProvider)
  (tools : list Tools.Tool) (config : AgentLoop.AgentConfig)
  (userMessage : string) (l : AgentLoop.Loop) (k : nat)
  (thrown : EventBus.Thrown) :
  AgentLoop.state l = AgentLoop.idle ->
  AgentLoop.maxTurns config = S k ->
  (AgentLoop.totalEstimate
     (AgentLoop.history l
      ++ [Provider.mkMessage Provider.user (Provider.Text userMessage) None])
   <= AgentLoop.contextWindowTokens config)%Z ->
  firstFailure
    (Provider.streamChat provider (AgentLoop.modelCalls l)
       (AgentLoop.history l
        ++ [Provider.mkMessage Provider.user (Provider.Text userMessage) None]))
  = Some thrown ->
  let l' := snd (AgentLoop.processMessage w provider tools config userMessage l) in
  AgentLoop.history l'
  = AgentLoop.history l
    ++ [Provider.mkMessage Provider.user (Provider.Text userMessage) None]
  /\ AgentLoop.state l' = AgentLoop.idle
  /\ AgentLoop.modelCalls l' = S (AgentLoop.modelCalls l)
  /\ AgentLoop.totalTokensIn l' = AgentLoop.totalTokensIn l
  /\ AgentLoop.totalTokensOut l' = AgentLoop.totalTokensOut l
  /\ exists t t',
      List.filter AgentLoop.isAgentError (AgentLoop.emitted l')
      = List.filter AgentLoop.isAgentError (AgentLoop.emitted l)
        ++ EventBus.agent_error (fst (shownError thrown))
             (snd (shownError thrown)) t
        :: match k with
           | O => [EventBus.agent_error (AgentLoop.maxTurnsError config) true t']
           | S _ => []
           end.
Proof.
  intros Hidle Hmax Hbudget Hfail l'. subst l'.
  destruct (processMessage_idle w provider tools config userMessage l Hidle)
    as (l' & -> & Hs & Hh & Hm & Hin & Hout & He).
  cbn [snd]. rewrite Hh, Hm, Hin, Hout, He. clear Hh Hm Hin Hout He.
  rewrite (pushed_within_budget w config userMessage l Hbudget), Hmax.
  set (l0 := AgentLoop.mkLoop _ _ _ _ _ _ _ _ _ _).
  destruct (callModel_fail w provider l0 thrown Hfail)
    as (log & j & t & Hc & Hlog).
  cbn [AgentLoop.turns]. unfold AgentLoop.bind at 1. rewrite Hc.
  unfold AgentLoop.bind at 1. rewrite Hc.
  unfold AgentLoop.bind at 1. rewrite Hc.
  unfold AgentLoop.bind at 1. rewrite Hc.
  unfold AgentLoop.bind at 1. rewrite Hc.
  unfold AgentLoop.bind at 1. rewrite Hc.
  unfold AgentLoop.bind at 1. rewrite Hc.
  cbn [AgentLoop.ret fst snd AgentLoop.history AgentLoop.modelCalls
       AgentLoop.totalTokensIn AgentLoop.totalTokensOut AgentLoop.emitted
       AgentLoop.ticks].
  subst l0. cbn [AgentLoop.history AgentLoop.modelCalls AgentLoop.totalTokensIn
                 AgentLoop.totalTokensOut AgentLoop.emitted].
  split; [reflexivity|]. split; [exact Hs|].
  split; [reflexivity|]. split; [reflexivity|]. split; [reflexivity|].
  eexists t, _. rewrite !List.filter_app. unfold noAgentError in Hlog.
  rewrite Hlog. cbn [app List.filter AgentLoop.isAgentError].
  rewrite <- app_assoc. destruct k; reflexivity.
Qed.

Lemma processMessage_provider_failure_witness :
  let l' := snd (AgentLoop.processMessage Scenario.world0 Scenario2.limited
                   [Scenario.echoTool] Scenario.twoTurns "hi"
                   AgentLoop.initial) in
  AgentLoop.history l'
  = [Provider.mkMessage Provider.user (Provider.Text "hi") None]
  /\ AgentLoop.state l' = AgentLoop.idle
  /\ AgentLoop.modelCalls l' = 1
  /\ AgentLoop.totalTokensIn l' = 0%Z
  /\ AgentLoop.totalTokensOut l' = 0%Z
  /\ exists t t',
      List.filter AgentLoop.isAgentError (AgentLoop.emitted l')
      = EventBus.agent_error
          (fst (shownError
                  (EventBus.ThrownError
                     (mkError "Error" "Limited API error 429: Too Many Requests"))))
          (snd (shownError
                  (EventBus.ThrownError
                     (mkError "Error" "Limited API error 429: Too Many Requests"))))
          t
        :: match 1 with
           | O => [EventBus.agent_error (AgentLoop.maxTurnsError Scenario.twoTurns)
                     true t']
           | S _ => []
           end.
Proof.
  apply (processMessage_provider_failure Scenario.world0 Scenario2.limited
           [Scenario.echoTool] Scenario.twoTurns "hi" AgentLoop.initial 1
           (EventBus.ThrownError
              (mkError "Error" "Limited API error 429: Too Many Requests")));
    try reflexivity.
  vm_compute. discriminate.
Defined.
(** ** More on the OpenAI-compatible adapter *)
Section ChunkFacts.
Import Json JsString Provider OpenAICompatible.

Definition setBuffer (x : string) (s : State) : State :=
  mkState x (inputTokens s) (outputTokens s) (pendingToolCalls s).

(** A computation that neither reads nor writes [buffer]. *)
Definition blind {A : Type} (m : G A) : Prop :=
  forall s x,
    m (setBuffer x s) = let '(s', evs, o) := m s in (setBuffer x s', evs, o).

Lemma blind_ret {A : Type} (a : A) : blind (ret a).
Proof. intros s x. reflexivity. Qed.

Lemma blind_yield (ev : Event) : blind (yield ev).
Proof. intros s x. reflexivity. Qed.

Lemma blind_throw {A : Type} (e : JsError) : blind (@throw A e).
Proof. intros s x. reflexivity. Qed.

Lemma blind_off {A : Type} : blind (@off A).
Proof. intros s x. reflexivity. Qed.

Lemma blind_setTable (t : Table) : blind (setTable t).
Proof. intros s x. reflexivity. Qed.

Lemma blind_bind {A B : Type} (m : G A) (k : A -> G B) :
  blind m -> (forall a, blind (k a)) -> blind (bind m k).
Proof.
  intros Hm Hk s x. unfold bind. rewrite Hm.
  destruct (m s) as [[s1 ev1] o]. destruct o as [a| |]; [|reflexivity..].
  rewrite Hk. destruct (k a s1) as [[s2 ev2] o2]. reflexivity.
Qed.

Lemma blind_get_bind {B : Type} (k : State -> G B) :
  (forall s, blind (k s)) ->
  (forall s x, k (setBuffer x s) = k s) ->
  blind (bind get k).
Proof.
  intros Hk Hsame s x. unfold bind, get. rewrite Hsame, Hk.
  destruct (k s s) as [[s2 ev2] o2]. now rewrite app_nil_l.
Qed.

Lemma blind_forEach {A : Type} (f : A -> G unit) (xs : list A) :
  (forall a, blind (f a)) -> blind (forEach f xs).
Proof.
  intros Hf. induction xs as [|a xs IH]; [apply blind_ret|].
  cbn [forEach]. apply blind_bind; [apply Hf | intros _; exact IH].
Qed.

Lemma blind_prop (v : JSON) (k : string) : blind (prop v k).
Proof. destruct v; first [apply blind_ret | apply blind_throw]. Qed.

Lemma blind_optProp (o : option JSON) (k : string) : blind (optProp o k).
Proof. destruct o as [[]|]; first [apply blind_ret | apply blind_prop]. Qed.

Lemma blind_text (o : option JSON) : blind (text o).
Proof.
  unfold text. destruct (truthy o); [|apply blind_ret].
  destruct o as [[]|]; first [apply blind_ret | apply blind_off].
Qed.

Lemma blind_count (a b : option JSON) : blind (count a b).
Proof.
  unfold count.
  destruct (if truthy a then a else if truthy b then b else Some (JInt 0))
    as [[| |m [|e]| | |]|]; first [apply blind_ret | apply blind_off].
Qed.

Ltac blind_step :=
  first
    [ apply blind_ret | apply blind_yield | apply blind_throw | apply blind_off
    | apply blind_setTable | apply blind_prop | apply blind_optProp
    | apply blind_text | apply blind_count
    | apply blind_get_bind; [intro | intros; reflexivity]
    | apply blind_bind; [|intro]
    | apply blind_forEach; intro
    | match goal with
      | |- blind (match ?x with _ => _ end) => destruct x
      | |- blind (if ?b then _ else _) => destruct b
      end
    | (intros s x; reflexivity) ].

Lemma blind_onToolCall (tc : JSON) : blind (onToolCall tc).
Proof. unfold onToolCall. cbv zeta. repeat blind_step. Qed.

Lemma blind_onPayload (parsed : JSON) : blind (onPayload parsed).
Proof.
  unfold onPayload. cbv zeta.
  repeat first [ apply blind_forEach; intro; apply blind_onToolCall | blind_step ].
Qed.

Lemma blind_onLine (line : string) : blind (onLine line).
Proof.
  unfold onLine. cbv zeta.
  repeat first [ apply blind_onPayload | blind_step ].
Qed.

(** *** Lines across chunk boundaries *)

Lemma unsnoc_cons (x y : string) (rest : list string) :
  unsnoc (x :: y :: rest)
  = (x :: fst (unsnoc (y :: rest)), snd (unsnoc (y :: rest))).
Proof.
  change (unsnoc (x :: y :: rest))
    with (let '(init, l) := unsnoc (y :: rest) in (x :: init, l)).
  now destruct (unsnoc (y :: rest)).
Qed.

Lemma unsnoc_app (xs L : list string) :
  L <> [] ->
  unsnoc (xs ++ L) = (xs ++ fst (unsnoc L), snd (unsnoc L)).
Proof.
  intros HL. induction xs as [|x xs IH];
    [cbn [app]; now destruct (unsnoc L)|].
  cbn [app]. destruct (xs ++ L) as [|y rest] eqn:E.
  - destruct xs; [contradiction | discriminate].
  - rewrite unsnoc_cons, IH. reflexivity.
Qed.

(** The text of a chunk continues the last, unfinished line of the text
    before it. *)
Lemma split_continue (c : ascii) (x y : string) :
  split c (x +:+ y)
  = fst (unsnoc (split c x)) ++ split c (snd (unsnoc (split c x)) +:+ y).
Proof.
  induction x as [|a x IH]; [reflexivity|].
  rewrite app_cons_s. cbn [split].
  pose proof (split_not_nil c x) as Hne.
  destruct (Ascii.eqb a c) eqn:Ea.
  - destruct (split c x) as [|h t] eqn:E; [contradiction|].
    rewrite unsnoc_cons. cbn [fst snd app]. now rewrite IH.
  - rewrite IH. destruct (split c x) as [|h t] eqn:E; [contradiction|].
    destruct t as [|h' t'].
    + cbn [unsnoc fst snd app]. rewrite app_cons_s. cbn [split].
      now rewrite Ea.
    + rewrite !unsnoc_cons. cbn [fst snd app]. reflexivity.
Qed.

Lemma forEach_app {A : Type} (f : A -> G unit) (xs ys : list A) (s : State) :
  forEach f (xs ++ ys) s
  = let '(s1, ev1, o) := forEach f xs s in
    match o with
    | Val _ => let '(s2, ev2, o2) := forEach f ys s1 in (s2, ev1 ++ ev2, o2)
    | Throws e => (s1, ev1, Throws e)
    | OffProtocol => (s1, ev1, OffProtocol)
    end.
Proof.
  revert s; induction xs as [|x xs IH]; intros s.
  - cbn. now destruct (forEach f ys s) as [[s2 ev2] o2].
  - cbn [app forEach]. unfold bind.
    destruct (f x s) as [[s1 ev1] o]. destruct o as [[]| |]; [|reflexivity..].
    rewrite IH. destruct (forEach f xs s1) as [[s2 ev2] o2].
    destruct o2 as [[]| |]; [|reflexivity..].
    destruct (forEach f ys s2) as [[s3 ev3] o3]. now rewrite app_assoc.
Qed.

(** One round of the reading loop, spelled out. *)
Lemma onChunk_lines (value : string) (s : State) :
  onChunk value s
  = forEach onLine (fst (unsnoc (split "010"%char (buffer s +:+ value))))
      (setBuffer (snd (unsnoc (split "010"%char (buffer s +:+ value)))) s).
Proof.
  unfold onChunk, bind, get, put.
  destruct (unsnoc (split "010"%char (buffer s +:+ value))) as [lines rest].
  cbn [fst snd]. unfold setBuffer.
  destruct (forEach onLine lines _) as [[s2 ev2] o2]. reflexivity.
Qed.

(** Two runs that yield the same events and end the same way, in the same
    state when they end normally. *)
Definition agree (r1 r2 : State * list Event * Out unit) : Prop :=
  snd (fst r1) = snd (fst r2) /\ snd r1 = snd r2
  /\ (snd r1 = Val tt -> fst (fst r1) = fst (fst r2)).

Lemma onChunk_merge (a b : string) (s : State) :
  agree (bind (onChunk a) (fun _ => onChunk b) s) (onChunk (a +:+ b) s).
Proof.
  unfold bind. rewrite !onChunk_lines.
  rewrite <- app_assoc_s, (split_continue _ (buffer s +:+ a) b).
  destruct (unsnoc (split "010"%char (buffer s +:+ a))) as [la ra].
  cbn [fst snd].
  rewrite unsnoc_app by apply split_not_nil.
  cbn [fst snd]. rewrite forEach_app.
  rewrite !(blind_forEach onLine la blind_onLine s).
  destruct (forEach onLine la s) as [[s1 e1] o1].
  destruct o1 as [[]| |]; [|repeat split; discriminate..].
  rewrite onChunk_lines. cbn [buffer setBuffer].
  change (setBuffer (snd (unsnoc (split "010"%char (ra +:+ b))))
            (mkState ra (inputTokens s1) (outputTokens s1) (pendingToolCalls s1)))
    with (setBuffer (snd (unsnoc (split "010"%char (ra +:+ b)))) s1).
  destruct (forEach onLine _ _) as [[s2 e2] o2].
  repeat split.
Qed.

Lemma onChunks_agree (a : string) (chunks : list string) (s : State) :
  agree (forEach onChunk (a :: chunks) s)
    (onChunk (String.concat EmptyString (a :: chunks)) s).
Proof.
  revert a s; induction chunks as [|b chunks IH]; intros a s.
  - cbn [forEach String.concat]. unfold bind, ret.
    destruct (onChunk a s) as [[s1 e1] o1].
    destruct o1 as [[]| |]; cbn; rewrite ?app_nil_r; repeat split.
  - rewrite concat_cons.
    destruct (onChunk_merge a (String.concat EmptyString (b :: chunks)) s)
      as (He & Ho & Hs).
    revert He Ho Hs.
    change (forEach onChunk (a :: b :: chunks) s)
      with (bind (onChunk a) (fun _ => forEach onChunk (b :: chunks)) s).
    unfold bind.
    destruct (onChunk a s) as [[s1 e1] o1].
    destruct o1 as [[]| |]; [|intros He Ho Hs; repeat split; assumption..].
    destruct (IH b s1) as (He' & Ho' & Hs').
    destruct (forEach onChunk (b :: chunks) s1) as [[s2 e2] o2].
    destruct (onChunk (String.concat EmptyString (b :: chunks)) s1)
      as [[s2' e2'] o2'].
    cbn [fst snd] in *. intros He Ho Hs.
    subst e2' o2'. split; [exact He|]. split; [exact Ho|].
    intros Hv. rewrite <- (Hs Hv). now apply Hs'.
Qed.

End ChunkFacts.

Lemma streamChat_concat
  (displayName : string) (ok : bool) (status : Z) (errorText : option string)
  (chunks : list string) (readFailure : option EventBus.Thrown) :
  OpenAICompatible.streamChat displayName
    (OpenAICompatible.mkResponse ok status errorText (Some (chunks, readFailure)))
  = OpenAICompatible.streamChat displayName
      (OpenAICompatible.mkResponse ok status errorText
         (Some ([String.concat EmptyString chunks], readFailure))).
Proof.
  unfold OpenAICompatible.streamChat.
  cbn [OpenAICompatible.ok OpenAICompatible.body OpenAICompatible.status
       OpenAICompatible.errorText].
  destruct ok; [|reflexivity]. cbn [negb].
  destruct chunks as [|a chunks]; [reflexivity|].
  destruct (onChunks_agree a chunks OpenAICompatible.start) as (He & Ho & Hs).
  assert (Hone : OpenAICompatible.forEach OpenAICompatible.onChunk
                   [String.concat EmptyString (a :: chunks)]
                   OpenAICompatible.start
                 = let '(s1, e1, o1) :=
                     OpenAICompatible.onChunk
                       (String.concat EmptyString (a :: chunks))
                       OpenAICompatible.start in
                   (s1, e1, o1)).
  { cbn [OpenAICompatible.forEach]. unfold OpenAICompatible.bind.
    destruct (OpenAICompatible.onChunk _ _) as [[s1 e1] o1].
    destruct o1 as [[]| |]; cbn; now rewrite ?app_nil_r. }
  rewrite Hone.
  destruct (OpenAICompatible.forEach OpenAICompatible.onChunk (a :: chunks)
              OpenAICompatible.start) as [[s1 e1] o1].
  destruct (OpenAICompatible.onChunk _ _) as [[s2 e2] o2].
  cbn [fst snd] in *. subst e2 o2.
  destruct o1 as [[]| |]; [|reflexivity..].
  now rewrite (Hs eq_refl).
Qed.

(** What is left in [buffer] when the body ends is not looked at. *)
Lemma streamChat_tail
  (displayName : string) (ok : bool) (status : Z) (errorText : option string)
  (complete tail : string) (readFailure : option EventBus.Thrown) :
  JsString.has_char "010"%char tail = false ->
  OpenAICompatible.streamChat displayName
    (OpenAICompatible.mkResponse ok status errorText
       (Some ([complete +:+ String "010"%char tail], readFailure)))
  = OpenAICompatible.streamChat displayName
      (OpenAICompatible.mkResponse ok status errorText
         (Some ([complete +:+ String "010"%char EmptyString], readFailure))).
Proof.
  intros Htail. unfold OpenAICompatible.streamChat.
  cbn [OpenAICompatible.ok OpenAICompatible.body OpenAICompatible.status
       OpenAICompatible.errorText].
  destruct ok; [|reflexivity]. cbn [negb].
  cbn [OpenAICompatible.forEach]. unfold OpenAICompatible.bind.
  rewrite !onChunk_lines.
  cbn [OpenAICompatible.buffer OpenAICompatible.start]. rewrite !app_nil_s.
  rewrite !split_app, (split_no_char _ _ Htail).
  cbn [JsString.split].
  rewrite !unsnoc_app by discriminate.
  cbn [OpenAICompatible.unsnoc fst snd]. rewrite !app_nil_r.
  rewrite !(blind_forEach OpenAICompatible.onLine _ blind_onLine
              OpenAICompatible.start).
  destruct (OpenAICompatible.forEach OpenAICompatible.onLine _ _)
    as [[s1 e1] o1].
  destruct o1 as [[]| |]; reflexivity.
Qed.

(** X18. The events do not depend on how the network cuts the body into
    chunks: reading the chunks one by one yields the events, and ends the
    way, of reading the whole body as one chunk. *)
Theorem streamChat_ignores_chunk_boundaries
  (displayName : string) (ok : bool) (status : Z) (errorText : option string)
  (chunks : list string) (readFailure : option EventBus.Thrown) :
  OpenAICompatible.streamChat displayName
    (OpenAICompatible.mkResponse ok status errorText (Some (chunks, readFailure)))
  = OpenAICompatible.streamChat displayName
      (OpenAICompatible.mkResponse ok status errorText
         (Some ([String.concat EmptyString chunks], readFailure))).
Proof. apply streamChat_concat. Qed.

(** X19. Only finished lines are read: what follows the last line feed of
    the body is dropped, so a last [data:] line that is not closed by a
    line feed yields no event, and a body without any line feed yields
    nothing but [done]. *)
Theorem streamChat_drops_unfinished_line
  (displayName : string) (ok : bool) (status : Z) (errorText : option string)
  (chunks : list string) (complete tail : string)
  (readFailure : option EventBus.Thrown) :
  String.concat EmptyString chunks = complete +:+ tail ->
  JsString.has_char "010"%char tail = false ->
  complete = EmptyString \/ JsString.last complete = Some "010"%char ->
  OpenAICompatible.streamChat displayName
    (OpenAICompatible.mkResponse ok status errorText (Some (chunks, readFailure)))
  = OpenAICompatible.streamChat displayName
      (OpenAICompatible.mkResponse ok status errorText
         (Some ([complete], readFailure))).
Proof.
  intros Hbody Htail Hcomplete.
  rewrite streamChat_concat, Hbody.
  destruct Hcomplete as [->|Hlast].
  - rewrite app_nil_s.
    unfold OpenAICompatible.streamChat.
    cbn [OpenAICompatible.ok OpenAICompatible.body OpenAICompatible.status
         OpenAICompatible.errorText].
    destruct ok; [|reflexivity]. cbn [negb].
    cbn [OpenAICompatible.forEach]. unfold OpenAICompatible.bind.
    rewrite !onChunk_lines.
    cbn [OpenAICompatible.buffer OpenAICompatible.start]. rewrite !app_nil_s.
    rewrite (split_no_char _ _ Htail). reflexivity.
  - assert (Hc : exists c, complete = c +:+ String "010"%char EmptyString).
    { clear -Hlast. induction complete as [|a c IH]; [discriminate|].
      destruct c as [|b c].
      - injection Hlast as ->. now exists EmptyString.
      - destruct (IH Hlast) as [c' Hc']. exists (String a c').
        now rewrite app_cons_s, <- Hc'. }
    destruct Hc as [c ->].
    rewrite app_assoc_s. rewrite app_cons_s, app_nil_s.
    now apply streamChat_tail.
Qed.

Lemma streamChat_drops_unfinished_line_witness :
  OpenAICompatible.streamChat "Scripted"
    (OpenAICompatible.mkResponse true 200 None
       (Some ([Scenario.dq "data: {'choices':[{'delta':{'content':'Hi'}}]}"
               +:+ Scenario.nl +:+ Scenario.dq "data: {'choices':[{'del";
               Scenario.dq "ta':{'content':'!'}}]}"], None)))
  = OpenAICompatible.streamChat "Scripted"
      (OpenAICompatible.mkResponse true 200 None
         (Some ([Scenario.dq "data: {'choices':[{'delta':{'content':'Hi'}}]}"
                 +:+ Scenario.nl], None))).
Proof.
  apply (streamChat_drops_unfinished_line "Scripted" true 200 None _
           (Scenario.dq "data: {'choices':[{'delta':{'content':'Hi'}}]}"
            +:+ Scenario.nl)
           (Scenario.dq "data: {'choices':[{'delta':{'content':'!'}}]}")
           None).
  - vm_compute. reflexivity.
  - vm_compute. reflexivity.
  - right. vm_compute. reflexivity.
Defined.

Section SkippedLines.
Import Json JsString Provider OpenAICompatible.

(** The lines [onLine] passes over: blank lines, the [[DONE]] marker,
    lines that are not [data:] lines and [data:] lines whose payload is
    not JSON. *)
Definition skipped (line : string) : bool :=
  let trimmed := trim line in
  is_empty trimmed || String.eqb trimmed "data: [DONE]"
  || negb (startsWith trimmed "data: ")
  || match parse (drop 6 trimmed) with None => true | Some _ => false end.

Lemma onLine_skipped (line : string) (s : State) :
  skipped line = true -> onLine line s = (s, [], Val tt).
Proof.
  unfold skipped, onLine. cbv zeta.
  destruct (is_empty (trim line) || String.eqb (trim line) "data: [DONE]");
    [reflexivity|].
  cbn [orb]. destruct (startsWith (trim line) "data: "); [|reflexivity].
  cbn [negb orb]. destruct (parse (drop 6 (trim line))); [discriminate|].
  reflexivity.
Qed.

Lemma forEach_skip (before after : list string) (line : string) (s : State) :
  skipped line = true ->
  forEach onLine (before ++ line :: after) s
  = forEach onLine (before ++ after) s.
Proof.
  intros Hskip. rewrite !forEach_app.
  destruct (forEach onLine before s) as [[s1 e1] o1].
  destruct o1 as [[]| |]; [|reflexivity..].
  cbn [forEach]. unfold bind. rewrite (onLine_skipped _ _ Hskip).
  destruct (forEach onLine after s1) as [[s2 e2] o2]. reflexivity.
Qed.

End SkippedLines.

(** X20. Lines that are not payloads change nothing: a blank line, a
    comment or keep-alive line, the [[DONE]] marker or a [data:] line whose
    payload does not parse can be taken out of the body, wherever it
    stands, without changing the events; in particular the lines that
    follow [[DONE]] are still read. *)
Theorem streamChat_skips_other_lines
  (displayName : string) (ok : bool) (status : Z) (errorText : option string)
  (chunks : list string) (before line after : string)
  (readFailure : option EventBus.Thrown) :
  String.concat EmptyString chunks
  = before +:+ line +:+ String "010"%char after ->
  before = EmptyString \/ JsString.last before = Some "010"%char ->
  JsString.has_char "010"%char line = false ->
  skipped line = true ->
  OpenAICompatible.streamChat displayName
    (OpenAICompatible.mkResponse ok status errorText (Some (chunks, readFailure)))
  = OpenAICompatible.streamChat displayName
      (OpenAICompatible.mkResponse ok status errorText
         (Some ([before +:+ after], readFailure))).
Proof.
  intros Hbody Hbefore Hline Hskip.
  rewrite streamChat_concat, Hbody.
  unfold OpenAICompatible.streamChat.
  cbn [OpenAICompatible.ok OpenAICompatible.body OpenAICompatible.status
       OpenAICompatible.errorText].
  destruct ok; [|reflexivity]. cbn [negb].
  cbn [OpenAICompatible.forEach]. unfold OpenAICompatible.bind.
  rewrite !onChunk_lines.
  cbn [OpenAICompatible.buffer OpenAICompatible.start]. rewrite !app_nil_s.
  assert (Hsplit : exists pre,
            JsString.split "010"%char (before +:+ line +:+ String "010"%char after)
            = pre ++ line :: JsString.split "010"%char after
            /\ JsString.split "010"%char (before +:+ after)
               = pre ++ JsString.split "010"%char after).
  { destruct Hbefore as [->|Hlast].
    - exists []. rewrite !app_nil_s, split_app, (split_no_char _ _ Hline).
      split; reflexivity.
    - assert (Hc : exists c, before = c +:+ String "010"%char EmptyString).
      { clear -Hlast. induction before as [|a c IH]; [discriminate|].
        destruct c as [|b c].
        - injection Hlast as ->. now exists EmptyString.
        - destruct (IH Hlast) as [c' Hc']. exists (String a c').
          now rewrite app_cons_s, <- Hc'. }
      destruct Hc as [c ->]. exists (JsString.split "010"%char c).
      rewrite !app_assoc_s, !app_cons_s, !app_nil_s.
      rewrite !split_app, (split_no_char _ _ Hline). split; reflexivity. }
  destruct Hsplit as (pre & -> & ->).
  change (pre ++ line :: JsString.split "010"%char after)
    with (pre ++ [line] ++ JsString.split "010"%char after).
  rewrite app_assoc, !unsnoc_app by apply split_not_nil.
  cbn [fst snd]. rewrite <- app_assoc. cbn [app].
  now rewrite (forEach_skip _ _ _ _ Hskip).
Qed.

Lemma streamChat_skips_other_lines_witness :
  OpenAICompatible.streamChat "Scripted"
    (OpenAICompatible.mkResponse true 200 None
       (Some ([": keep-alive" +:+ Scenario.nl +:+ "data: [DO";
               "NE]" +:+ Scenario.nl
               +:+ Scenario.dq "data: {'choices':[{'delta':{'content':'Hi'}}]}"
               +:+ Scenario.nl], None)))
  = OpenAICompatible.streamChat "Scripted"
      (OpenAICompatible.mkResponse true 200 None
         (Some ([(": keep-alive" +:+ Scenario.nl)
                 +:+ Scenario.dq "data: {'choices':[{'delta':{'content':'Hi'}}]}"
                 +:+ Scenario.nl], None))).
Proof.
  apply (streamChat_skips_other_lines "Scripted" true 200 None _
           (": keep-alive" +:+ Scenario.nl) "data: [DONE]"
           (Scenario.dq "data: {'choices':[{'delta':{'content':'Hi'}}]}"
            +:+ Scenario.nl) None).
  - vm_compute. reflexivity.
  - right. vm_compute. reflexivity.
  - vm_compute. reflexivity.
  - vm_compute. reflexivity.
Defined.

(** The events of that body. *)
Example streamChat_after_done_marker :
  OpenAICompatible.streamChat "Scripted"
    (OpenAICompatible.mkResponse true 200 None
       (Some ([": keep-alive" +:+ Scenario.nl +:+ "data: [DO";
               "NE]" +:+ Scenario.nl
               +:+ Scenario.dq "data: {'choices':[{'delta':{'content':'Hi'}}]}"
               +:+ Scenario.nl], None)))
  = ([Provider.text_delta "Hi"; Provider.done (mkUsage 0 0)],
     OpenAICompatible.Finished).
Proof. vm_compute. reflexivity. Qed.
(** ** The request of the OpenAI-compatible adapter *)
Section RequestFacts.
Import Json JsString Provider OpenAIRequest.






End RequestFacts.



(** The request messages after a run of two turns. *)
Example convertMessages_two_rounds :
  OpenAIRequest.convertMessages
    (AgentLoop.history
       (snd (AgentLoop.processMessage Scenario.world0 Scenario.alwaysTool
               [Scenario.echoTool] Scenario.twoTurns "go" AgentLoop.initial)))
    (Some "Be brief.")
  = [OpenAIRequest.plain Provider.system "Be brief.";
     OpenAIRequest.plain Provider.user "go";
     OpenAIRequest.mkOpenAIMessage Provider.assistant None
       (Some [OpenAIRequest.mkToolCall "call" "echo"
                (Scenario.dq "{'text':'hi'}")]) None;
     OpenAIRequest.mkOpenAIMessage Provider.tool (Some "ok") None (Some "call");
     OpenAIRequest.mkOpenAIMessage Provider.assistant None
       (Some [OpenAIRequest.mkToolCall "call" "echo"
                (Scenario.dq "{'text':'hi'}")]) None;
     OpenAIRequest.mkOpenAIMessage Provider.tool (Some "ok") None (Some "call")].
Proof. vm_compute. reflexivity. Qed.

Section LossFacts.
Import Json JsString Provider OpenAIRequest.

Definition isToolResult (b : ContentBlock) : bool :=
  match b with tool_result _ _ _ => true | _ => false end.

(** the block with its error flag cleared *)
Definition unflagged (b : ContentBlock) : ContentBlock :=
  match b with
  | tool_result toolCallId content _ => tool_result toolCallId content false
  | _ => b
  end.

Lemma toolResults_filter (blocks : list ContentBlock) :
  toolResults (List.filter isToolResult blocks) = toolResults blocks.
Proof.
  unfold toolResults. induction blocks as [|b blocks IH]; [reflexivity|].
  cbn [List.filter flat_map]. destruct b; cbn [isToolResult flat_map app];
    now rewrite IH.
Qed.

Lemma parts_unflagged (blocks : list ContentBlock) :
  textParts (map unflagged blocks) = textParts blocks
  /\ toolCalls (map unflagged blocks) = toolCalls blocks
  /\ toolResults (map unflagged blocks) = toolResults blocks.
Proof.
  unfold textParts, toolCalls, toolResults.
  induction blocks as [|b blocks (IH1 & IH2 & IH3)]; [repeat split|].
  cbn [map flat_map]. rewrite IH1, IH2, IH3. destruct b; repeat split.
Qed.

Lemma parts_without_results (blocks : list ContentBlock) :
  textParts (List.filter (fun b => negb (isToolResult b)) blocks)
  = textParts blocks
  /\ toolCalls (List.filter (fun b => negb (isToolResult b)) blocks)
     = toolCalls blocks.
Proof.
  unfold textParts, toolCalls.
  induction blocks as [|b blocks (IH1 & IH2)]; [split; reflexivity|].
  cbn [List.filter flat_map].
  destruct b; cbn [isToolResult negb flat_map app]; rewrite ?IH1, ?IH2;
    split; reflexivity.
Qed.

End LossFacts.

(** X22. What the conversion loses.  The error flag of a tool result is
    not transmitted: clearing it in every block changes nothing.  In a
    user message that holds a tool result, only the tool results count:
    its text and its other blocks are dropped.  In an assistant message
    the tool results are dropped. *)
Theorem convertMessage_loses (blocks : list Provider.ContentBlock)
  (r : Provider.Role) (id : option string) :
  OpenAIRequest.convertMessage
    (Provider.mkMessage r (Provider.Blocks (map unflagged blocks)) id)
  = OpenAIRequest.convertMessage (Provider.mkMessage r (Provider.Blocks blocks) id)
  /\ (if existsb isToolResult blocks
      then OpenAIRequest.convertMessage
             (Provider.mkMessage Provider.user (Provider.Blocks blocks) id)
           = OpenAIRequest.convertMessage
               (Provider.mkMessage Provider.user
                  (Provider.Blocks (List.filter isToolResult blocks)) id)
      else True)
  /\ OpenAIRequest.convertMessage
       (Provider.mkMessage Provider.assistant (Provider.Blocks blocks) id)
     = OpenAIRequest.convertMessage
         (Provider.mkMessage Provider.assistant
            (Provider.Blocks
               (List.filter (fun b => negb (isToolResult b)) blocks)) id).
Proof.
  destruct (parts_unflagged blocks) as (H1 & H2 & H3).
  destruct (parts_without_results blocks) as (H4 & H5).
  split; [|split].
  - unfold OpenAIRequest.convertMessage.
    cbn [Provider.content Provider.role]. now rewrite H1, H2, H3.
  - destruct (existsb isToolResult blocks) eqn:E; [|exact I].
    unfold OpenAIRequest.convertMessage.
    cbn [Provider.content Provider.role]. rewrite toolResults_filter.
    destruct (OpenAIRequest.toolResults blocks) as [|x xs] eqn:Er;
      [|reflexivity].
    exfalso. clear -E Er. unfold OpenAIRequest.toolResults in Er.
    induction blocks as [|b blocks IH]; [discriminate|].
    cbn [existsb flat_map] in *. destruct b; cbn [isToolResult orb] in E;
      try discriminate; now apply IH.
  - unfold OpenAIRequest.convertMessage.
    cbn [Provider.content Provider.role]. now rewrite H4, H5.
Qed.

Section EndpointFacts.
Import JsString OpenAIRequest.

Fixpoint slashes (n : nat) : string :=
  match n with
  | O => EmptyString
  | S n' => String "/" (slashes n')
  end.

Lemma strip_slashes (n : nat) : stripTrailingSlashes (slashes n) = EmptyString.
Proof.
  induction n as [|n IH]; [reflexivity|].
  cbn [slashes stripTrailingSlashes]. now rewrite IH.
Qed.

Lemma strip_app_slashes (s : string) (n : nat) :
  stripTrailingSlashes (s +:+ slashes n) = stripTrailingSlashes s.
Proof.
  induction s as [|c rest IH].
  - rewrite app_nil_s. apply strip_slashes.
  - rewrite app_cons_s. cbn [stripTrailingSlashes]. now rewrite IH.
Qed.

Lemma strip_clean (s : string) :
  last s <> Some "/"%char -> stripTrailingSlashes s = s.
Proof.
  induction s as [|c rest IH]; [reflexivity|].
  intros Hlast. cbn [stripTrailingSlashes].
  destruct rest as [|d rest'].
  - cbn [stripTrailingSlashes].
    destruct (Ascii.eqb_spec c "/") as [->|]; [now contradiction Hlast | reflexivity].
  - rewrite IH by exact Hlast. reflexivity.
Qed.

End EndpointFacts.

(** X23. Slashes at the end of the configured base address make no
    difference: whatever their number, the adapter posts to the base
    address followed by [/chat/completions], with a single slash in
    between. *)
Theorem endpoint_ignores_trailing_slashes (baseUrl : string) (n : nat) :
  JsString.last baseUrl <> Some "/"%char ->
  OpenAIRequest.endpoint (baseUrl +:+ slashes n)
  = baseUrl +:+ "/chat/completions".
Proof.
  intros Hlast. unfold OpenAIRequest.endpoint.
  now rewrite strip_app_slashes, strip_clean.
Qed.

Lemma endpoint_ignores_trailing_slashes_witness :
  OpenAIRequest.endpoint ("https://api.x.ai/v1" +:+ slashes 2)
  = "https://api.x.ai/v1" +:+ "/chat/completions".
Proof.
  apply (endpoint_ignores_trailing_slashes "https://api.x.ai/v1" 2).
  vm_compute. discriminate.
Defined.
(** ** The read tool *)
Section ReadFacts.
Import JsString ReadFile.

Definition TAB : ascii := "009"%char.
Definition LF : ascii := "010"%char.

(** What follows the first tab of a line. *)
Fixpoint afterTab (s : string) : string :=
  match s with
  | EmptyString => EmptyString
  | String c rest => if Ascii.eqb c TAB then rest else afterTab rest
  end.

(** The characters of a rendered number: digits and the sign. *)
Definition isNumChar (c : ascii) : bool :=
  ascii_in 48 57 c || Ascii.eqb c "-".

Definition onlyChars (p : ascii -> bool) (s : string) : Prop :=
  forall c, has_char c s = true -> p c = true.

Lemma onlyChars_app (p : ascii -> bool) (a b : string) :
  onlyChars p a -> onlyChars p b -> onlyChars p (a +:+ b).
Proof.
  intros Ha Hb c H. rewrite has_char_app in H.
  apply orb_true_iff in H as [H|H]; [now apply Ha | now apply Hb].
Qed.

Lemma onlyChars_cons (p : ascii -> bool) (a : ascii) (s : string) :
  p a = true -> onlyChars p s -> onlyChars p (String a s).
Proof.
  intros Ha Hs c H. cbn [has_char] in H.
  apply orb_true_iff in H as [H|H]; [|now apply Hs].
  apply Ascii.eqb_eq in H. now subst.
Qed.

Lemma onlyChars_nil (p : ascii -> bool) : onlyChars p EmptyString.
Proof. intros c H. discriminate. Qed.

Lemma uint_numeric (d : Decimal.uint) :
  onlyChars isNumChar (NilEmpty.string_of_uint d).
Proof.
  induction d; cbn [NilEmpty.string_of_uint];
    first [apply onlyChars_nil | apply onlyChars_cons; [reflexivity | assumption]].
Qed.

Lemma ofZ_numeric (z : Z) : onlyChars isNumChar (ofZ z).
Proof.
  unfold ofZ, NilZero.string_of_int.
  assert (Hu : forall d, onlyChars isNumChar (NilZero.string_of_uint d)).
  { intros d. unfold NilZero.string_of_uint.
    destruct d; try apply uint_numeric.
    apply onlyChars_cons; [reflexivity | apply onlyChars_nil]. }
  destruct (Z.to_int z); [apply Hu|].
  apply onlyChars_cons; [reflexivity | apply Hu].
Qed.

Lemma ofZ_not_empty (z : Z) : ofZ z <> EmptyString.
Proof.
  unfold ofZ, NilZero.string_of_int, NilZero.string_of_uint.
  destruct (Z.to_int z) as [d|d]; [|discriminate].
  destruct d; discriminate.
Qed.

Definition isPadChar (c : ascii) : bool := isNumChar c || Ascii.eqb c " ".

Lemma padStart_chars (width : nat) (z : Z) :
  onlyChars isPadChar (padStart width (ofZ z)).
Proof.
  unfold padStart. apply onlyChars_app.
  - induction (width - String.length (ofZ z)) as [|n IH];
      [apply onlyChars_nil|].
    apply onlyChars_cons; [reflexivity | exact IH].
  - intros c H. unfold isPadChar. now rewrite (ofZ_numeric z c H).
Qed.

Lemma padStart_not_empty (width : nat) (z : Z) :
  padStart width (ofZ z) <> EmptyString.
Proof.
  unfold padStart. intros H. apply app_eq_empty in H as [_ H].
  now apply ofZ_not_empty in H.
Qed.

Lemma onlyChars_lacks (p : ascii -> bool) (s : string) (c : ascii) :
  onlyChars p s -> p c = false -> has_char c s = false.
Proof.
  intros Hs Hc. destruct (has_char c s) eqn:E; [|reflexivity].
  apply Hs in E. congruence.
Qed.

Lemma afterTab_app (pre rest : string) :
  has_char TAB pre = false -> afterTab (pre +:+ String TAB rest) = rest.
Proof.
  induction pre as [|a pre IH]; intros H.
  - rewrite app_nil_s. cbn. reflexivity.
  - cbn [has_char] in H. apply orb_false_iff in H as [Ha Hp].
    rewrite app_cons_s. cbn [afterTab]. rewrite Ha. now apply IH.
Qed.

Lemma join_split (c : ascii) (s : string) :
  join (String c EmptyString) (split c s) = s.
Proof.
  induction s as [|a s IH]; [reflexivity|].
  cbn [split]. pose proof (split_not_nil c s) as Hne.
  destruct (Ascii.eqb a c) eqn:E.
  - apply Ascii.eqb_eq in E; subst a.
    destruct (split c s) as [|h t]; [contradiction|].
    change (join (String c EmptyString) (EmptyString :: h :: t))
      with (EmptyString +:+ String c EmptyString
            +:+ join (String c EmptyString) (h :: t)).
    now rewrite IH.
  - destruct (split c s) as [|h t]; [contradiction|].
    destruct t as [|h' t'].
    + cbn [join] in *. now rewrite IH.
    + change (join (String c EmptyString) (String a h :: h' :: t'))
        with (String a h +:+ String c EmptyString
              +:+ join (String c EmptyString) (h' :: t')).
      change (join (String c EmptyString) (h :: h' :: t'))
        with (h +:+ String c EmptyString
              +:+ join (String c EmptyString) (h' :: t')) in IH.
      now rewrite app_cons_s, IH.
Qed.

(** The shape of a rendered line. *)
Lemma renderLine_shape (startIdx : Z) (width i : nat) (line : string) :
  exists pre,
    renderLine startIdx width i line
    = pre +:+ String TAB (if (2000 <? String.length line)%nat
                          then take 2000 line +:+ "..." else line)
    /\ onlyChars isPadChar pre /\ pre <> EmptyString.
Proof.
  exists (padStart width (ofZ (startIdx + Z.of_nat i + 1))).
  split; [reflexivity|].
  split; [apply padStart_chars | apply padStart_not_empty].
Qed.

Lemma mapi_length {A B : Type} (f : nat -> A -> B) (i : nat) (l : list A) :
  List.length (mapi f i l) = List.length l.
Proof.
  revert i; induction l as [|x l IH]; intros i; [reflexivity|].
  cbn. now rewrite IH.
Qed.

Lemma rendered_lines (startIdx : Z) (width i : nat) (lines : list string) :
  Forall (fun line => has_char LF line = false) lines ->
  Forall (fun line => String.length line <= 2000) lines ->
  Forall (fun r => has_char LF r = false)
    (mapi (renderLine startIdx width) i lines)
  /\ map afterTab (mapi (renderLine startIdx width) i lines) = lines.
Proof.
  revert i; induction lines as [|line lines IH]; intros i Hlf Hlen.
  - split; [constructor | reflexivity].
  - inversion Hlf as [|? ? Hl Hlf']; inversion Hlen as [|? ? Hn Hlen']; subst.
    destruct (IH (S i) Hlf' Hlen') as [IH1 IH2].
    destruct (renderLine_shape startIdx width i line) as (pre & Hr & Hpre & _).
    assert (Hshort : (2000 <? String.length line)%nat = false)
      by (apply Nat.ltb_ge; exact Hn).
    rewrite Hshort in Hr.
    cbn [mapi map]. rewrite Hr. split.
    + constructor; [|exact IH1].
      rewrite has_char_app. cbn [has_char]. rewrite Hl.
      rewrite (onlyChars_lacks _ _ LF Hpre eq_refl). reflexivity.
    + rewrite afterTab_app, IH2; [reflexivity|].
      apply (onlyChars_lacks _ _ TAB Hpre eq_refl).
Qed.

Lemma slice_all {A : Type} (l : list A) :
  slice l 0 (Z.of_nat (List.length l)) = l.
Proof.
  unfold slice. set (len := Z.of_nat (List.length l)).
  assert (Hfrom : (if (0 <? 0)%Z then Z.max (len + 0) 0 else Z.min 0 len) = 0%Z)
    by (change (0 <? 0)%Z with false; cbv iota; subst len; lia).
  assert (Hto : (if (len <? 0)%Z then Z.max (len + len) 0 else Z.min len len)
                = len).
  { destruct (len <? 0)%Z eqn:E; [apply Z.ltb_lt in E; subst len; lia | lia]. }
  rewrite Hfrom, Hto, Z.sub_0_r. subst len. rewrite Nat2Z.id.
  cbn [Z.to_nat skipn]. apply firstn_all.
Qed.

Lemma join_not_empty (sep first : string) (rest : list string) :
  first <> EmptyString -> join sep (first :: rest) <> EmptyString.
Proof.
  intros Hf. destruct rest as [|x rest]; [exact Hf|].
  change (join sep (first :: x :: rest))
    with (first +:+ sep +:+ join sep (x :: rest)).
  intros H. apply app_eq_empty in H as [H _]. contradiction.
Qed.

End ReadFacts.

Section ReadShow.
Import JsString ReadFile.

(** What [execute] answers for a file that is there, is not too large and
    does not look binary: its text, as [show] renders it. *)
Lemma execute_shows (cwd projectRoot : string) (w : Fs.World) (input : Input)
  (safePath content : string) :
  Sandbox.resolveSafePath cwd projectRoot (path input) = Ok safePath ->
  Fs.files w !! safePath = Some content ->
  (N.of_nat (String.length content) <= MAX_READ_SIZE)%N ->
  has_char NUL (take (N.to_nat 8192) content) = false ->
  execute cwd projectRoot w input
  = mkResult (show (Utf8.decode content) (orDefault (offset input) 1)
                (orDefault (limit input) 2000)) None.
Proof.
  intros Hres Hfile Hsize Htext. unfold execute, isBinaryFile.
  rewrite Hres, Hfile, Htext.
  destruct (N.ltb_spec MAX_READ_SIZE (N.of_nat (String.length content)));
    [lia | reflexivity].
Qed.

Lemma slice_window {A : Type} (l : list A) (from count : Z) :
  (0 <= from)%Z -> (0 <= count)%Z ->
  (from + count <= Z.of_nat (List.length l))%Z ->
  slice l from (from + count)
  = firstn (Z.to_nat count) (skipn (Z.to_nat from) l).
Proof.
  intros Hfrom Hcount Hfit. unfold slice.
  destruct (Z.ltb_spec from 0); [lia|].
  destruct (Z.ltb_spec (from + count) 0); [lia|].
  rewrite !Z.min_l by lia. f_equal. f_equal. lia.
Qed.

(** *** The numbered lines, as a reader sees them *)

(** The number of a line, padded with spaces on its left to [width]. *)
Definition numberColumn (width : nat) (n : Z) : string :=
  string_of_list_ascii
    (List.repeat " "%char (width - String.length (ofZ n)))
  +:+ ofZ n.

(** The lines, each behind its number and a tab, numbered from [n] on. *)
Fixpoint numbered (n : Z) (width : nat) (lines : list string) : list string :=
  match lines with
  | [] => []
  | line :: rest =>
      (numberColumn width n +:+ String TAB line)
      :: numbered (n + 1) width rest
  end.

(** The line that follows a window. *)
Definition trailer (first last total : Z) : string :=
  "(showing lines " +:+ ofZ first +:+ "-" +:+ ofZ last +:+ " of "
  +:+ ofZ total +:+ ")".

Lemma spaces_repeat (k : nat) :
  spaces k = string_of_list_ascii (List.repeat " "%char k).
Proof. induction k as [|k IH]; [reflexivity|]. cbn. now rewrite IH. Qed.

Lemma rendered_numbered (startIdx : Z) (width i : nat) (lines : list string) :
  Forall (fun line => String.length line <= 2000) lines ->
  mapi (renderLine startIdx width) i lines
  = numbered (startIdx + Z.of_nat i + 1) width lines.
Proof.
  revert i; induction lines as [|line lines IH]; intros i Hlen; [reflexivity|].
  inversion Hlen as [|? ? Hn Hlen']; subst.
  cbn [mapi numbered]. rewrite (IH (S i) Hlen'). f_equal.
  - unfold renderLine, numberColumn, padStart.
    assert (Hshort : (2000 <? String.length line)%nat = false)
      by (apply Nat.ltb_ge; exact Hn).
    now rewrite Hshort, spaces_repeat.
  - f_equal. lia.
Qed.

Lemma trailer_one_line (a b c : Z) : has_char LF (trailer a b c) = false.
Proof.
  unfold trailer. rewrite !has_char_app.
  rewrite !(onlyChars_lacks _ _ LF (ofZ_numeric _) eq_refl). reflexivity.
Qed.

(** What [show] answers, line by line, for a window that is not empty and
    holds no line of more than 2000 bytes: the lines of the window behind
    their numbers, then the trailer when lines remain after it. *)
Lemma show_window (text : string) (first count : Z) :
  let lines := split LF text in
  let total := Z.of_nat (List.length lines) in
  let last := Z.min total (first - 1 + count) in
  let window := firstn (Z.to_nat (last - (first - 1)))
                  (skipn (Z.to_nat (first - 1)) lines) in
  (1 <= first)%Z -> (0 < count)%Z -> (first - 1 < total)%Z ->
  Forall (fun line => String.length line <= 2000) window ->
  split LF (show text first count)
  = numbered first (String.length (ofZ last)) window
    ++ (if (last <? total)%Z then [trailer first last total] else [])
  /\ map afterTab (numbered first (String.length (ofZ last)) window) = window.
Proof.
  intros lines total last window Hfirst Hcount Hin Hlen.
  unfold show. cbv zeta. fold LF. fold lines. fold total.
  replace (Z.max 0 (first - 1)) with (first - 1)%Z by lia.
  fold last.
  pose proof (slice_window lines (first - 1) (last - (first - 1))) as Hslice.
  replace (first - 1 + (last - (first - 1)))%Z with last in Hslice by lia.
  rewrite Hslice by (subst last total; lia).
  fold window.
  assert (Hcountw : List.length window = Z.to_nat (last - (first - 1))).
  { subst window. rewrite List.length_firstn, List.length_skipn.
    subst last total. lia. }
  destruct (rendered_lines (first - 1) (String.length (ofZ last)) 0 window)
    as [Hlf Hback];
    [subst window; apply Forall_take, Forall_drop, split_no_sep | exact Hlen |].
  rewrite (rendered_numbered _ _ _ _ Hlen) in *.
  replace (first - 1 + Z.of_nat 0 + 1)%Z with first in * by lia.
  replace (first - 1 + 1)%Z with first by lia.
  set (shown := numbered first (String.length (ofZ last)) window) in *.
  split; [|exact Hback].
  assert (Hne : shown <> []).
  { intros E. apply (f_equal (map afterTab)) in E. rewrite Hback in E.
    cbn [map] in E. rewrite E in Hcountw. cbn in Hcountw.
    subst last total. lia. }
  assert (Hnumbered : is_empty (join (String LF EmptyString) shown) = false).
  { subst shown. destruct window as [|l0 ls]; [contradiction|].
    cbn [numbered].
    match goal with
    | |- is_empty (join _ (?r0 :: ?rest)) = false =>
        pose proof (join_not_empty (String LF EmptyString) r0 rest) as Hj;
        destruct (join (String LF EmptyString) (r0 :: rest));
        [|reflexivity]
    end.
    exfalso. apply Hj; [|reflexivity].
    unfold numberColumn. intros E.
    apply app_eq_empty in E as [E _]. apply app_eq_empty in E as [_ E].
    now apply ofZ_not_empty in E. }
  rewrite Hnumbered.
  destruct (last <? total)%Z.
  - fold (trailer first last total).
    rewrite split_app, (split_join LF shown Hne Hlf).
    now rewrite (split_no_char LF _ (trailer_one_line _ _ _)).
  - now rewrite app_empty_r, (split_join LF shown Hne Hlf), app_nil_r.
Qed.

End ReadShow.

(** X24. Reading a whole text file loses nothing.  For a file inside the
    sandbox that is not too large and has no null byte among its first
    8192 bytes, whose text (its bytes read as UTF-8) has no line of more
    than 2000 bytes, read from its first line with a limit that covers it
    (the defaults, for a file of at most 2000 lines), the result is not an
    error and holds the lines of the text, each behind its number, from 1
    on, padded to the width of the last number, and a tab; taking off what
    precedes the first tab of each line gives the text back, which is the
    file itself when its bytes are well-formed UTF-8. *)
Theorem read_file_shows_whole_file
  (cwd projectRoot : string) (w : Fs.World) (input : ReadFile.Input)
  (safePath content : string) :
  Sandbox.resolveSafePath cwd projectRoot (ReadFile.path input) = Ok safePath ->
  Fs.files w !! safePath = Some content ->
  (N.of_nat (String.length content) <= ReadFile.MAX_READ_SIZE)%N ->
  JsString.has_char ReadFile.NUL (JsString.take (N.to_nat 8192) content) = false ->
  ReadFile.orDefault (ReadFile.offset input) 1 = 1%Z ->
  (Z.of_nat (List.length (JsString.split LF (Utf8.decode content)))
   <= ReadFile.orDefault (ReadFile.limit input) 2000)%Z ->
  Forall (fun line => String.length line <= 2000)
    (JsString.split LF (Utf8.decode content)) ->
  let r := ReadFile.execute cwd projectRoot w input in
  let lines := JsString.split LF (Utf8.decode content) in
  isError r = None
  /\ JsString.split LF (ToolTypes.content r)
     = numbered 1
         (String.length (JsString.ofZ (Z.of_nat (List.length lines)))) lines
  /\ JsString.join (String LF EmptyString)
       (map afterTab (JsString.split LF (ToolTypes.content r)))
     = Utf8.decode content.
Proof.
  intros Hres Hfile Hsize Htext Hoff Hlim Hlen r lines. subst r.
  rewrite (execute_shows _ _ _ _ _ _ Hres Hfile Hsize Htext), Hoff.
  cbn [isError ToolTypes.content]. split; [reflexivity|].
  pose proof (split_not_nil LF (Utf8.decode content)) as Hnn. fold lines in Hnn.
  assert (Hpos : (0 < Z.of_nat (List.length lines))%Z)
    by (destruct lines; [contradiction | cbn; lia]).
  pose proof (show_window (Utf8.decode content) 1
                (ReadFile.orDefault (ReadFile.limit input) 2000)) as Hshow.
  cbv zeta in Hshow. fold lines in Hshow.
  replace (Z.min (Z.of_nat (List.length lines))
             (1 - 1 + ReadFile.orDefault (ReadFile.limit input) 2000))
    with (Z.of_nat (List.length lines)) in Hshow by (fold lines in Hlim; lia).
  replace (Z.to_nat (Z.of_nat (List.length lines) - (1 - 1)))
    with (List.length lines) in Hshow by lia.
  change (Z.to_nat (1 - 1)) with 0 in Hshow. cbn [skipn] in Hshow.
  rewrite firstn_all, Z.ltb_irrefl, app_nil_r in Hshow.
  destruct Hshow as [Hsplit Hback];
    [lia | fold lines in Hlim; lia | lia | exact Hlen |].
  split; [exact Hsplit|].
  rewrite Hsplit, Hback. apply join_split.
Qed.

(** The witness reads a file of two lines whose last byte is not UTF-8. *)
Lemma read_file_shows_whole_file_witness :
  let content := "alpha" +:+ String LF ("beta" +:+ String "255"%char EmptyString) in
  let r := ReadFile.execute "/proj" "/proj"
             (Scenario.oneFile "/proj/a.txt" content)
             (ReadFile.mkInput "a.txt" None None) in
  let lines := JsString.split LF (Utf8.decode content) in
  isError r = None
  /\ JsString.split LF (ToolTypes.content r)
     = numbered 1
         (String.length (JsString.ofZ (Z.of_nat (List.length lines)))) lines
  /\ JsString.join (String LF EmptyString)
       (map afterTab (JsString.split LF (ToolTypes.content r)))
     = Utf8.decode content.
Proof.
  apply (read_file_shows_whole_file "/proj" "/proj"
           (Scenario.oneFile "/proj/a.txt"
              ("alpha" +:+ String LF ("beta" +:+ String "255"%char EmptyString)))
           (ReadFile.mkInput "a.txt" None None) "/proj/a.txt"
           ("alpha" +:+ String LF ("beta" +:+ String "255"%char EmptyString)));
    try reflexivity; try (vm_compute; discriminate).
  change (Forall (fun line => String.length line <= 2000)
            ["alpha"; "beta" +:+ Utf8.REPLACEMENT]).
  repeat constructor; cbn; lia.
Defined.

Example read_file_numbers_lines :
  ToolTypes.content
    (ReadFile.execute "/proj" "/proj"
       (Scenario.oneFile "/proj/a.txt" ("alpha" +:+ String LF "beta"))
       (ReadFile.mkInput "a.txt" None None))
  = "1" +:+ String TAB "alpha" +:+ String LF ("2" +:+ String TAB "beta").
Proof. reflexivity. Qed.

(** X25. On a file system of regular files the read tool answers without
    an error exactly when the path stays inside the project root, the file
    is there, it is not larger than [MAX_READ_SIZE] and none of its first
    8192 bytes is null; in every other case the answer is flagged as an
    error. *)
Theorem read_file_succeeds_iff
  (cwd projectRoot : string) (w : Fs.World) (input : ReadFile.Input) :
  let r := ReadFile.execute cwd projectRoot w input in
  (isError r = None
   <-> exists safePath content,
         Sandbox.resolveSafePath cwd projectRoot (ReadFile.path input)
         = Ok safePath
         /\ Fs.files w !! safePath = Some content
         /\ (N.of_nat (String.length content) <= ReadFile.MAX_READ_SIZE)%N
         /\ JsString.has_char ReadFile.NUL
              (JsString.take (N.to_nat 8192) content) = false)
  /\ (isError r = None \/ isError r = Some true).
Proof.
  cbv zeta. unfold ReadFile.execute, ReadFile.isBinaryFile, ReadFile.onError.
  destruct (Sandbox.resolveSafePath cwd projectRoot (ReadFile.path input))
    as [safePath|err] eqn:Hres.
  2:{ cbn [isError]. split; [|now right].
      split; [discriminate | intros (? & ? & H & _); discriminate H]. }
  destruct (Fs.files w !! safePath) as [content|] eqn:Hfile.
  2:{ match goal with
      | |- context [isError ?r] =>
          assert (Hflag : isError r = Some true)
            by (now repeat destruct (JsString.includes _ _))
      end.
      rewrite Hflag. split; [|now right].
      split; [discriminate|].
      intros (p & c & Hp & Hc & _). injection Hp as <-. congruence. }
  destruct (N.ltb_spec ReadFile.MAX_READ_SIZE (N.of_nat (String.length content)))
    as [Hbig|Hsmall].
  { cbn [isError]. split; [|now right]. split; [discriminate|].
    intros (p & c & Hp & Hc & Hle & _). injection Hp as <-.
    rewrite Hfile in Hc. injection Hc as <-. lia. }
  destruct (JsString.has_char ReadFile.NUL (JsString.take (N.to_nat 8192) content))
    eqn:Hbin.
  { cbn [isError]. split; [|now right]. split; [discriminate|].
    intros (p & c & Hp & Hc & _ & Hn). injection Hp as <-.
    rewrite Hfile in Hc. injection Hc as <-. congruence. }
  cbn [isError]. split; [|now left]. split; [|reflexivity].
  intros _. now exists safePath, content.
Qed.

(** X26. Reading a window of a text file.  When [offset] is at least 1,
    [limit] is positive, lines remain after the window and no line of the
    window has more than 2000 bytes, the answer holds the [limit] lines of
    the text (the bytes of the file read as UTF-8) that start at line
    [offset], each behind its number in the file, padded to the width of
    the last number shown, and a tab, followed by one line that tells
    which lines are shown and how many the file has. *)
Theorem read_file_shows_window
  (cwd projectRoot : string) (w : Fs.World) (input : ReadFile.Input)
  (safePath content : string) (first count : Z) :
  Sandbox.resolveSafePath cwd projectRoot (ReadFile.path input) = Ok safePath ->
  Fs.files w !! safePath = Some content ->
  (N.of_nat (String.length content) <= ReadFile.MAX_READ_SIZE)%N ->
  JsString.has_char ReadFile.NUL (JsString.take (N.to_nat 8192) content) = false ->
  ReadFile.orDefault (ReadFile.offset input) 1 = first ->
  ReadFile.orDefault (ReadFile.limit input) 2000 = count ->
  (1 <= first)%Z -> (0 < count)%Z ->
  (first - 1 + count
   < Z.of_nat (List.length (JsString.split LF (Utf8.decode content))))%Z ->
  Forall (fun line => String.length line <= 2000)
    (firstn (Z.to_nat count)
       (skipn (Z.to_nat (first - 1))
          (JsString.split LF (Utf8.decode content)))) ->
  let r := ReadFile.execute cwd projectRoot w input in
  let lines := JsString.split LF (Utf8.decode content) in
  isError r = None
  /\ JsString.split LF (ToolTypes.content r)
     = numbered first (String.length (JsString.ofZ (first - 1 + count)))
         (firstn (Z.to_nat count) (skipn (Z.to_nat (first - 1)) lines))
       ++ ["(showing lines " +:+ JsString.ofZ first +:+ "-"
           +:+ JsString.ofZ (first - 1 + count) +:+ " of "
           +:+ JsString.ofZ (Z.of_nat (List.length lines)) +:+ ")"].
Proof.
  intros Hres Hfile Hsize Htext Hoff Hlim Hfirst Hcount Hmore Hlen r lines.
  subst r.
  rewrite (execute_shows _ _ _ _ _ _ Hres Hfile Hsize Htext), Hoff, Hlim.
  cbn [isError ToolTypes.content]. split; [reflexivity|].
  pose proof (show_window (Utf8.decode content) first count) as Hshow.
  cbv zeta in Hshow. fold lines in Hshow, Hmore, Hlen.
  replace (Z.min (Z.of_nat (List.length lines)) (first - 1 + count))
    with (first - 1 + count)%Z in Hshow by lia.
  replace (first - 1 + count - (first - 1))%Z with count in Hshow by lia.
  destruct (Z.ltb_spec (first - 1 + count) (Z.of_nat (List.length lines)))
    as [_|]; [|lia].
  destruct Hshow as [Hsplit _]; [lia | lia | lia | exact Hlen |].
  exact Hsplit.
Qed.

Lemma read_file_shows_window_witness :
  let content := "a" +:+ String LF ("b" +:+ String LF ("c" +:+ String LF "d")) in
  let r := ReadFile.execute "/proj" "/proj"
             (Scenario.oneFile "/proj/a.txt" content)
             (ReadFile.mkInput "a.txt" (Some 2%Z) (Some 2%Z)) in
  let lines := JsString.split LF (Utf8.decode content) in
  isError r = None
  /\ JsString.split LF (ToolTypes.content r)
     = numbered 2 (String.length (JsString.ofZ (2 - 1 + 2)))
         (firstn (Z.to_nat 2) (skipn (Z.to_nat (2 - 1)) lines))
       ++ ["(showing lines " +:+ JsString.ofZ 2 +:+ "-"
           +:+ JsString.ofZ (2 - 1 + 2) +:+ " of "
           +:+ JsString.ofZ (Z.of_nat (List.length lines)) +:+ ")"].
Proof.
  apply (read_file_shows_window "/proj" "/proj"
           (Scenario.oneFile "/proj/a.txt"
              ("a" +:+ String LF ("b" +:+ String LF ("c" +:+ String LF "d"))))
           (ReadFile.mkInput "a.txt" (Some 2%Z) (Some 2%Z)) "/proj/a.txt"
           ("a" +:+ String LF ("b" +:+ String LF ("c" +:+ String LF "d")))
           2%Z 2%Z);
    try reflexivity; try (vm_compute; discriminate).
  change (Forall (fun line => String.length line <= 2000) ["b"; "c"]).
  repeat constructor; cbn [String.length]; lia.
Defined.

Example read_file_window_text :
  ToolTypes.content
    (ReadFile.execute "/proj" "/proj"
       (Scenario.oneFile "/proj/a.txt"
          ("a" +:+ String LF ("b" +:+ String LF ("c" +:+ String LF "d"))))
       (ReadFile.mkInput "a.txt" (Some 2%Z) (Some 2%Z)))
  = "2" +:+ String TAB "b" +:+ String LF
      ("3" +:+ String TAB "c" +:+ String LF "(showing lines 2-3 of 4)").
Proof. reflexivity. Qed.

(** ** The search tools *)
Section SearchFacts.
Import JsString SearchTools.

(** A path at or below the project root. *)
Definition inRoot (projectRoot p : string) : Prop :=
  p = projectRoot \/ startsWith p (projectRoot +:+ "/") = true.

Lemma searchPath_inRoot (cwd projectRoot : string) (searchDir : option string)
  (safePath : string) :
  searchPath cwd projectRoot searchDir = Ok safePath ->
  inRoot projectRoot safePath.
Proof.
  unfold searchPath, Sandbox.resolveSafePath, inRoot.
  destruct searchDir as [dir|]; [|intros [= <-]; now left].
  destruct (is_empty dir); [intros [= <-]; now left|].
  cbv zeta.
  destruct (startsWith _ (projectRoot +:+ Path.sep)) eqn:Hs;
    [intros [= <-]; now right|].
  destruct (String.eqb_spec
              (Path.normalize (Path.resolve cwd [projectRoot; dir]))
              projectRoot) as [He|]; [|discriminate].
  intros [= <-]. now left.
Qed.

End SearchFacts.

(** X27. The search tools stay inside the project root.  Whatever the
    input and whatever the programs answer, [grep_search] runs nothing but
    [which rg] and one search whose last three arguments are [--], the
    pattern and a path at or below the project root, and [glob_search]
    runs nothing but one [find] that starts at such a path. *)
Theorem search_tools_stay_in_root
  (cwd projectRoot : string) (os : SearchTools.ExecCall -> SearchTools.ExecOutcome)
  (g : SearchTools.GrepInput) (f : SearchTools.GlobInput) :
  Forall (fun call =>
            call = SearchTools.whichCall "rg"
            \/ exists options p,
                 SearchTools.exec_args call
                 = options ++ ["--"; SearchTools.grep_pattern g; p]
                 /\ inRoot projectRoot p)
    (fst (SearchTools.grepExecute cwd projectRoot os g))
  /\ Forall (fun call =>
               exists p rest,
                 SearchTools.exec_file call = "find"
                 /\ SearchTools.exec_args call = p :: rest
                 /\ inRoot projectRoot p)
       (fst (SearchTools.globExecute cwd projectRoot os f)).
Proof.
  split.
  - unfold SearchTools.grepExecute.
    destruct (SearchTools.searchPath cwd projectRoot (SearchTools.grep_path g))
      as [safePath|err] eqn:Hpath; [|constructor].
    apply searchPath_inRoot in Hpath. cbv zeta. cbn [fst].
    constructor; [now left|]. constructor; [|constructor]. right.
    destruct (SearchTools.commandExists os "rg"); cbn [SearchTools.exec_args];
      unfold SearchTools.rgArgs, SearchTools.grepArgs;
      match goal with
      | |- exists options p, ?a ++ ?b ++ ?c ++ _ = _ /\ _ =>
          exists (a ++ b ++ c), safePath
      end;
      (split; [|exact Hpath]); now rewrite !app_assoc.
  - unfold SearchTools.globExecute.
    destruct (SearchTools.searchPath cwd projectRoot (SearchTools.glob_path f))
      as [safePath|err] eqn:Hpath; [|constructor].
    apply searchPath_inRoot in Hpath. cbv zeta. cbn [fst].
    constructor; [|constructor].
    exists safePath. eexists. split; [reflexivity|].
    split; [reflexivity | exact Hpath].
Qed.

Section SearchOutput.
Import JsString SearchTools.

Lemma ofNat_numeric (n : nat) : onlyChars isNumChar (ofNat n).
Proof.
  unfold ofNat, NilZero.string_of_uint.
  destruct (Nat.to_uint n); try apply uint_numeric.
  apply onlyChars_cons; [reflexivity | apply onlyChars_nil].
Qed.

Lemma has_char_take (c : ascii) (n : nat) (s : string) :
  has_char c s = false -> has_char c (take n s) = false.
Proof.
  revert n; induction s as [|a s IH]; intros [|n] H; try reflexivity.
  cbn [has_char take] in *. apply orb_false_iff in H as [Ha Hs].
  now rewrite Ha, (IH n Hs).
Qed.

Lemma has_char_drop (c : ascii) (n : nat) (s : string) :
  has_char c s = false -> has_char c (drop n s) = false.
Proof.
  revert n; induction s as [|a s IH]; intros [|n] H; try reflexivity;
    [exact H|].
  cbn [has_char drop] in *. apply orb_false_iff in H as [_ Hs].
  now apply IH.
Qed.

(** Cutting a piece out of a line brings no line break into it. *)
Lemma replace_one_line (file piece : string) :
  has_char LF file = false ->
  has_char LF (EditFile.replace file piece EmptyString) = false.
Proof.
  intros H. unfold EditFile.replace.
  destruct (indexOf file piece 0) as [pos|]; [|exact H].
  cbv zeta. cbn [EditFile.getSubstitution].
  rewrite !has_char_app, (has_char_take _ _ _ H), (has_char_drop _ _ _ H).
  reflexivity.
Qed.

Lemma outputLines_one_line (stdout : string) :
  Forall (fun line => has_char LF line = false) (outputLines stdout).
Proof.
  unfold outputLines. apply List.Forall_forall. intros line Hin.
  apply List.filter_In in Hin as [Hin _].
  pose proof (split_no_sep LF (trim stdout)) as Hall.
  rewrite List.Forall_forall in Hall. now apply Hall.
Qed.

(** The listing of at most a hundred entries, with its trailer. *)
Lemma capped_listing (lines : list string) (trailer : string) :
  lines <> [] ->
  Forall (fun line => has_char LF line = false) lines ->
  has_char LF trailer = false ->
  List.length
    (split LF (if (100 <? List.length lines)%nat
               then join nl (firstn 100 lines) +:+ nl +:+ nl +:+ trailer
               else join nl lines))
  <= 102.
Proof.
  intros Hne Hall Htr.
  destruct (Nat.ltb_spec 100 (List.length lines)) as [Hmany|Hfew].
  - change (join nl (firstn 100 lines) +:+ nl +:+ nl +:+ trailer)
      with (join (String LF EmptyString) (firstn 100 lines)
            +:+ String LF (String LF trailer)).
    rewrite split_app, split_join.
    + rewrite List.length_app, List.length_firstn.
      change (split LF (String LF trailer))
        with (EmptyString :: split LF trailer).
      rewrite (split_no_char LF trailer Htr). cbn [List.length]. lia.
    + intros E. apply (f_equal (@List.length string)) in E.
      rewrite List.length_firstn in E. cbn [List.length] in E. lia.
    + now apply Forall_take.
  - change nl with (String LF EmptyString).
    rewrite split_join by assumption. lia.
Qed.

End SearchOutput.

(** X28. A search that ran shows at most a hundred results.  When the
    search path is accepted and the programs end normally, the results of
    [grep_search] and of [glob_search] are not flagged as errors and hold
    at most 102 lines: a hundred results, an empty line and the line that
    gives the total. *)
Theorem search_results_are_capped
  (cwd projectRoot : string) (out : SearchTools.ExecCall -> string)
  (g : SearchTools.GrepInput) (f : SearchTools.GlobInput) (pg pf : string) :
  SearchTools.searchPath cwd projectRoot (SearchTools.grep_path g) = Ok pg ->
  SearchTools.searchPath cwd projectRoot (SearchTools.glob_path f) = Ok pf ->
  let os := fun call => SearchTools.ExecOk (out call) in
  let rg := snd (SearchTools.grepExecute cwd projectRoot os g) in
  let rf := snd (SearchTools.globExecute cwd projectRoot os f) in
  isError rg = None /\ isError rf = None
  /\ List.length (JsString.split LF (ToolTypes.content rg)) <= 102
  /\ List.length (JsString.split LF (ToolTypes.content rf)) <= 102.
Proof.
  intros Hg Hf os rg rf. subst rg rf.
  unfold SearchTools.grepExecute, SearchTools.globExecute. rewrite Hg, Hf.
  cbv zeta. cbn [snd]. subst os. cbv beta.
  assert (Hgrep :
    forall lines : list string,
      Forall (fun line => JsString.has_char LF line = false) lines ->
      forall r : ToolResult,
        r = (if (List.length lines =? 0)%nat
             then mkResult "No matches found." None
             else if (100 <? List.length lines)%nat
                  then mkResult
                         (JsString.join SearchTools.nl (firstn 100 lines)
                          +:+ SearchTools.nl +:+ SearchTools.nl
                          +:+ "(showing 100 of "
                          +:+ JsString.ofNat (List.length lines)
                          +:+ " matches)") None
                  else mkResult (JsString.join SearchTools.nl lines) None) ->
        isError r = None
        /\ List.length (JsString.split LF (ToolTypes.content r)) <= 102).
  { intros lines Hall r ->.
    destruct (Nat.eqb_spec (List.length lines) 0) as [|Hn];
      [split; [reflexivity | cbn; lia]|].
    assert (Hne : lines <> []) by (now intros ->).
    pose proof (capped_listing lines
                  ("(showing 100 of " +:+ JsString.ofNat (List.length lines)
                   +:+ " matches)") Hne Hall) as Hcap.
    destruct (100 <? List.length lines)%nat; cbn [isError ToolTypes.content];
      (split; [reflexivity|]); apply Hcap;
      rewrite !has_char_app,
        (onlyChars_lacks _ _ LF (ofNat_numeric _) eq_refl); reflexivity. }
  assert (Hglob :
    forall files : list string,
      Forall (fun line => JsString.has_char LF line = false) files ->
      forall r : ToolResult,
        r = (if (List.length files =? 0)%nat
             then mkResult "No files found." None
             else
               let relative :=
                 map (fun file => EditFile.replace file (projectRoot +:+ "/")
                                    EmptyString) files in
               if (100 <? List.length relative)%nat
               then mkResult
                      (JsString.join SearchTools.nl (firstn 100 relative)
                       +:+ SearchTools.nl +:+ SearchTools.nl
                       +:+ "(showing 100 of "
                       +:+ JsString.ofNat (List.length relative)
                       +:+ " files)") None
               else mkResult (JsString.join SearchTools.nl relative) None) ->
        isError r = None
        /\ List.length (JsString.split LF (ToolTypes.content r)) <= 102).
  { intros files Hall r ->.
    destruct (Nat.eqb_spec (List.length files) 0) as [|Hn];
      [split; [reflexivity | cbn; lia]|].
    cbv zeta.
    set (relative := map _ files).
    assert (Hne : relative <> []).
    { subst relative. destruct files; [contradiction | discriminate]. }
    assert (Hrel : Forall (fun line => JsString.has_char LF line = false)
                     relative).
    { subst relative. apply List.Forall_forall. intros line Hin.
      apply List.in_map_iff in Hin as (file & <- & Hin).
      apply replace_one_line.
      rewrite List.Forall_forall in Hall. now apply Hall. }
    pose proof (capped_listing relative
                  ("(showing 100 of " +:+ JsString.ofNat (List.length relative)
                   +:+ " files)") Hne Hrel) as Hcap.
    destruct (100 <? List.length relative)%nat; cbn [isError ToolTypes.content];
      (split; [reflexivity|]); apply Hcap;
      rewrite !has_char_app,
        (onlyChars_lacks _ _ LF (ofNat_numeric _) eq_refl); reflexivity. }
  match goal with
  | |- isError ?rg = None /\ isError ?rf = None /\ _ =>
      destruct (Hgrep _ (outputLines_one_line _) rg eq_refl) as [Hg1 Hg2];
      destruct (Hglob _ (outputLines_one_line _) rf eq_refl) as [Hf1 Hf2]
  end.
  repeat split; assumption.
Qed.

Lemma search_results_are_capped_witness :
  let os := fun _ : SearchTools.ExecCall =>
              SearchTools.ExecOk ("/proj/src/a.ts" +:+ SearchTools.nl) in
  let rg := snd (SearchTools.grepExecute "/proj" "/proj" os
                   (SearchTools.mkGrepInput "moth" None None false)) in
  let rf := snd (SearchTools.globExecute "/proj" "/proj" os
                   (SearchTools.mkGlobInput "*.ts" (Some "src"))) in
  isError rg = None /\ isError rf = None
  /\ List.length (JsString.split LF (ToolTypes.content rg)) <= 102
  /\ List.length (JsString.split LF (ToolTypes.content rf)) <= 102.
Proof.
  apply (search_results_are_capped "/proj" "/proj"
           (fun _ => "/proj/src/a.ts" +:+ SearchTools.nl)
           (SearchTools.mkGrepInput "moth" None None false)
           (SearchTools.mkGlobInput "*.ts" (Some "src")) "/proj" "/proj/src");
    reflexivity.
Defined.

Example glob_shows_relative_paths :
  snd (SearchTools.globExecute "/proj" "/proj"
         (fun _ => SearchTools.ExecOk ("/proj/src/a.ts" +:+ SearchTools.nl
                                  +:+ "/proj/b.ts" +:+ SearchTools.nl))
         (SearchTools.mkGlobInput "*.ts" None))
  = mkResult ("src/a.ts" +:+ SearchTools.nl +:+ "b.ts") None.
Proof. reflexivity. Qed.
